(** * Verification of the histogram subsampler and of the C15 cluster builder

    Shallow embedding of
    - [Src_detection/Src/analysis/library_mcd.py]
      (class [NormDescriptorHistogram], and the classes of structures of
      [MCDAnalysisObject]) and
    - [Src_detection/Src/structure/compact_phases_builder.py]
      (class [C15Builder], and the constructor of [A15Builder]).

    Conventions of the embedding.
    - Python and numpy floats are modelled by exact rationals ([Q]); every
      arithmetic operation is the exact one, comparisons are the exact
      comparisons.  Equality of floats is [Qeq] ([==]).
    - A Python exception is a value of [exn]; a function that can raise
      returns a [result].
    - A [dict] whose iteration order is observable is an association list in
      insertion order.
    - The random source is explicit: [random.shuffle] on the ids of a bin is
      a function [shuffle] known only to return a permutation, and the draws
      of [np.random.choice] are an argument of [histogram_sample]. *)

From Stdlib Require Import String DecimalString.
From Stdlib Require Import Bool Arith ZArith QArith Qround List.
From Stdlib Require Import Permutation Lia Lqa.
From Stdlib Require Reals Lra.
Import ListNotations.

Set Implicit Arguments.

(** ** Python exceptions and fallible computations *)

Inductive exn : Type :=
| ValueError
| ZeroDivisionError
| TypeError
| KeyError
| IndexError
| TimeoutError (msg : string).

Inductive result (A : Type) : Type :=
| Ok (a : A)
| Raise (e : exn).

Arguments Ok {A} a.
Arguments Raise {A} e.

Definition bind {A B : Type} (c : result A) (k : A -> result B) : result B :=
  match c with
  | Ok a => k a
  | Raise e => Raise e
  end.

Notation "x <- c ;; k" := (bind c (fun x => k))
  (at level 61, c at next level, right associativity).

Definition is_ok {A : Type} (c : result A) : bool :=
  match c with Ok _ => true | Raise _ => false end.

(** ** Numeric helpers shared by both files *)

Module Num.
Local Open Scope Q_scope.

(** [float(n)] for a Python [int] that counts something. *)
Definition of_nat (n : nat) : Q := inject_Z (Z.of_nat n).

(** [int(x)]: truncation toward zero. *)
Definition py_int (x : Q) : Z := Z.quot (Qnum x) (Zpos (Qden x)).

(** [np.amin] of a one-dimensional array; a zero-size array has no minimum
    and numpy raises [ValueError]. *)
Fixpoint amin (l : list Q) : result Q :=
  match l with
  | [] => Raise ValueError
  | x :: t =>
      match t with
      | [] => Ok x
      | _ => m <- amin t ;; Ok (if Qle_bool x m then x else m)
      end
  end.

(** [np.amax], likewise. *)
Fixpoint amax (l : list Q) : result Q :=
  match l with
  | [] => Raise ValueError
  | x :: t =>
      match t with
      | [] => Ok x
      | _ => m <- amax t ;; Ok (if Qle_bool m x then x else m)
      end
  end.

(** Sum of a list of rationals, left to right. *)
Definition qsum (l : list Q) : Q := fold_left Qplus l 0.

End Num.

(** ** [library_mcd.py]: [NormDescriptorHistogram] *)

Module Histogram.
Import Num.
Local Open Scope Q_scope.

(** [class Bin(TypedDict)].  [density] is [None] until [fill_histogram]
    sets it. *)
Record Bin : Type := mkBin {
  min : Q;
  max : Q;
  list_norm : list Q;
  list_id : list nat;
  density : option Q
}.

(** An [Atoms] object is seen through its ['milady-descriptors'] array, one
    row per atom. *)
Definition Atoms : Type := list (list Q).

(** The attributes of a [NormDescriptorHistogram].  [bin] is the dictionary
    [self.bin]: its keys are [0 .. nb_bin-1], inserted in that order, so the
    entry of key [k] is the [k]-th element of the list. *)
Record NormDescriptorHistogram : Type := mkHist {
  descriptors : list (list Q);
  nb_bin : Z;
  id_list : list nat;
  array_norm_square : list Q;
  bin : list Bin;
  min_dis : Q;
  max_dis : Q
}.

(** [int(0.05*len(list_atoms))] *)
Definition default_nb_bin (n : nat) : Z := py_int ((5 # 100) * of_nat n).

(** [np.concatenate(arrays, axis=0)]: needs at least one array. *)
Definition concatenate (arrays : list Atoms) : result (list (list Q)) :=
  match arrays with
  | [] => Raise ValueError
  | _ => Ok (concat arrays)
  end.

(** [np.sum(row**2)] for one row of the descriptor array. *)
Definition norm_square (row : list Q) : Q := qsum (map (fun x => x * x) row).

(** Division of a numpy scalar by a Python [int]: a zero divisor raises
    nothing, numpy warns and yields [inf] or [nan], here [None]. *)
Definition np_true_divide (x : Q) (d : Z) : option Q :=
  if (d =? 0)%Z then None else Some (x / inject_Z d).

(** [range(n)] for a Python [int] [n]; empty when [n <= 0]. *)
Definition range (n : Z) : list nat := seq 0 (Z.to_nat n).

(** The membership test of [fill_histogram]:
    [(norm > bin['min']) & (norm <= bin['max'])]. *)
Definition mask_bin (b : Bin) (v : Q) : bool :=
  negb (Qle_bool v (min b)) && Qle_bool v (max b).

(** [array[mask].tolist()] for a boolean mask computed from the norms. *)
Definition select {A : Type} (b : Bin) (norms : list Q) (xs : list A)
  : list A :=
  map snd (filter (fun p => mask_bin b (fst p)) (combine norms xs)).

(** First loop of [fill_histogram], body for one bin. *)
Definition fill_bin (norms : list Q) (ids : list nat) (b : Bin) : Bin :=
  mkBin (min b) (max b)
        (list_norm b ++ select b norms norms)
        (list_id b ++ select b norms ids)
        (density b).

Section WithShuffle.

(** [random.shuffle(data_bin['list_id'])] for the bin of key [k]. *)
Variable shuffle : nat -> list nat -> list nat.

(** Second loop of [fill_histogram]: shuffle the ids, set the raw density
    and accumulate [sum_density].  [n] is [self.descriptors.shape[0]] and
    [i] the key of the first bin of [bins]. *)
Fixpoint density_loop (n : nat) (i : nat) (bins : list Bin) (sum_density : Q)
  : result (list Bin * Q) :=
  match bins with
  | [] => Ok ([], sum_density)
  | b :: rest =>
      if (n =? 0)%nat then Raise ZeroDivisionError
      else
        let d := of_nat (length (list_norm b)) / of_nat n in
        let b' := mkBin (min b) (max b) (list_norm b)
                        (shuffle i (list_id b)) (Some d) in
        r <- density_loop n (S i) rest (sum_density + d) ;;
        Ok (b' :: fst r, snd r)
  end.

(** Third loop of [fill_histogram]: [data_bin['density'] += miss_density]. *)
Fixpoint correction_loop (miss_density : Q) (bins : list Bin)
  : result (list Bin) :=
  match bins with
  | [] => Ok []
  | b :: rest =>
      match density b with
      | None => Raise TypeError
      | Some d =>
          rest' <- correction_loop miss_density rest ;;
          Ok (mkBin (min b) (max b) (list_norm b) (list_id b)
                    (Some (d + miss_density)) :: rest')
      end
  end.

(** [fill_histogram], on the bins and attributes set by [__init__]. *)
Definition fill_histogram (h : NormDescriptorHistogram)
  : result NormDescriptorHistogram :=
  let filled := map (fill_bin (array_norm_square h) (id_list h)) (bin h) in
  r <- density_loop (length (descriptors h)) 0 filled 0 ;;
  miss_density <- (if (nb_bin h =? 0)%Z then Raise ZeroDivisionError
                   else Ok ((1 - snd r) / inject_Z (nb_bin h))) ;;
  bins <- correction_loop miss_density (fst r) ;;
  Ok (mkHist (descriptors h) (nb_bin h) (id_list h) (array_norm_square h)
             bins (min_dis h) (max_dis h)).

(** [NormDescriptorHistogram.__init__(list_atoms, nb_bin)]. *)
Definition init (list_atoms : list Atoms) (nb_bin : option Z)
  : result NormDescriptorHistogram :=
  let nb_bin := match nb_bin with
                | None => default_nb_bin (length list_atoms)
                | Some n => n
                end in
  descriptors <- concatenate list_atoms ;;
  let id_list := seq 0 (length descriptors) in
  let array_norm_square := map norm_square descriptors in
  min_dis <- amin array_norm_square ;;
  max_dis <- amax array_norm_square ;;
  let increment := np_true_divide (max_dis - min_dis) nb_bin in
  let bin :=
    match increment with
    | Some increment =>
        map (fun k => mkBin (min_dis + of_nat k * increment)
                            (min_dis + of_nat (k + 1) * increment)
                            [] [] None)
            (range nb_bin)
    | None => []  (* [nb_bin = 0]: [range(nb_bin)] is empty *)
    end in
  fill_histogram (mkHist descriptors nb_bin id_list array_norm_square bin
                         min_dis max_dis).

End WithShuffle.

(** The list [[data_bin['density'] for _, data_bin in self.bin.items()]]
    given to [np.random.choice] as [p]. *)
Fixpoint densities (bins : list Bin) : result (list Q) :=
  match bins with
  | [] => Ok []
  | b :: rest =>
      match density b with
      | None => Raise TypeError
      | Some d => p <- densities rest ;; Ok (d :: p)
      end
  end.

(** The argument checks of [np.random.choice(a, size, p=p)] for
    [a = range(nb_bin)]: [p] has the size of [a], is non-negative and sums
    to one; otherwise [ValueError]. *)
Definition choice_check (nb_bin : Z) (p : list Q) : result unit :=
  if ((length p =? length (range nb_bin))%nat
      && forallb (Qle_bool 0) p
      && Qeq_bool (qsum p) 1)%bool
  then Ok tt else Raise ValueError.

(** [l[i] = x] on a list, [i] in range. *)
Definition set_nth {A : Type} (l : list A) (i : nat) (x : A) : list A :=
  firstn i l ++ x :: skipn (S i) l.

(** The loop of [histogram_sample] over the drawn bin keys. *)
Fixpoint selection_loop (bins : list Bin) (selection_bin : list nat)
         (list_id_selected : list nat) : result (list Bin * list nat) :=
  match selection_bin with
  | [] => Ok (bins, list_id_selected)
  | sl_bin :: rest =>
      match nth_error bins sl_bin with
      | None => Raise KeyError
      | Some b =>
          if (0 <? length (list_id b))%nat then
            let b' := mkBin (min b) (max b) (list_norm b)
                            (removelast (list_id b)) (density b) in
            selection_loop (set_nth bins sl_bin b') rest
                           (list_id_selected ++ [last (list_id b) 0%nat])
          else selection_loop bins rest list_id_selected
      end
  end.

(** [self.descriptors[list_id_selected]] *)
Fixpoint take_rows (descriptors : list (list Q)) (ids : list nat)
  : result (list (list Q)) :=
  match ids with
  | [] => Ok []
  | i :: rest =>
      match nth_error descriptors i with
      | None => Raise IndexError
      | Some row => rows <- take_rows descriptors rest ;; Ok (row :: rows)
      end
  end.

(** The part of [histogram_sample] that builds [list_id_selected];
    [selection_bin] is the array drawn by [np.random.choice]. *)
Definition histogram_select (h : NormDescriptorHistogram)
           (selection_bin : list nat) : result (list Bin * list nat) :=
  p <- densities (bin h) ;;
  _ <- choice_check (nb_bin h) p ;;
  selection_loop (bin h) selection_bin [].

(** [histogram_sample(nb_selected)]: the new state of the object and the
    returned array of descriptors. *)
Definition histogram_sample (h : NormDescriptorHistogram) (nb_selected : nat)
           (selection_bin : list nat)
  : result (NormDescriptorHistogram * list (list Q)) :=
  r <- histogram_select h selection_bin ;;
  rows <- take_rows (descriptors h) (snd r) ;;
  Ok (mkHist (descriptors h) (nb_bin h) (id_list h) (array_norm_square h)
             (fst r) (min_dis h) (max_dis h), rows).

(** The histograms a program can hold: built by [__init__], then sampled
    any number of times. *)
Inductive reachable (shuffle : nat -> list nat -> list nat)
  : NormDescriptorHistogram -> Prop :=
| reach_init : forall list_atoms nb h,
    init shuffle list_atoms nb = Ok h -> reachable shuffle h
| reach_sample : forall h k sel h' rows,
    reachable shuffle h ->
    length sel = k ->
    histogram_sample h k sel = Ok (h', rows) ->
    reachable shuffle h'.

End Histogram.

(** ** [compact_phases_builder.py]: [C15Builder] *)

Module C15.
Import Num.
Local Open Scope Q_scope.

(** *** Python containers *)

(** A [dict] in insertion order. *)
Definition dict (K V : Type) : Type := list (K * V).

Section Dict.
Context {K V : Type} (eqb : K -> K -> bool).

(** [d[k]] read; [None] stands for [KeyError]. *)
Fixpoint dict_get (k : K) (d : dict K V) : option V :=
  match d with
  | [] => None
  | (k', v) :: t => if eqb k k' then Some v else dict_get k t
  end.

(** [d[k] = v]: a present key keeps its place, a new key goes last. *)
Fixpoint dict_set (k : K) (v : V) (d : dict K V) : dict K V :=
  match d with
  | [] => [(k, v)]
  | (k', v') :: t =>
      if eqb k k' then (k, v) :: t else (k', v') :: dict_set k v t
  end.

Definition dict_keys (d : dict K V) : list K := map fst d.

End Dict.

(** [d[k]] inside a fallible computation. *)
Definition lookup {K V : Type} (eqb : K -> K -> bool) (k : K) (d : dict K V)
  : result V :=
  match dict_get eqb k d with
  | Some v => Ok v
  | None => Raise KeyError
  end.

(** [for x in l: acc = body(acc, x)] with a body that can raise. *)
Fixpoint foldM {A B : Type} (body : B -> A -> result B) (l : list A) (acc : B)
  : result B :=
  match l with
  | [] => Ok acc
  | x :: t => acc' <- body acc x ;; foldM body t acc'
  end.

(** [[f(x) for x in l]] with an [f] that can raise. *)
Fixpoint mapM {A B : Type} (f : A -> result B) (l : list A)
  : result (list B) :=
  match l with
  | [] => Ok []
  | x :: t => y <- f x ;; ys <- mapM f t ;; Ok (y :: ys)
  end.

(** *** Vectors and distances *)

Definition vec3 : Type := (Q * Q * Q)%type.

Definition vadd (u v : vec3) : vec3 :=
  let '(a, b, c) := u in let '(x, y, z) := v in (a + x, b + y, c + z).

Definition vsub (u v : vec3) : vec3 :=
  let '(a, b, c) := u in let '(x, y, z) := v in (a - x, b - y, c - z).

Definition vscale (k : Q) (v : vec3) : vec3 :=
  let '(x, y, z) := v in (k * x, k * y, k * z).

Definition to_list (v : vec3) : list Q :=
  let '(x, y, z) := v in [x; y; z].

(** Square of [np.linalg.norm(v)]. *)
Definition sqnorm (v : vec3) : Q :=
  let '(x, y, z) := v in x * x + y * y + z * z.

Definition Qlt_b (x y : Q) : bool := negb (Qle_bool y x).

(** [sqrt(sq) < tolerance] for [sq >= 0], decided without the root: the
    tolerance is positive and [sq < tolerance**2]. *)
Definition norm_lt (sq tolerance : Q) : bool :=
  Qlt_b 0 tolerance && Qlt_b sq (tolerance * tolerance).

(** A one-dimensional array used where numpy expects three coordinates:
    three entries, or one entry that broadcasts. *)
Definition as_vec3 (a : list Q) : result vec3 :=
  match a with
  | [x; y; z] => Ok (x, y, z)
  | [x] => Ok (x, x, x)
  | _ => Raise ValueError
  end.

(** *** Data *)

(** [class InputsCompactPhases(TypedDict)] *)
Record InputsCompactPhases : Type := mkInputs {
  a0 : Q;
  element : string;
  scale_factor : Q
}.

(** The geometric template of one octahedron type, an object of
    [compact_phases_library] (not part of the sources): [atom] lists the
    rows of [atom.T], [gaos] the rows of [gaos[:,:,id_tetra]] for each
    [id_tetra], [removeatom] the rows of [removeatom.T] and [link] the
    entries of [link.tolist()]. *)
Record Octa : Type := mkOcta {
  atom : list vec3;
  gaos : list (list vec3);
  removeatom : list vec3;
  link : list vec3
}.

(** A value stored in a center record: an array or a string. *)
Inductive value : Type :=
| VArr (a : list Q)
| VStr (s : string).

(** [class C15Center(TypedDict)]; while the file is parsed a record may
    hold only one of its two keys. *)
Definition C15Center : Type := dict string value.

Definition get_center (c : C15Center) : result (list Q) :=
  v <- lookup String.eqb "center"%string c ;;
  match v with VArr a => Ok a | VStr _ => Raise TypeError end.

Definition get_type (c : C15Center) : result string :=
  v <- lookup String.eqb "type"%string c ;;
  match v with VStr s => Ok s | VArr _ => Raise TypeError end.

(** [{'center': center, 'type': type}] *)
Definition new_center (center : list Q) (type : string) : C15Center :=
  [("center"%string, VArr center); ("type"%string, VStr type)].

(** An [ase.Atom] and an [ase.Atoms], seen through symbols and positions. *)
Record Atom : Type := mkAtom { symbol : string; position : vec3 }.
Definition Atoms : Type := list Atom.

(** [self.explorated_dict]; [ex_link] is [None] when the Python value is
    [None]. *)
Record Explorated : Type := mkExplorated {
  ex_center : list Q;
  ex_type : string;
  ex_link : option (list vec3)
}.

(** The attributes of a [C15Builder] that the methods below read or set. *)
Record C15Builder : Type := mkBuilder {
  dict_param : InputsCompactPhases;
  centerC15 : dict nat C15Center;
  size : option Z;
  cubic_supercell_unit : option Atoms;
  explorated_dict : option Explorated
}.

Definition set_centerC15 (self : C15Builder) (d : dict nat C15Center)
  : C15Builder :=
  mkBuilder (dict_param self) d (size self) (cubic_supercell_unit self)
            (explorated_dict self).

Definition set_supercell (self : C15Builder) (cell : Atoms) (sz : Z)
  : C15Builder :=
  mkBuilder (dict_param self) (centerC15 self) (Some sz) (Some cell)
            (explorated_dict self).

Definition set_explorated (self : C15Builder) (e : Explorated) : C15Builder :=
  mkBuilder (dict_param self) (centerC15 self) (size self)
            (cubic_supercell_unit self) (Some e).

(** [C15Builder(dict_param)] when the input path does not exist. *)
Definition new_builder (dict_param : InputsCompactPhases) : C15Builder :=
  mkBuilder dict_param [] None None None.

(** Methods that update [self]: the outcome and the new state, which is
    kept when the method raises. *)
Definition M (A : Type) : Type := C15Builder -> result A * C15Builder.

Definition ret {A : Type} (a : A) : M A := fun self => (Ok a, self).

Definition bindM {A B : Type} (c : M A) (k : A -> M B) : M B :=
  fun self =>
    match c self with
    | (Ok a, self') => k a self'
    | (Raise e, self') => (Raise e, self')
    end.

Definition lift {A : Type} (r : result A) : M A := fun self => (r, self).

Definition get : M C15Builder := fun self => (Ok self, self).

Definition put (self' : C15Builder) : M unit := fun _ => (Ok tt, self').

Notation "x <~ c ;; k" := (bindM c (fun x => k))
  (at level 61, c at next level, right associativity).

(** [for x in l: body(x)] for a body that updates [self]. *)
Fixpoint forM (l : list nat) (body : nat -> M unit) : M unit :=
  match l with
  | [] => ret tt
  | x :: t => _ <~ body x ;; forM t body
  end.

(** *** Reading the input file *)

(** A child of the root of the input file, as [InputsParser] reads it: the
    children of a [Centers] element carry integers ([int(el)] of each word
    of the text), those of a [Type] element carry a string. *)
Inductive xml_param : Type :=
| XCenters (children : list (list Z))
| XType (children : list string)
| XOther.

(** [if not id in self.centerC15.keys(): self.centerC15[id] = {}] followed
    by [self.centerC15[id][key] = v]. *)
Definition set_entry (id : nat) (key : string) (v : value)
           (d : dict nat C15Center) : dict nat C15Center :=
  let record := match dict_get Nat.eqb id d with
                | Some r => r
                | None => []
                end in
  dict_set Nat.eqb id (dict_set String.eqb key v record) d.

(** [enumerate(l)] *)
Definition enumerate {A : Type} (l : list A) : list (nat * A) :=
  combine (seq 0 (length l)) l.

(** The loop of [InputsParser] over the children of the root. *)
Definition parse_param (d : dict nat C15Center) (xml_param : xml_param)
  : dict nat C15Center :=
  match xml_param with
  | XCenters children =>
      fold_left (fun d '(id_cent, cent) =>
                   set_entry id_cent "center" (VArr (map inject_Z cent)) d)
                (enumerate children) d
  | XType children =>
      fold_left (fun d '(id_type, type) =>
                   set_entry id_type "type" (VStr type) d)
                (enumerate children) d
  | XOther => d
  end.

Definition parse_loop (root : list xml_param) (d : dict nat C15Center)
  : dict nat C15Center :=
  fold_left parse_param root d.

(** [str(key)] in the f-string of the error message. *)
Definition str (key : nat) : string :=
  DecimalString.NilEmpty.string_of_uint (Nat.to_uint key).

Definition keys_eqb (l1 l2 : list string) : bool :=
  if list_eq_dec string_dec l1 l2 then true else false.

(** The loop of [check_out_parser] over [self.centerC15.keys()]. *)
Fixpoint check_loop (keys : list nat) (d : dict nat C15Center)
  : result unit :=
  match keys with
  | [] => Ok tt
  | key :: rest =>
      record <- lookup Nat.eqb key d ;;
      if existsb (keys_eqb (dict_keys record))
                 [["type"; "center"]; ["center"; "type"]]%string
      then check_loop rest d
      else Raise (TimeoutError ("Missing type or center for " ++ str key))
  end.

Definition check_out_parser : M unit :=
  fun self =>
    (check_loop (dict_keys (centerC15 self)) (centerC15 self), self).

(** [InputsParser], on the parsed content [root] of [self.path_inputs]. *)
Definition InputsParser (root : list xml_param) : M unit :=
  self <~ get ;;
  _ <~ put (set_centerC15 self (parse_loop root (centerC15 self))) ;;
  check_out_parser.

(** *** The supercell *)

Section Builder.

(** [self.octahedron.typeOcta], the table of templates of
    [MetaOctahedron()], and [SolidAse(size_list, element, 1.0)
    .structure('BCC')]: both come from modules outside the sources. *)
Variable typeOcta : dict string Octa.
Variable SolidAse_BCC : list Z -> string -> Atoms.

(** [np.ceil] *)
Definition np_ceil (x : Q) : Q := inject_Z (Qceiling x).

(** [x / y] on floats; a zero divisor ends in an exception (Python raises
    [ZeroDivisionError]; on numpy scalars the quotient is [inf] or [nan]
    and the [int(...)] applied to it raises). *)
Definition divide (x y : Q) : result Q :=
  if Qeq_bool y 0 then Raise ZeroDivisionError else Ok (x / y).

Definition compute_cell_size (self : C15Builder) : result (list Z) :=
  center_coordinate <- mapM (fun kv => get_center (snd kv)) (centerC15 self) ;;
  m <- amax (concat center_coordinate) ;;
  let size := scale_factor (dict_param self) * m in
  Ok (repeat (py_int size) 3).

Definition compute_cell_size_draft (self : C15Builder) (size : Q)
  : result (list Z) :=
  let rbox := size * scale_factor (dict_param self) in
  q <- divide rbox (a0 (dict_param self)) ;;
  Ok (repeat (py_int (np_ceil q)) 3).

Definition build_cubic_supercell (self : C15Builder) (draft : bool) (size : Q)
  : result (Atoms * Z) :=
  size_list <- (if draft then compute_cell_size_draft self size
                else compute_cell_size self) ;;
  Ok (SolidAse_BCC size_list (element (dict_param self)), nth 0 size_list 0%Z).

Definition compute_number_perfect_C15 (minimal_size size : Q) : result Z :=
  q <- divide size minimal_size ;;
  Ok (py_int ((np_ceil q + 1) ^ 2)).

(** *** Cluster centers *)

(** The double nearest to the square root of three, [np.sqrt(3)]. *)
Definition np_sqrt3 : Q := 3900231685776981 # 2251799813685248.

(** [random.shuffle(x)] shuffles the list [x] in place and returns [None];
    this is the value of the call. *)
Definition random_shuffle {A : Type} (x : list A) : option (list A) := None.

(** [random.sample(population)]: the required argument [k] is missing,
    the call raises [TypeError]. *)
Definition random_sample (population : list Z) : result nat := Raise TypeError.

(** [len(x)]; [None] has no length. *)
Definition py_len {A : Type} (x : option (list A)) : result nat :=
  match x with
  | Some l => Ok (length l)
  | None => Raise TypeError
  end.

(** [i % n] on non-negative integers. *)
Definition py_mod (i n : nat) : result nat :=
  if (n =? 0)%nat then Raise ZeroDivisionError else Ok (i mod n)%nat.

(** [x[i]] on a value that may be [None]. *)
Definition py_index {A : Type} (x : option (list A)) (i : nat) : result A :=
  match x with
  | Some l => match nth_error l i with
              | Some a => Ok a
              | None => Raise IndexError
              end
  | None => Raise TypeError
  end.

(** [change_type = {'type1':'type2', 'type2':'type1'}] *)
Definition change_type : dict string string :=
  [("type1", "type2"); ("type2", "type1")]%string.

(** [range(lo, hi)] on integers. *)
Definition range_between (lo hi : Z) : list Z :=
  map (fun k => (lo + Z.of_nat k)%Z) (seq 0 (Z.to_nat (hi - lo))).

Definition get_explorated : M Explorated :=
  fun self =>
    match explorated_dict self with
    | Some e => (Ok e, self)
    | None => (Raise KeyError, self)
    end.

(** Body of the loop [for idx_C15 in range(1,Nb_C15)]. *)
Definition agnostic_step (center_coordinates : list Q) (idx_C15 : nat)
  : M unit :=
  ex <~ get_explorated ;;
  n <~ lift (py_len (ex_link ex)) ;;
  r <~ lift (py_mod idx_C15 n) ;;
  _ <~ (if (r =? 0)%nat then
          new_idx_center <~
            lift (random_sample
                    (range_between (Z.of_nat idx_C15 - 1 - Z.of_nat n)
                                   (Z.of_nat idx_C15 - 1))) ;;
          self <~ get ;;
          record <~ lift (lookup Nat.eqb new_idx_center (centerC15 self)) ;;
          new_center <~ lift (get_center record) ;;
          old_type <~ lift (get_type record) ;;
          new_type_center <~ lift (lookup String.eqb old_type change_type) ;;
          octa <~ lift (lookup String.eqb new_type_center typeOcta) ;;
          put (set_explorated self
                 (mkExplorated new_center new_type_center
                               (random_shuffle (link octa))))
        else ret tt) ;;
  ex <~ get_explorated ;;
  n <~ lift (py_len (ex_link ex)) ;;
  idx_direction <~ lift (py_mod idx_C15 n) ;;
  offset <~ lift (py_index (ex_link ex) idx_direction) ;;
  center <~ lift (as_vec3 center_coordinates) ;;
  self <~ get ;;
  put (set_centerC15 self
         (dict_set Nat.eqb idx_C15
                   (new_center (to_list (vadd center offset)) (ex_type ex))
                   (centerC15 self))).

(** [np.array([int(np.ceil(0.5*self.size)) for _ in range(3)])] *)
Definition centroid (size : Z) : list Q :=
  repeat (inject_Z (py_int (np_ceil ((1 # 2) * inject_Z size)))) 3.

Definition AgnosticPerfectC15Cluster (cluster_size : Q) : M unit :=
  self <~ get ;;
  let minimal_cluster_size := np_sqrt3 * a0 (dict_param self) in
  if Qlt_b cluster_size minimal_cluster_size then
    cell <~ lift (build_cubic_supercell self true minimal_cluster_size) ;;
    let self := set_supercell self (fst cell) (snd cell) in
    let center_coordinates := centroid (snd cell) in
    put (set_centerC15 self
           (dict_set Nat.eqb 0%nat (new_center center_coordinates "type1")
                     (centerC15 self)))
  else
    cell <~ lift (build_cubic_supercell self true cluster_size) ;;
    let self := set_supercell self (fst cell) (snd cell) in
    _ <~ put self ;;
    Nb_C15 <~ lift (compute_number_perfect_C15 minimal_cluster_size
                                               cluster_size) ;;
    let center_coordinates := centroid (snd cell) in
    octa <~ lift (lookup String.eqb "type1"%string typeOcta) ;;
    let self := set_explorated self
                  (mkExplorated center_coordinates "type2"
                                (random_shuffle (link octa))) in
    let self := set_centerC15 self
                  (dict_set Nat.eqb 0%nat
                            (new_center center_coordinates "type1")
                            (centerC15 self)) in
    _ <~ put self ;;
    forM (seq 1 (Z.to_nat Nb_C15 - 1)) (agnostic_step center_coordinates).

(** *** Coordinates of the cluster *)

(** Default value of the [tolerance] arguments, [1e-3]. *)
Definition default_tolerance : Q := 1 # 1000.

(** Body of the innermost loop of [build_C15_system]: the state is
    [(list_position_C15, C15_atoms)].  [np.amin] is taken here on the
    squares of the distances, the root being increasing. *)
Definition site_step (element : string) (tolerance : Q)
           (st : list vec3 * Atoms) (new_C15_position : vec3)
  : result (list vec3 * Atoms) :=
  let '(list_position_C15, C15_atoms) := st in
  if (0 <? length list_position_C15)%nat then
    m <- amin (map (fun q => sqnorm (vsub q new_C15_position))
                   list_position_C15) ;;
    if norm_lt m tolerance then Ok st
    else Ok (list_position_C15 ++ [new_C15_position],
             C15_atoms ++ [mkAtom element new_C15_position])
  else Ok (list_position_C15 ++ [new_C15_position],
           C15_atoms ++ [mkAtom element new_C15_position]).

(** Loop over the gaos sites of one tetrahedron. *)
Definition gaos_loop (element : string) (tolerance : Q)
           (center_coordinate : list Q) (tetra : vec3)
           (sites : list vec3) (st : list vec3 * Atoms)
  : result (list vec3 * Atoms) :=
  foldM (fun st gaos_tetra =>
           center <- as_vec3 center_coordinate ;;
           site_step element tolerance st
                     (vadd (vadd center tetra) (vscale (1 # 2) gaos_tetra)))
        sites st.

(** Loop over the tetrahedra of the template of one center. *)
Definition tetra_loop (element : string) (tolerance : Q)
           (center_coordinate : list Q) (octa : Octa)
           (st : list vec3 * Atoms) : result (list vec3 * Atoms) :=
  foldM (fun st '(id_tetra, tetra) =>
           match nth_error (gaos octa) id_tetra with
           | None => Raise IndexError
           | Some sites =>
               gaos_loop element tolerance center_coordinate tetra sites st
           end)
        (enumerate (atom octa)) st.

(** Body of the loop over [self.centerC15.items()]. *)
Definition center_step (element : string) (tolerance : Q)
           (st : list vec3 * Atoms) (item : nat * C15Center)
  : result (list vec3 * Atoms) :=
  let C15_center := snd item in
  center_coordinate <- get_center C15_center ;;
  type <- get_type C15_center ;;
  octa <- lookup String.eqb type typeOcta ;;
  tetra_loop element tolerance center_coordinate octa st.

Definition build_C15_system (self : C15Builder) (tolerance : Q)
  : result Atoms :=
  st <- foldM (center_step (element (dict_param self)) tolerance)
              (centerC15 self) ([], []) ;;
  Ok (snd st).

(** [self.octahedron.typeOcta[val['type']].removeatom.T + val['center']]:
    the center has three coordinates, so the rows of [removeatom.T] are
    the offsets and the sum adds the center to each of them. *)
Definition removal_block (val : C15Center) : result (list vec3) :=
  type <- get_type val ;;
  octa <- lookup String.eqb type typeOcta ;;
  center_coordinate <- get_center val ;;
  center <- as_vec3 center_coordinate ;;
  Ok (map (fun offset => vadd offset center) (removeatom octa)).

(** [np.array(blocks).reshape((3, len(self.centerC15)*6)).T]: the array of
    shape [(n, 6, 3)] is read in row-major order as three rows of [6 n]
    numbers, and row [j] of the result takes entry [j] of each of them.
    The reshape needs [18 n] numbers. *)
Definition reshape_T (blocks : list (list vec3)) : result (list vec3) :=
  if forallb (fun b => (length b =? 6)%nat) blocks then
    let flat := concat (map (fun b => concat (map to_list b)) blocks) in
    let m := (length blocks * 6)%nat in
    Ok (map (fun j => (nth j flat 0, nth (m + j) flat 0,
                       nth (2 * m + j) flat 0))
            (seq 0 m))
  else Raise ValueError.

Definition ToRemoveCoordinate (self : C15Builder) : result (list vec3) :=
  blocks <- mapM (fun kv => removal_block (snd kv)) (centerC15 self) ;;
  reshape_T blocks.

(** The loop of [remove_atoms_in_system] over
    [enumerate(system.positions)], from index [idx]. *)
Fixpoint removal_loop (coords : list vec3) (tolerance : Q) (idx : nat)
         (system : Atoms) (list_idx2remove : list nat) : result (list nat) :=
  match system with
  | [] => Ok list_idx2remove
  | a :: rest =>
      m <- amin (map (fun c => sqnorm (vsub c (position a))) coords) ;;
      removal_loop coords tolerance (S idx) rest
                   (if norm_lt m tolerance then list_idx2remove ++ [idx]
                    else list_idx2remove)
  end.

(** [del new_system[list_idx2remove]] *)
Definition delete_indices (system : Atoms) (idx : list nat) : Atoms :=
  map snd (filter (fun p => negb (existsb (Nat.eqb (fst p)) idx))
                  (enumerate system)).

Definition remove_atoms_in_system (self : C15Builder) (system : Atoms)
           (tolerance : Q) : result Atoms :=
  coords <- ToRemoveCoordinate self ;;
  list_idx2remove <- removal_loop coords tolerance 0 system [] ;;
  Ok (delete_indices system list_idx2remove).

(** The part of [BuildC15Cluster] before the rescaling: the merged system
    [self.cubic_supercell_unit + self.extra_atom] and [Natoms_bulk]. *)
Definition merged_system (self : C15Builder) : result (Atoms * nat) :=
  C15_atoms <- build_C15_system self default_tolerance ;;
  extra_atom <- remove_atoms_in_system self C15_atoms default_tolerance ;;
  match cubic_supercell_unit self with
  | None => Raise TypeError
  | Some bulk =>
      let Natoms_bulk := length bulk in
      bulk' <- remove_atoms_in_system self bulk default_tolerance ;;
      Ok (bulk' ++ extra_atom, Natoms_bulk)
  end.

End Builder.

End C15.

(** ** The rescaling of [BuildC15Cluster], over the real numbers *)

Module Rescale.
Import Reals.
Local Open Scope R_scope.

(** The exponent written in the source, [0.3333]. *)
Definition exponent : R := 3333 / 10000.

(** [np.power(len(self.C15_system)/Natoms_bulk, 0.3333)] *)
Definition lenght_scale (n_system n_bulk : nat) : R :=
  Rpower (INR n_system / INR n_bulk) exponent.

(** The matrix given to [set_cell]:
    [self.cubic_supercell_unit.cell[:]*lenght_scale*a0]. *)
Definition rescaled_cell (cell : list (list R)) (n_system n_bulk : nat)
           (a0 : R) : list (list R) :=
  map (map (fun x => x * lenght_scale n_system n_bulk * a0)) cell.

(** The factor the cell would take with the cube root of the ratio. *)
Definition cube_root_scale (n_system n_bulk : nat) : R :=
  Rpower (INR n_system / INR n_bulk) (1 / 3).

End Rescale.

(** ** [compact_phases_builder.py]: the constructors *)

Module Construction.
Import Num C15.

Section WithLattice.
Variable SolidAse_BCC : list Z -> string -> Atoms.

(** [C15Builder.__init__]: [path_inputs] is [None] when the path does not
    exist, and the parsed content of the file when it does. *)
Definition C15Builder_init (dict_param : InputsCompactPhases)
           (path_inputs : option (list xml_param)) : result C15Builder :=
  let self := new_builder dict_param in
  match path_inputs with
  | None => Ok self
  | Some root =>
      match InputsParser root self with
      | (Raise e, _) => Raise e
      | (Ok _, self) =>
          r <- build_cubic_supercell SolidAse_BCC self false 1 ;;
          Ok (set_supercell self (fst r) (snd r))
      end
  end.

End WithLattice.

(** The outcome of [A15Builder.__init__]: the class defines [__init__],
    [InputsParser] and [check_out_parser] only, so that a call of another
    method on [self] ends in an [AttributeError] for its name. *)
Inductive A15_outcome : Type :=
| A15_Ok (self : C15Builder)
| A15_Raise (e : exn)
| A15_AttributeError (name : string).

(** [A15Builder.__init__]; its [InputsParser] and [check_out_parser] are
    the ones of [C15Builder], word for word. *)
Definition A15Builder_init (dict_param : InputsCompactPhases)
           (path_inputs : option (list xml_param)) : A15_outcome :=
  let self := new_builder dict_param in
  match path_inputs with
  | None => A15_Ok self
  | Some root =>
      match InputsParser root self with
      | (Raise e, _) => A15_Raise e
      | (Ok _, _) => A15_AttributeError "build_cubic_supercell"
      end
  end.

End Construction.

(** ** [library_mcd.py]: [MCDAnalysisObject] *)

Module MCD.
Import Num C15.

(** An [ase.Atoms] of the database, seen through the chemical symbol and
    the row of the ['milady-descriptors'] array of each of its atoms. *)
Definition Atoms : Type := list (string * list Q).

Definition get_chemical_symbols (ats : Atoms) : list string := map fst ats.

(** [ats.get_array('milady-descriptors')] *)
Definition get_array (ats : Atoms) : Histogram.Atoms := map snd ats.

(** [ats.symbols.species()], a set: the symbols without repetition, in an
    order that Python does not fix. *)
Definition species (ats : Atoms) : list string :=
  nodup string_dec (get_chemical_symbols ats).

(** [ats[mask]] for a list of booleans. *)
Definition getitem (ats : Atoms) (mask : list bool) : Atoms :=
  map snd (filter fst (combine mask ats)).

(** [fill_dictionnary_fast(ats, dic)]: every key of [dic] receives one more
    [Atoms], the atoms of [ats] that carry this symbol. *)
Definition fill_dictionnary_fast (ats : Atoms) (dic : dict string (list Atoms))
  : dict string (list Atoms) :=
  let symbols := get_chemical_symbols ats in
  map (fun '(sym, l) =>
         let mask_sym := map (fun b => String.eqb b sym) symbols in
         let ats_sym := getitem ats mask_sym in
         (sym, l ++ [ats_sym]))
      dic.

(** [key[0:6]] *)
Definition key_dic (key : string) : string := substring 0 6 key.

(** Body of the loop of [__init__] over [dbmodel.model_init_dic.keys()];
    the entry is the key and [dbmodel.model_init_dic[key]['atoms']]. *)
Definition init_step (dic_class : dict string (dict string (list Atoms)))
           (entry : string * Atoms)
  : dict string (dict string (list Atoms)) :=
  let '(key, atoms) := entry in
  match dict_get String.eqb (key_dic key) dic_class with
  | Some dic =>
      dict_set String.eqb (key_dic key)
               (fill_dictionnary_fast atoms dic) dic_class
  | None =>
      let dic_species := map (fun sp => (sp, [])) (species atoms) in
      dict_set String.eqb (key_dic key)
               (fill_dictionnary_fast atoms dic_species) dic_class
  end.

(** [MCDAnalysisObject.__init__(dbmodel)]: the value of [self.dic_class]. *)
Definition init (model_init_dic : dict string Atoms)
  : dict string (dict string (list Atoms)) :=
  fold_left init_step model_init_dic [].

Definition _get_all_atoms_species
           (dic_class : dict string (dict string (list Atoms)))
           (species : string) : result (list Atoms) :=
  foldM (fun list_atoms_species sub_class =>
           l <- lookup String.eqb species (snd sub_class) ;;
           Ok (list_atoms_species ++ l))
        dic_class [].

(** The first statements of [fit_mcd_envelop] and of [fit_gmm_envelop]:
    the descriptors handed to the fit. *)
Definition array_desc_selected (shuffle : nat -> list nat -> list nat)
           (dic_class : dict string (dict string (list Atoms)))
           (species : string) (nb_bin : Z) (nb_selected : nat)
           (selection_bin : list nat) : result (list (list Q)) :=
  list_atom_species <- _get_all_atoms_species dic_class species ;;
  histogram_norm_species <-
    Histogram.init shuffle (map get_array list_atom_species) (Some nb_bin) ;;
  r <- Histogram.histogram_sample histogram_norm_species nb_selected
                                  selection_bin ;;
  Ok (snd r).

End MCD.

(** * Properties *)

(** ** Facts on the numeric helpers *)

Module NumFacts.
Import Num.
Local Open Scope Q_scope.

Lemma of_nat_add (a b : nat) : of_nat (a + b) == of_nat a + of_nat b.
Proof.
  unfold of_nat. rewrite Nat2Z.inj_add, inject_Z_plus. reflexivity.
Qed.

Lemma of_nat_nonneg (n : nat) : 0 <= of_nat n.
Proof.
  unfold of_nat, Qle; simpl. lia.
Qed.

Lemma of_nat_pos (n : nat) : (0 < n)%nat -> 0 < of_nat n.
Proof.
  intros H. unfold of_nat, Qlt; simpl. lia.
Qed.

Lemma of_nat_le (a b : nat) : (a <= b)%nat -> of_nat a <= of_nat b.
Proof.
  intros H. unfold of_nat, Qle; simpl. lia.
Qed.

Lemma py_int_inject_Z (z : Z) : py_int (inject_Z z) = z.
Proof.
  unfold py_int; simpl. apply Z.quot_1_r.
Qed.

Lemma amin_spec (l : list Q) (m : Q) :
  amin l = Ok m -> In m l /\ forall x, In x l -> m <= x.
Proof.
  revert m. induction l as [|x t IH]; intros m H; [discriminate|].
  destruct t as [|y t'].
  - injection H as <-. split; [now left|].
    intros z [<-|[]]. apply Qle_refl.
  - change (amin (x :: y :: t'))
      with (m0 <- amin (y :: t') ;; Ok (if Qle_bool x m0 then x else m0)) in H.
    destruct (amin (y :: t')) as [m0|e] eqn:E; [|discriminate].
    destruct (IH m0 eq_refl) as [Hin Hle].
    simpl in H. injection H as <-.
    destruct (Qle_bool x m0) eqn:C.
    + apply Qle_bool_iff in C. split; [now left|].
      intros z [<-|Hz]; [apply Qle_refl|].
      apply Qle_trans with m0; auto.
    + split; [now right|].
      intros z [Hz|Hz]; [subst z|auto].
      destruct (Qlt_le_dec m0 x) as [Hlt|Hge].
      * apply Qlt_le_weak; exact Hlt.
      * apply Qle_bool_iff in Hge. congruence.
Qed.

Lemma amax_spec (l : list Q) (m : Q) :
  amax l = Ok m -> In m l /\ forall x, In x l -> x <= m.
Proof.
  revert m. induction l as [|x t IH]; intros m H; [discriminate|].
  destruct t as [|y t'].
  - injection H as <-. split; [now left|].
    intros z [<-|[]]. apply Qle_refl.
  - change (amax (x :: y :: t'))
      with (m0 <- amax (y :: t') ;; Ok (if Qle_bool m0 x then x else m0)) in H.
    destruct (amax (y :: t')) as [m0|e] eqn:E; [|discriminate].
    destruct (IH m0 eq_refl) as [Hin Hle].
    simpl in H. injection H as <-.
    destruct (Qle_bool m0 x) eqn:C.
    + apply Qle_bool_iff in C. split; [now left|].
      intros z [<-|Hz]; [apply Qle_refl|].
      apply Qle_trans with m0; auto.
    + split; [now right|].
      intros z [Hz|Hz]; [subst z|auto].
      destruct (Qlt_le_dec x m0) as [Hlt|Hge].
      * apply Qlt_le_weak; exact Hlt.
      * apply Qle_bool_iff in Hge. congruence.
Qed.

Lemma amin_defined (l : list Q) : l <> [] -> exists m, amin l = Ok m.
Proof.
  induction l as [|x t IH]; intros H; [congruence|].
  destruct t as [|y t'].
  - now exists x.
  - destruct IH as [m0 E]; [discriminate|].
    change (amin (x :: y :: t'))
      with (m0 <- amin (y :: t') ;; Ok (if Qle_bool x m0 then x else m0)).
    rewrite E. simpl. eauto.
Qed.


Lemma amin_nonempty (l : list Q) (m : Q) : amin l = Ok m -> l <> [].
Proof.
  destruct l; [discriminate|congruence].
Qed.

Lemma fold_plus_shift (l : list Q) (a : Q) :
  fold_left Qplus l a == a + fold_left Qplus l 0.
Proof.
  revert a. induction l as [|x t IH]; intros a; simpl.
  - lra.
  - rewrite (IH (a + x)), (IH (0 + x)). lra.
Qed.

Lemma qsum_cons (x : Q) (l : list Q) : qsum (x :: l) == x + qsum l.
Proof.
  unfold qsum; simpl. rewrite fold_plus_shift. lra.
Qed.

Lemma qsum_map_add (c : Q) (l : list Q) :
  qsum (map (fun x => x + c) l) == qsum l + of_nat (length l) * c.
Proof.
  induction l as [|x t IH].
  - unfold qsum, of_nat; simpl. ring.
  - change (map (fun x0 => x0 + c) (x :: t))
      with ((x + c) :: map (fun x0 => x0 + c) t).
    rewrite !qsum_cons, IH.
    change (length (x :: t)) with (1 + length t)%nat.
    rewrite of_nat_add. change (of_nat 1) with 1. lra.
Qed.

End NumFacts.

(** ** The histogram *)

Module HistogramFacts.
Import Num NumFacts Histogram.
Local Open Scope Q_scope.

(** Bounds of the bin of key [k]. *)
Definition lower (mn inc : Q) (k : nat) : Q := mn + of_nat k * inc.
Definition upper (mn inc : Q) (k : nat) : Q := mn + of_nat (k + 1) * inc.

(** The bin of key [k] as [__init__] creates it. *)
Definition empty_bin (mn inc : Q) (k : nat) : Bin :=
  mkBin (lower mn inc k) (upper mn inc k) [] [] None.

(** Number of norms selected by the bin of key [k], over the pool size. *)
Definition raw_density (norms : list Q) (n : nat) (mn inc : Q) (k : nat) : Q :=
  of_nat (length (select (empty_bin mn inc k) norms norms)) / of_nat n.

Section Pipeline.
Variable shuffle : nat -> list nat -> list nat.
Variables (norms : list Q) (ids : list nat) (n : nat) (mn inc : Q).

(** The bin of key [k] after the second loop of [fill_histogram]. *)
Definition shuffled_bin (k : nat) : Bin :=
  mkBin (lower mn inc k) (upper mn inc k)
        (select (empty_bin mn inc k) norms norms)
        (shuffle k (select (empty_bin mn inc k) norms ids))
        (Some (raw_density norms n mn inc k)).

(** The bin of key [k] after [fill_histogram]. *)
Definition final_bin (miss : Q) (k : nat) : Bin :=
  mkBin (lower mn inc k) (upper mn inc k)
        (select (empty_bin mn inc k) norms norms)
        (shuffle k (select (empty_bin mn inc k) norms ids))
        (Some (raw_density norms n mn inc k + miss)).

Lemma density_loop_closed (i m : nat) (s : Q) :
  n <> 0%nat ->
  density_loop shuffle n i
    (map (fill_bin norms ids) (map (empty_bin mn inc) (seq i m))) s
  = Ok (map shuffled_bin (seq i m),
        fold_left Qplus (map (raw_density norms n mn inc) (seq i m)) s).
Proof.
  intros Hn. revert i s. induction m as [|m IH]; intros i s.
  - reflexivity.
  - simpl. destruct (Nat.eqb_spec n 0) as [E|_]; [contradiction|].
    rewrite IH. reflexivity.
Qed.

Lemma correction_loop_closed (miss : Q) (l : list nat) :
  correction_loop miss (map shuffled_bin l) = Ok (map (final_bin miss) l).
Proof.
  induction l as [|k l IH]; [reflexivity|].
  simpl. rewrite IH. reflexivity.
Qed.

End Pipeline.

(** What a successful [__init__] has computed. *)
Record built (shuffle : nat -> list nat -> list nat)
       (list_atoms : list Atoms) (nb : Z) (h : NormDescriptorHistogram)
  : Prop := mkBuilt {
  b_descr : list_atoms <> [] /\ descriptors h = concat list_atoms;
  b_nonempty : descriptors h <> [];
  b_nb : nb_bin h = nb /\ nb <> 0%Z;
  b_ids : id_list h = seq 0 (length (descriptors h));
  b_norms : array_norm_square h = map norm_square (descriptors h);
  b_min : amin (array_norm_square h) = Ok (min_dis h);
  b_max : amax (array_norm_square h) = Ok (max_dis h);
  b_bins :
    let inc := (max_dis h - min_dis h) / inject_Z nb in
    let n := length (descriptors h) in
    let raw := raw_density (array_norm_square h) n (min_dis h) inc in
    let miss := (1 - fold_left Qplus (map raw (range nb)) 0) / inject_Z nb in
    bin h = map (final_bin shuffle (array_norm_square h) (id_list h) n
                           (min_dis h) inc miss) (range nb)
}.

Definition chosen_nb_bin (list_atoms : list Atoms) (nb_bin : option Z) : Z :=
  match nb_bin with
  | None => default_nb_bin (length list_atoms)
  | Some n => n
  end.

Lemma concatenate_Ok (list_atoms : list Atoms) (d : list (list Q)) :
  concatenate list_atoms = Ok d -> list_atoms <> [] /\ d = concat list_atoms.
Proof.
  destruct list_atoms; [discriminate|].
  intros H. injection H as <-. split; [discriminate|reflexivity].
Qed.

Lemma init_built shuffle list_atoms nbo h :
  init shuffle list_atoms nbo = Ok h ->
  built shuffle list_atoms (chosen_nb_bin list_atoms nbo) h.
Proof.
  unfold init. fold (chosen_nb_bin list_atoms nbo).
  set (nb := chosen_nb_bin list_atoms nbo).
  destruct (concatenate list_atoms) as [descr|] eqn:Ec; [|discriminate].
  apply concatenate_Ok in Ec. destruct Ec as [Hla Hdescr].
  cbn [bind].
  destruct (amin (map norm_square descr)) as [mn|] eqn:Emin; [|discriminate].
  destruct (amax (map norm_square descr)) as [mx|] eqn:Emax; [|discriminate].
  cbn [bind]. intros H.
  assert (Hd : descr <> []).
  { intros E. rewrite E in Emin. discriminate. }
  assert (Hn : length descr <> 0%nat).
  { destruct descr; [congruence|discriminate]. }
  unfold np_true_divide, fill_histogram in H.
  cbn [bin descriptors nb_bin id_list array_norm_square min_dis max_dis] in H.
  destruct (Z.eqb_spec nb 0) as [E0|N0].
  - simpl in H. discriminate.
  - unfold range in H.
    set (inc := (mx - mn) / inject_Z nb) in *.
    change (fun k : nat => mkBin (mn + of_nat k * inc)
                                 (mn + of_nat (k + 1) * inc) [] [] None)
      with (empty_bin mn inc) in H.
    rewrite density_loop_closed in H by exact Hn.
    cbn [bind fst snd] in H.
    rewrite correction_loop_closed in H. cbn [bind] in H.
    injection H as <-.
    constructor; cbn; auto.
Qed.

(** *** Selection by a mask *)

Lemma select_cons {A : Type} (b : Bin) (v : Q) (norms : list Q) (x : A)
      (xs : list A) :
  select b (v :: norms) (x :: xs)
  = if mask_bin b v then x :: select b norms xs else select b norms xs.
Proof.
  unfold select. simpl. destruct (mask_bin b v); reflexivity.
Qed.

Lemma select_self (b : Bin) (norms : list Q) :
  select b norms norms = filter (mask_bin b) norms.
Proof.
  induction norms as [|v t IH]; [reflexivity|].
  rewrite select_cons. simpl. rewrite IH. reflexivity.
Qed.

Lemma select_length {A : Type} (b : Bin) (norms : list Q) (xs : list A) :
  length xs = length norms ->
  length (select b norms xs) = length (filter (mask_bin b) norms).
Proof.
  revert xs. induction norms as [|v t IH]; intros [|x xs] H;
    try discriminate; [reflexivity|].
  rewrite select_cons. simpl.
  destruct (mask_bin b v); simpl; rewrite IH; auto.
Qed.

Lemma select_incl {A : Type} (b : Bin) (norms : list Q) (xs : list A) (x : A) :
  In x (select b norms xs) -> In x xs.
Proof.
  unfold select. intros H. apply in_map_iff in H.
  destruct H as [[v y] [E H]]. simpl in E. subst y.
  apply filter_In in H. destruct H as [H _].
  eapply in_combine_r; eauto.
Qed.

Lemma select_NoDup {A : Type} (b : Bin) (norms : list Q) (xs : list A) :
  NoDup xs -> NoDup (select b norms xs).
Proof.
  revert xs. induction norms as [|v t IH]; intros [|x xs] H;
    try (unfold select; simpl; constructor).
  rewrite select_cons. inversion H as [|? ? Hx Hxs]; subst.
  destruct (mask_bin b v); [|auto].
  constructor; [|auto].
  intros Hin. apply Hx. eapply select_incl; eauto.
Qed.

Lemma In_select_seq (b : Bin) (norms : list Q) (s i : nat) :
  In i (select b norms (seq s (length norms))) <->
  (s <= i)%nat /\
  exists v, nth_error norms (i - s) = Some v /\ mask_bin b v = true.
Proof.
  revert s. induction norms as [|v t IH]; intros s.
  - simpl. split; [intros []|].
    intros [_ [v [H _]]]. destruct (i - s)%nat; discriminate.
  - change (seq s (length (v :: t))) with (s :: seq (S s) (length t)).
    rewrite select_cons.
    assert (Hrec : In i (select b t (seq (S s) (length t))) <->
                   (s < i)%nat /\
                   exists w, nth_error (v :: t) (i - s) = Some w /\
                             mask_bin b w = true).
    { rewrite IH. split.
      - intros [Hle [w [Hw Hm]]]. split; [lia|]. exists w. split; [|exact Hm].
        replace (i - s)%nat with (S (i - S s)) by lia. exact Hw.
      - intros [Hlt [w [Hw Hm]]]. split; [lia|]. exists w. split; [|exact Hm].
        replace (i - s)%nat with (S (i - S s)) in Hw by lia. exact Hw. }
    destruct (mask_bin b v) eqn:Hv.
    + simpl. rewrite Hrec. split.
      * intros [<-|[Hlt Hex]].
        -- split; [lia|]. exists v. rewrite Nat.sub_diag. auto.
        -- split; [lia|exact Hex].
      * intros [Hle Hex]. destruct (Nat.eq_dec s i) as [E|N]; [now left|].
        right. split; [lia|exact Hex].
    + rewrite Hrec. split.
      * intros [Hlt Hex]. split; [lia|exact Hex].
      * intros [Hle [w [Hw Hm]]].
        destruct (Nat.eq_dec s i) as [E|N].
        -- subst i. rewrite Nat.sub_diag in Hw. simpl in Hw.
           injection Hw as <-. congruence.
        -- split; [lia|]. exists w. auto.
Qed.

(** *** The intervals of the bins *)

Lemma mask_bin_iff (b : Bin) (v : Q) :
  mask_bin b v = true <-> min b < v /\ v <= max b.
Proof.
  unfold mask_bin. rewrite andb_true_iff, negb_true_iff, Qle_bool_iff.
  split; intros [H1 H2]; split; auto.
  - apply Qnot_le_lt. intros H. apply Qle_bool_iff in H. congruence.
  - destruct (Qle_bool v (min b)) eqn:E; [|reflexivity].
    apply Qle_bool_iff in E. apply Qlt_not_le in H1. contradiction.
Qed.

Lemma upper_lower (mn inc : Q) (k : nat) :
  upper mn inc k = lower mn inc (k + 1).
Proof. reflexivity. Qed.


Lemma lower_mono (mn inc : Q) (k k' : nat) :
  0 <= inc -> (k <= k')%nat -> lower mn inc k <= lower mn inc k'.
Proof.
  intros Hinc Hk. unfold lower.
  apply Qplus_le_r. apply Qmult_le_compat_r; [|exact Hinc].
  apply of_nat_le; exact Hk.
Qed.


(** Two intervals of different keys share no value. *)
Lemma interval_unique (mn inc v : Q) (k k' : nat) :
  0 <= inc ->
  lower mn inc k < v -> v <= upper mn inc k ->
  lower mn inc k' < v -> v <= upper mn inc k' ->
  k = k'.
Proof.
  intros Hinc L U L' U'.
  destruct (Nat.lt_trichotomy k k') as [H|[H|H]]; [|exact H|]; exfalso.
  - assert (lower mn inc (k + 1) <= lower mn inc k')
      by (apply lower_mono; [exact Hinc|lia]).
    rewrite upper_lower in U. lra.
  - assert (lower mn inc (k' + 1) <= lower mn inc k)
      by (apply lower_mono; [exact Hinc|lia]).
    rewrite upper_lower in U'. lra.
Qed.

(** *** Membership of the pool entries in the bins *)

(** The pool entry of id [i] is a member of the bin of key [k]. *)
Definition member (h : NormDescriptorHistogram) (i k : nat) : Prop :=
  exists b, nth_error (bin h) k = Some b /\ In i (list_id b).


Lemma nth_error_map_seq {A : Type} (f : nat -> A) (m k : nat) (a : A) :
  nth_error (map f (seq 0 m)) k = Some a <-> (k < m)%nat /\ a = f k.
Proof.
  rewrite nth_error_map. split.
  - intros H. destruct (nth_error (seq 0 m) k) as [j|] eqn:E; [|discriminate].
    assert (Hk : (k < m)%nat).
    { rewrite <- (length_seq m 0). apply nth_error_Some. congruence. }
    rewrite nth_error_seq in E.
    destruct (Nat.ltb_spec k m); [|lia].
    injection E as <-. simpl in H. injection H as <-. auto.
  - intros [Hk ->]. rewrite nth_error_seq.
    destruct (Nat.ltb_spec k m); [reflexivity|lia].
Qed.

Section Partition.
Variable shuffle : nat -> list nat -> list nat.
Hypothesis shuffle_perm : forall k l, Permutation l (shuffle k l).
Variables (list_atoms : list Atoms) (nb : Z) (h : NormDescriptorHistogram).
Hypothesis Hbuilt : built shuffle list_atoms nb h.

Let mn := min_dis h.
Let inc := (max_dis h - min_dis h) / inject_Z nb.

Lemma norms_length : length (array_norm_square h) = length (descriptors h).
Proof.
  rewrite (b_norms Hbuilt). apply length_map.
Qed.

Lemma bin_nth (k : nat) (b : Bin) :
  nth_error (bin h) k = Some b ->
  (k < Z.to_nat nb)%nat /\
  min b = lower mn inc k /\ max b = upper mn inc k /\
  list_norm b = filter (mask_bin (empty_bin mn inc k)) (array_norm_square h) /\
  list_id b = shuffle k (select (empty_bin mn inc k) (array_norm_square h)
                                (id_list h)).
Proof.
  rewrite (b_bins Hbuilt). cbv zeta. unfold range.
  intros H. apply nth_error_map_seq in H. destruct H as [Hk ->].
  split; [exact Hk|]. cbn. rewrite select_self. auto.
Qed.

Lemma bin_defined (k : nat) :
  (k < Z.to_nat nb)%nat -> exists b, nth_error (bin h) k = Some b.
Proof.
  intros Hk. rewrite (b_bins Hbuilt). cbv zeta. unfold range.
  eexists. apply nth_error_map_seq. split; [exact Hk|reflexivity].
Qed.


Lemma member_iff (i k : nat) :
  member h i k <->
  (k < Z.to_nat nb)%nat /\
  exists v, nth_error (array_norm_square h) i = Some v /\
            lower mn inc k < v /\ v <= upper mn inc k.
Proof.
  unfold member. split.
  - intros [b [Hb Hin]]. apply bin_nth in Hb.
    destruct Hb as [Hk [_ [_ [_ Hid]]]]. split; [exact Hk|].
    rewrite Hid in Hin.
    apply (Permutation_in _ (Permutation_sym (shuffle_perm k _))) in Hin.
    rewrite (b_ids Hbuilt), <- norms_length in Hin.
    apply In_select_seq in Hin. destruct Hin as [_ [v [Hv Hm]]].
    rewrite Nat.sub_0_r in Hv. exists v. split; [exact Hv|].
    apply mask_bin_iff in Hm. exact Hm.
  - intros [Hk [v [Hv Hm]]]. destruct (bin_defined Hk) as [b Hb].
    exists b. split; [exact Hb|]. apply bin_nth in Hb.
    destruct Hb as [_ [_ [_ [_ Hid]]]]. rewrite Hid.
    apply (Permutation_in _ (shuffle_perm k _)).
    rewrite (b_ids Hbuilt), <- norms_length.
    apply In_select_seq. split; [lia|]. exists v.
    rewrite Nat.sub_0_r. split; [exact Hv|].
    apply mask_bin_iff. exact Hm.
Qed.

Lemma min_le_max : min_dis h <= max_dis h.
Proof.
  destruct (amin_spec _ (b_min Hbuilt)) as [Hin _].
  destruct (amax_spec _ (b_max Hbuilt)) as [_ Hle]. auto.
Qed.

Lemma inc_nonneg : (1 <= nb)%Z -> 0 <= inc.
Proof.
  intros Hnb. unfold inc, Qdiv. apply Qmult_le_0_compat.
  - pose proof min_le_max. lra.
  - apply Qinv_le_0_compat. unfold Qle; simpl. lia.
Qed.




End Partition.





(** *** The corrected densities *)

Lemma densities_closed shuffle norms ids n mn inc miss (l : list nat) :
  densities (map (final_bin shuffle norms ids n mn inc miss) l)
  = Ok (map (fun k => raw_density norms n mn inc k + miss) l).
Proof.
  induction l as [|k l IH]; [reflexivity|].
  simpl. rewrite IH. reflexivity.
Qed.

Lemma raw_of_final shuffle norms ids n mn inc miss (l : list nat) :
  map (fun b => of_nat (length (list_norm b)) / of_nat n)
      (map (final_bin shuffle norms ids n mn inc miss) l)
  = map (raw_density norms n mn inc) l.
Proof.
  rewrite map_map. reflexivity.
Qed.

Lemma inject_Z_to_nat (z : Z) : (0 <= z)%Z -> of_nat (Z.to_nat z) = inject_Z z.
Proof.
  intros H. unfold of_nat. rewrite Z2Nat.id by exact H. reflexivity.
Qed.

Lemma corrected_sum_one norms n mn inc (nb : Z) :
  (1 <= nb)%Z ->
  qsum (map (fun k => raw_density norms n mn inc k
                      + (1 - fold_left Qplus
                               (map (raw_density norms n mn inc) (range nb)) 0)
                        / inject_Z nb)
            (range nb)) == 1.
Proof.
  intros Hnb.
  assert (Hnz : ~ inject_Z nb == 0).
  { intros E. unfold Qeq in E; simpl in E. lia. }
  rewrite <- (map_map (raw_density _ _ _ _) (fun x => x + _)).
  rewrite qsum_map_add, length_map.
  assert (El : of_nat (length (range nb)) = inject_Z nb).
  { unfold range. rewrite length_seq. apply inject_Z_to_nat. lia. }
  rewrite El. unfold qsum. field. exact Hnz.
Qed.

(** C3.  For every histogram built by [__init__] with [nb_bin >= 1], the
    list of corrected densities (the argument [p] of [np.random.choice])
    has one entry per bin and sums to exactly 1, and the corrected density
    of each bin is [|bin|/N + (1 - sum_j |bin_j|/N)/nb_bin]. *)
Theorem density_correction_sums_to_one :
  forall (shuffle : nat -> list nat -> list nat) (list_atoms : list Atoms)
         (nbo : option Z) (h : NormDescriptorHistogram),
    init shuffle list_atoms nbo = Ok h ->
    (1 <= nb_bin h)%Z ->
    let raw := fun b => of_nat (length (list_norm b))
                        / of_nat (length (descriptors h)) in
    let shortfall := 1 - qsum (map raw (bin h)) in
    exists p,
      densities (bin h) = Ok p /\
      length p = Z.to_nat (nb_bin h) /\
      qsum p == 1 /\
      forall k b, nth_error (bin h) k = Some b ->
        exists d, density b = Some d /\
                  d == raw b + shortfall / inject_Z (nb_bin h).
Proof.
  intros shuffle list_atoms nbo h Hinit Hnb raw shortfall.
  pose proof (init_built _ _ _ Hinit) as Hb.
  set (nb := chosen_nb_bin list_atoms nbo) in *.
  destruct (b_nb Hb) as [Enb N0]. rewrite Enb in *.
  pose proof (b_bins Hb) as Ebin. cbv zeta in Ebin.
  assert (Hnz : ~ inject_Z nb == 0).
  { intros E. unfold Qeq in E; simpl in E. lia. }
  unfold shortfall, raw. rewrite Ebin, raw_of_final, densities_closed.
  eexists. split; [reflexivity|]. split; [|split].
  - unfold range. rewrite length_map, length_seq. reflexivity.
  - apply corrected_sum_one. exact Hnb.
  - intros k b Hk. unfold range in Hk. apply nth_error_map_seq in Hk.
    destruct Hk as [_ ->]. eexists. split; [reflexivity|].
    cbn. unfold qsum. reflexivity.
Qed.

(** The density theorem on the pool of norms 0, 1 and 4 with two bins. *)
Lemma density_correction_witness :
  exists h p, init (fun _ l => l) [[[0]; [1]; [2]]] (Some 2%Z) = Ok h /\
              densities (bin h) = Ok p /\ qsum p == 1.
Proof.
  eexists.
  refine ((fun H : exists p, _ =>
             match H with
             | ex_intro _ p (conj Hp (conj _ (conj Hs _))) =>
                 ex_intro _ p (conj _ (conj Hp Hs))
             end)
            (density_correction_sums_to_one (fun _ l => l)
               [[[0]; [1]; [2]]] (Some 2%Z) _ _)).
  - vm_compute. reflexivity.
  - vm_compute. reflexivity.
  - cbn. lia.
Defined.

(** *** Invariants of a histogram *)

(** All the ids held by the bins, bin after bin. *)
Definition all_ids (bins : list Bin) : list nat := concat (map list_id bins).

Section Selected.
Variables (norms : list Q) (mn inc : Q).

(** The ids selected by the bin of key [k], before the shuffle. *)
Definition selected (k : nat) : list nat :=
  select (empty_bin mn inc k) norms (seq 0 (length norms)).

Lemma selected_lt (l : list nat) (x : nat) :
  In x (concat (map selected l)) -> (x < length norms)%nat.
Proof.
  intros H. apply in_concat in H. destruct H as [ids [Hids Hx]].
  apply in_map_iff in Hids. destruct Hids as [k [<- _]].
  apply select_incl in Hx. apply in_seq in Hx. lia.
Qed.

Lemma selected_NoDup (i m : nat) :
  0 <= inc -> NoDup (concat (map selected (seq i m))).
Proof.
  intros Hinc. revert i. induction m as [|m IH]; intros i; simpl.
  - constructor.
  - apply NoDup_app.
    + apply select_NoDup, seq_NoDup.
    + apply IH.
    + intros a Ha Hrest. apply in_concat in Hrest.
      destruct Hrest as [ids [Hids Hin]].
      apply in_map_iff in Hids. destruct Hids as [k [<- Hk]].
      apply in_seq in Hk.
      apply In_select_seq in Ha, Hin.
      destruct Ha as [_ [v [Hv Hm]]]. destruct Hin as [_ [v' [Hv' Hm']]].
      assert (v' = v) by congruence. subst v'.
      apply mask_bin_iff in Hm, Hm'. cbn in Hm, Hm'.
      assert (i = k); [|lia].
      apply (@interval_unique mn inc v); tauto.
Qed.

Lemma raw_density_sum (n : nat) (l : list nat) :
  (0 < n)%nat ->
  qsum (map (raw_density norms n mn inc) l)
  == of_nat (length (concat (map selected l))) / of_nat n.
Proof.
  intros Hn. pose proof (of_nat_pos Hn) as Hpos.
  induction l as [|k l IH].
  - unfold qsum; simpl. change (of_nat 0) with 0. field. lra.
  - change (map (raw_density norms n mn inc) (k :: l))
      with (raw_density norms n mn inc k
            :: map (raw_density norms n mn inc) l).
    rewrite qsum_cons, IH. simpl. rewrite length_app, of_nat_add.
    unfold raw_density, selected.
    rewrite !select_length by (try rewrite length_seq; reflexivity).
    field. lra.
Qed.

Lemma raw_density_sum_le_1 (m : nat) :
  0 <= inc -> norms <> [] ->
  qsum (map (raw_density norms (length norms) mn inc) (seq 0 m)) <= 1.
Proof.
  intros Hinc Hne.
  assert (Hn : (0 < length norms)%nat).
  { destruct norms; [congruence|simpl; lia]. }
  rewrite raw_density_sum by exact Hn.
  apply Qle_shift_div_r; [apply of_nat_pos; exact Hn|].
  rewrite Qmult_1_l. apply of_nat_le.
  rewrite <- (length_seq (length norms) 0).
  apply NoDup_incl_length; [apply selected_NoDup; exact Hinc|].
  intros x Hx. apply in_seq. apply selected_lt in Hx. lia.
Qed.

Lemma raw_density_nonneg (n k : nat) : 0 <= raw_density norms n mn inc k.
Proof.
  unfold raw_density. destruct n as [|n].
  - unfold Qdiv. change (of_nat 0) with 0.
    rewrite Qmult_comm. cbn. apply Qle_refl.
  - apply Qle_shift_div_l; [apply of_nat_pos; lia|].
    rewrite Qmult_0_l. apply of_nat_nonneg.
Qed.

End Selected.

Lemma Permutation_concat_map {A B : Type} (f g : A -> list B) (l : list A) :
  (forall a, Permutation (f a) (g a)) ->
  Permutation (concat (map f l)) (concat (map g l)).
Proof.
  intros H. induction l as [|a l IH]; simpl; [constructor|].
  apply Permutation_app; auto.
Qed.

(** The invariant kept by [__init__] and [histogram_sample]. *)
Record sound (h : NormDescriptorHistogram) : Prop := mkSound {
  s_ids : id_list h = seq 0 (length (descriptors h));
  s_nodup : NoDup (all_ids (bin h));
  s_incl : incl (all_ids (bin h)) (id_list h);
  s_p : (1 <= nb_bin h)%Z ->
        exists p, densities (bin h) = Ok p /\
                  choice_check (nb_bin h) p = Ok tt
}.

Section Soundness.
Variable shuffle : nat -> list nat -> list nat.
Hypothesis shuffle_perm : forall k l, Permutation l (shuffle k l).

Lemma all_ids_built list_atoms nb h :
  built shuffle list_atoms nb h ->
  all_ids (bin h)
  = concat (map (fun k =>
                   shuffle k (selected (array_norm_square h) (min_dis h)
                                ((max_dis h - min_dis h) / inject_Z nb) k))
                (range nb)).
Proof.
  intros Hb. unfold all_ids. rewrite (b_bins Hb). cbv zeta.
  rewrite map_map. cbn [list_id final_bin]. unfold selected.
  rewrite (b_ids Hb), <- (norms_length Hb). reflexivity.
Qed.

Lemma all_ids_perm list_atoms nb h :
  built shuffle list_atoms nb h ->
  Permutation
    (concat (map (selected (array_norm_square h) (min_dis h)
                           ((max_dis h - min_dis h) / inject_Z nb))
                 (range nb)))
    (all_ids (bin h)).
Proof.
  intros Hb. rewrite (all_ids_built Hb).
  apply Permutation_concat_map. intros k. apply shuffle_perm.
Qed.

Lemma range_nil (nb : Z) : ~ (1 <= nb)%Z -> range nb = [].
Proof.
  intros H. unfold range. replace (Z.to_nat nb) with 0%nat by lia.
  reflexivity.
Qed.

Lemma built_sound list_atoms nb h :
  built shuffle list_atoms nb h -> sound h.
Proof.
  intros Hb. pose proof (all_ids_perm Hb) as Hperm.
  destruct (b_nb Hb) as [Enb Hnz].
  assert (Hnorms : array_norm_square h <> []).
  { intros E. pose proof (b_min Hb) as Hm. rewrite E in Hm. discriminate. }
  constructor.
  - exact (b_ids Hb).
  - apply (Permutation_NoDup Hperm).
    destruct (Z_le_dec 1 nb) as [Hnb|Hnb].
    + apply selected_NoDup. apply (inc_nonneg Hb Hnb).
    + rewrite (range_nil Hnb). constructor.
  - intros x Hx. apply (Permutation_in _ (Permutation_sym Hperm)) in Hx.
    apply selected_lt in Hx. rewrite (b_ids Hb), <- (norms_length Hb).
    apply in_seq. lia.
  - rewrite Enb. intros Hnb. rewrite (b_bins Hb). cbv zeta.
    rewrite densities_closed. eexists. split; [reflexivity|].
    unfold choice_check.
    rewrite length_map, Nat.eqb_refl.
    set (n := length (descriptors h)).
    set (inc := (max_dis h - min_dis h) / inject_Z nb).
    set (raw := raw_density (array_norm_square h) n (min_dis h) inc).
    assert (Hsum : qsum (map raw (range nb)) <= 1).
    { unfold raw, n. rewrite <- (norms_length Hb).
      apply raw_density_sum_le_1; [apply (inc_nonneg Hb Hnb)|exact Hnorms]. }
    assert (Hmiss : 0 <= (1 - fold_left Qplus (map raw (range nb)) 0)
                         / inject_Z nb).
    { apply Qle_shift_div_l; [unfold Qlt; simpl; lia|].
      unfold qsum in Hsum. lra. }
    replace (forallb (Qle_bool 0) _) with true.
    + simpl. pose proof (@corrected_sum_one (array_norm_square h) n
                            (min_dis h) inc nb Hnb) as H1.
      apply Qeq_bool_iff in H1. fold raw in H1. rewrite H1. reflexivity.
    + symmetry. apply forallb_forall. intros x Hx.
      apply in_map_iff in Hx. destruct Hx as [k [<- _]].
      apply Qle_bool_iff.
      pose proof (raw_density_nonneg (array_norm_square h) (min_dis h) inc n k).
      fold raw in H. lra.
Qed.

End Soundness.

(** *** The selection loop *)

Lemma set_nth_split {A : Type} (l : list A) (i : nat) (a x : A) :
  nth_error l i = Some a ->
  exists l1 l2, l = l1 ++ a :: l2 /\ length l1 = i /\
                set_nth l i x = l1 ++ x :: l2.
Proof.
  intros H. apply nth_error_split in H. destruct H as [l1 [l2 [-> Hlen]]].
  exists l1, l2. split; [reflexivity|]. split; [exact Hlen|].
  unfold set_nth. subst i.
  induction l1 as [|b l1 IH]; [reflexivity|].
  simpl. f_equal. exact IH.
Qed.

Lemma set_nth_other {A : Type} (l : list A) (i j : nat) (a x : A) :
  nth_error l i = Some a -> j <> i ->
  nth_error (set_nth l i x) j = nth_error l j.
Proof.
  intros H Hij. destruct (@set_nth_split A l i a x H) as [l1 [l2 [-> [Hlen ->]]]].
  destruct (Nat.lt_ge_cases j (length l1)) as [Hlt|Hge].
  - rewrite !nth_error_app1 by exact Hlt. reflexivity.
  - rewrite !nth_error_app2 by exact Hge.
    destruct (j - length l1)%nat as [|d] eqn:E; [lia|reflexivity].
Qed.

Lemma all_ids_split (l1 l2 : list Bin) (b : Bin) :
  all_ids (l1 ++ b :: l2) = all_ids l1 ++ list_id b ++ all_ids l2.
Proof.
  unfold all_ids. rewrite map_app, concat_app. reflexivity.
Qed.

Lemma densities_ext (bins bins' : list Bin) :
  map density bins' = map density bins -> densities bins' = densities bins.
Proof.
  revert bins'. induction bins as [|b bins IH]; intros [|b' bins'] H;
    try discriminate; [reflexivity|].
  simpl in H. injection H as Hd Ht. simpl. rewrite Hd, (IH _ Ht).
  reflexivity.
Qed.

(** What one run of the loop of [histogram_sample] does to the bins and to
    [list_id_selected]. *)
Lemma selection_loop_spec (sel : list nat) :
  forall bins acc bins' ids,
    selection_loop bins sel acc = Ok (bins', ids) ->
    Permutation (ids ++ all_ids bins') (acc ++ all_ids bins) /\
    map density bins' = map density bins /\
    (length ids <= length acc + length sel)%nat.
Proof.
  induction sel as [|s rest IH]; intros bins acc bins' ids H.
  - simpl in H. injection H as <- <-. split; [reflexivity|].
    split; [reflexivity|lia].
  - simpl in H. destruct (nth_error bins s) as [b|] eqn:Hb; [|discriminate].
    destruct (0 <? length (list_id b))%nat eqn:Hlen.
    + apply IH in H. destruct H as [Hperm [Hdens Hle]].
      set (b' := mkBin (min b) (max b) (list_norm b)
                       (removelast (list_id b)) (density b)) in *.
      destruct (@set_nth_split _ bins s b b' Hb) as [l1 [l2 [E [_ E']]]].
      rewrite E' in Hperm, Hdens. rewrite E. clear E'.
      assert (Hne : list_id b <> []).
      { apply Nat.ltb_lt in Hlen. destruct (list_id b); [simpl in Hlen; lia|].
        discriminate. }
      split; [|split].
      * etransitivity; [exact Hperm|].
        rewrite !all_ids_split. cbn [list_id b'].
        pose proof (app_removelast_last 0%nat Hne) as Elast.
        set (x := last (list_id b) 0%nat) in *.
        set (front := removelast (list_id b)) in *.
        rewrite Elast. rewrite <- !app_assoc. apply Permutation_app_head.
        simpl. rewrite !app_assoc. apply Permutation_middle.
      * rewrite Hdens, !map_app. reflexivity.
      * rewrite length_app in Hle. simpl in *. lia.
    + apply IH in H. destruct H as [Hperm [Hdens Hle]].
      split; [exact Hperm|]. split; [exact Hdens|]. simpl. lia.
Qed.

Lemma selection_loop_defined (sel : list nat) :
  forall bins acc,
    Forall (fun s => (s < length bins)%nat) sel ->
    exists r, selection_loop bins sel acc = Ok r.
Proof.
  induction sel as [|s rest IH]; intros bins acc H.
  - simpl. eauto.
  - inversion H as [|? ? Hs Hrest]; subst. simpl.
    destruct (nth_error bins s) as [b|] eqn:Hb.
    + destruct (0 <? length (list_id b))%nat; [|apply IH; exact Hrest].
      apply IH.
      destruct (@set_nth_split _ bins s b
                  (mkBin (min b) (max b) (list_norm b)
                         (removelast (list_id b)) (density b)) Hb)
        as [l1 [l2 [E [_ E']]]].
      rewrite E'. rewrite E in Hrest.
      rewrite length_app in *. exact Hrest.
    + apply nth_error_None in Hb. lia.
Qed.

(** A draw on a bin that is already empty makes the sample fall short. *)
Lemma selection_loop_strict (sel : list nat) :
  forall bins acc bins' ids,
    selection_loop bins sel acc = Ok (bins', ids) ->
    (exists s b, In s sel /\ nth_error bins s = Some b /\ list_id b = []) ->
    (length ids < length acc + length sel)%nat.
Proof.
  induction sel as [|s0 rest IH]; intros bins acc bins' ids H Hex.
  - destruct Hex as [s [b [[] _]]].
  - simpl in H.
    destruct (nth_error bins s0) as [b0|] eqn:Hb0; [|discriminate].
    destruct (0 <? length (list_id b0))%nat eqn:Hlen.
    + destruct Hex as [s [b [Hin [Hb He]]]].
      assert (Hs : s <> s0).
      { intros ->. rewrite Hb0 in Hb. injection Hb as ->.
        rewrite He in Hlen. discriminate. }
      destruct Hin as [Hin|Hin]; [congruence|].
      apply IH in H.
      * rewrite length_app in H. simpl in *. lia.
      * exists s, b. split; [exact Hin|]. split; [|exact He].
        rewrite (@set_nth_other _ bins s0 s b0 _ Hb0 Hs). exact Hb.
    + apply selection_loop_spec in H. simpl. lia.
Qed.

Lemma take_rows_length (d : list (list Q)) (ids : list nat) :
  forall rows, take_rows d ids = Ok rows ->
               length rows = length ids /\
               rows = map (fun i => nth i d []) ids.
Proof.
  induction ids as [|i ids IH]; intros rows H.
  - injection H as <-. auto.
  - simpl in H. destruct (nth_error d i) as [row|] eqn:Hi; [|discriminate].
    destruct (take_rows d ids) as [rows'|]; [|discriminate].
    injection H as <-. destruct (IH _ eq_refl) as [Hl Hm].
    simpl. rewrite Hl, <- Hm. split; [reflexivity|].
    f_equal. symmetry. apply nth_error_nth. exact Hi.
Qed.

Lemma take_rows_defined (d : list (list Q)) (ids : list nat) :
  (forall i, In i ids -> (i < length d)%nat) ->
  exists rows, take_rows d ids = Ok rows.
Proof.
  induction ids as [|i ids IH]; intros H; [simpl; eauto|].
  simpl. destruct (nth_error d i) as [row|] eqn:Hi.
  - destruct IH as [rows ->]; [intros; apply H; now right|].
    simpl. eauto.
  - apply nth_error_None in Hi.
    specialize (H i (or_introl eq_refl)). lia.
Qed.

Lemma histogram_sample_Ok h k sel h' rows :
  histogram_sample h k sel = Ok (h', rows) ->
  exists ids,
    histogram_select h sel = Ok (bin h', ids) /\
    selection_loop (bin h) sel [] = Ok (bin h', ids) /\
    take_rows (descriptors h) ids = Ok rows /\
    descriptors h' = descriptors h /\ nb_bin h' = nb_bin h /\
    id_list h' = id_list h.
Proof.
  unfold histogram_sample. intros H.
  destruct (histogram_select h sel) as [[bins' ids]|] eqn:Hs; [|discriminate].
  cbn [bind fst snd] in H.
  destruct (take_rows (descriptors h) ids) as [rows'|] eqn:Hr; [|discriminate].
  cbn [bind] in H. injection H as <- <-. exists ids. cbn.
  split; [reflexivity|]. split; [|auto].
  unfold histogram_select in Hs.
  destruct (densities (bin h)); [|discriminate]. cbn [bind] in Hs.
  destruct (choice_check (nb_bin h) a); [|discriminate]. exact Hs.
Qed.

Lemma reachable_sound shuffle h :
  (forall k l, Permutation l (shuffle k l)) ->
  reachable shuffle h -> sound h.
Proof.
  intros Hperm Hr. induction Hr as [la nb h Hinit|h k sel h' rows Hr IH Hk Hs].
  - eapply built_sound; [exact Hperm|]. apply init_built. exact Hinit.
  - apply histogram_sample_Ok in Hs.
    destruct Hs as [ids [_ [Hloop [_ [Ed [En Ei]]]]]].
    apply selection_loop_spec in Hloop. destruct Hloop as [Hp [Hdens _]].
    simpl in Hp. constructor.
    + rewrite Ei, Ed. apply (s_ids IH).
    + apply NoDup_app_remove_l with ids.
      apply (Permutation_NoDup (Permutation_sym Hp)). apply (s_nodup IH).
    + intros x Hx. rewrite Ei. apply (s_incl IH).
      apply (Permutation_in _ Hp). apply in_or_app. now right.
    + rewrite En. intros Hnb. destruct (s_p IH Hnb) as [p [Hd Hc]].
      exists p. split; [|exact Hc]. rewrite <- Hd. apply densities_ext.
      exact Hdens.
Qed.

Lemma densities_length (bins : list Bin) :
  forall p, densities bins = Ok p -> length p = length bins.
Proof.
  induction bins as [|b bins IH]; intros p H.
  - injection H as <-. reflexivity.
  - simpl in H. destruct (density b); [|discriminate].
    destruct (densities bins) as [p'|]; [|discriminate].
    injection H as <-. simpl. rewrite (IH _ eq_refl). reflexivity.
Qed.

Lemma choice_check_length (nb : Z) (p : list Q) :
  choice_check nb p = Ok tt -> length p = Z.to_nat nb.
Proof.
  unfold choice_check.
  destruct (length p =? length (range nb))%nat eqn:E; [|discriminate].
  intros _. apply Nat.eqb_eq in E. rewrite E. unfold range.
  apply length_seq.
Qed.

(** C2.  For every histogram that [__init__] has built and that has been
    sampled any number of times, and every [k]: [histogram_sample(k)]
    returns when the [k] draws are keys of bins ([nb_bin >= 1]); what it
    returns are the descriptors of the selected ids, at most [k] of them;
    the selected ids are ids of the pool and no id is selected twice; the
    sample is never larger than the number of ids left in the bins, and it
    has fewer than [k] rows as soon as one draw falls on a bin whose
    [list_id] is empty; a draw on a bin with an empty [list_id] leaves the
    bins and the selection as they are. *)
Theorem histogram_sample_sound :
  forall (shuffle : nat -> list nat -> list nat)
         (h : NormDescriptorHistogram) (k : nat) (sel : list nat),
    (forall k l, Permutation l (shuffle k l)) ->
    reachable shuffle h ->
    length sel = k ->
    ((1 <= nb_bin h)%Z ->
     Forall (fun s => (Z.of_nat s < nb_bin h)%Z) sel ->
     exists h' rows, histogram_sample h k sel = Ok (h', rows)) /\
    (forall h' rows,
       histogram_sample h k sel = Ok (h', rows) ->
       exists ids,
         histogram_select h sel = Ok (bin h', ids) /\
         rows = map (fun i => nth i (descriptors h) []) ids /\
         length rows = length ids /\
         (length rows <= k)%nat /\
         incl ids (id_list h) /\
         NoDup ids /\
         (length rows <= length (all_ids (bin h)))%nat /\
         ((exists s b, In s sel /\ nth_error (bin h) s = Some b /\
                       list_id b = []) ->
          (length rows < k)%nat)) /\
    (forall bins s rest acc b,
       nth_error bins s = Some b -> list_id b = [] ->
       selection_loop bins (s :: rest) acc = selection_loop bins rest acc).
Proof.
  intros shuffle h k sel Hperm Hr Hk.
  pose proof (reachable_sound Hperm Hr) as Hs.
  assert (Hsel : forall bins' ids,
             selection_loop (bin h) sel [] = Ok (bins', ids) ->
             incl ids (id_list h) /\ NoDup ids /\
             (length ids <= length (all_ids (bin h)))%nat).
  { intros bins' ids Hloop. apply selection_loop_spec in Hloop.
    destruct Hloop as [Hp _]. simpl in Hp.
    assert (Hnd : NoDup (ids ++ all_ids bins'))
      by (apply (Permutation_NoDup (Permutation_sym Hp)), (s_nodup Hs)).
    split; [|split].
    - intros x Hx. apply (s_incl Hs). apply (Permutation_in _ Hp).
      apply in_or_app. now left.
    - apply NoDup_app_remove_r in Hnd. exact Hnd.
    - apply Permutation_length in Hp. rewrite length_app in Hp. lia. }
  split; [|split].
  - intros Hnb Hdraws. destruct (s_p Hs Hnb) as [p [Hd Hc]].
    assert (Hlen : length (bin h) = Z.to_nat (nb_bin h)).
    { rewrite <- (densities_length _ Hd). apply choice_check_length, Hc. }
    destruct (@selection_loop_defined sel (bin h) []) as [[bins' ids] Hloop].
    { apply Forall_impl with (2 := Hdraws). intros s Hlt. lia. }
    destruct (Hsel _ _ Hloop) as [Hincl _].
    destruct (@take_rows_defined (descriptors h) ids) as [rows Hrows].
    { intros i Hi. apply Hincl in Hi. rewrite (s_ids Hs) in Hi.
      apply in_seq in Hi. lia. }
    unfold histogram_sample, histogram_select.
    rewrite Hd. cbn [bind]. rewrite Hc. cbn [bind]. rewrite Hloop.
    cbn [bind fst snd]. rewrite Hrows. cbn [bind]. eauto.
  - intros h' rows H. apply histogram_sample_Ok in H.
    destruct H as [ids [Hselect [Hloop [Hrows _]]]].
    destruct (take_rows_length _ _ Hrows) as [Hl Hm].
    destruct (Hsel _ _ Hloop) as [Hincl [Hnd Hle]].
    exists ids. split; [exact Hselect|]. split; [exact Hm|].
    split; [exact Hl|]. rewrite Hl.
    split; [apply selection_loop_spec in Hloop; simpl in Hloop; lia|].
    split; [exact Hincl|]. split; [exact Hnd|]. split; [exact Hle|].
    intros Hex. apply (selection_loop_strict _ _ _ Hloop) in Hex.
    simpl in Hex. lia.
  - intros bins s rest acc b Hb He. simpl. rewrite Hb, He. reflexivity.
Qed.

(** A pool of norms 0, 1 and 100 cut in four bins: the bins of keys 1 and 2
    are empty. *)
Definition sparse_pool : list Atoms := [[[0]; [1]; [10]]].

Definition sparse_hist : NormDescriptorHistogram :=
  Eval vm_compute in
    match init (fun _ l => l) sparse_pool (Some 4%Z) with
    | Ok h => h
    | Raise _ => mkHist [] 0 [] [] [] 0 0
    end.

(** The sampling theorem on [sparse_hist]: two draws, the first one on the
    empty bin of key 1, return a single descriptor. *)
Lemma histogram_sample_witness :
  init (fun _ l => l) sparse_pool (Some 4%Z) = Ok sparse_hist /\
  exists h' rows,
    histogram_sample sparse_hist 2 [1; 0]%nat = Ok (h', rows) /\
    (length rows < 2)%nat.
Proof.
  split; [vm_compute; reflexivity|].
  destruct (@histogram_sample_sound (fun _ l => l) sparse_hist 2%nat
              [1; 0]%nat (fun _ l => Permutation_refl l))
    as [Hreturns [Hsample _]].
  - apply reach_init with (list_atoms := sparse_pool) (nb := Some 4%Z).
    vm_compute. reflexivity.
  - reflexivity.
  - destruct Hreturns as [h' [rows Hs]].
    + cbn. lia.
    + repeat constructor; cbn; lia.
    + exists h', rows. split; [exact Hs|].
      destruct (Hsample _ _ Hs) as [ids [_ [_ [_ [_ [_ [_ [_ Hlt]]]]]]]].
      apply Hlt. eexists 1%nat, _. split; [now left|].
      split; vm_compute; reflexivity.
Defined.

(** *** When construction succeeds *)







End HistogramFacts.

(** ** The C15 builder *)

Module C15Facts.
Import Num NumFacts C15.
Local Open Scope Q_scope.

(** *** Dictionaries *)

Section DictFacts.
Context {K V : Type} (eqb : K -> K -> bool).
Hypothesis eqb_spec : forall a b, eqb a b = true <-> a = b.

Lemma eqb_refl (a : K) : eqb a a = true.
Proof. apply eqb_spec. reflexivity. Qed.

Lemma eqb_neq (a b : K) : a <> b -> eqb a b = false.
Proof.
  intros H. destruct (eqb a b) eqn:E; [|reflexivity].
  apply eqb_spec in E. contradiction.
Qed.

Lemma dict_get_set (k k' : K) (v : V) (d : dict K V) :
  dict_get eqb k' (dict_set eqb k v d)
  = if eqb k' k then Some v else dict_get eqb k' d.
Proof.
  induction d as [|[k0 v0] d IH]; simpl.
  - reflexivity.
  - destruct (eqb k k0) eqn:E; simpl.
    + apply eqb_spec in E. subst k0.
      destruct (eqb k' k); reflexivity.
    + rewrite IH. destruct (eqb k' k0) eqn:E0; [|reflexivity].
      apply eqb_spec in E0. subst k0.
      destruct (eqb k' k) eqn:E1; [|reflexivity].
      apply eqb_spec in E1. subst k'. rewrite eqb_refl in E. discriminate.
Qed.

Lemma dict_get_In (k : K) (d : dict K V) :
  In k (dict_keys d) -> exists v, dict_get eqb k d = Some v.
Proof.
  induction d as [|[k0 v0] d IH]; simpl; [intros []|].
  intros [->|H].
  - rewrite eqb_refl. eauto.
  - destruct (eqb k k0); eauto.
Qed.

Lemma dict_get_keys (k : K) (v : V) (d : dict K V) :
  dict_get eqb k d = Some v -> In k (dict_keys d).
Proof.
  induction d as [|[k0 v0] d IH]; simpl; [discriminate|].
  destruct (eqb k k0) eqn:E.
  - apply eqb_spec in E. auto.
  - auto.
Qed.

End DictFacts.

Lemma nat_eqb_spec (a b : nat) : Nat.eqb a b = true <-> a = b.
Proof. apply Nat.eqb_eq. Qed.

(** *** The parsed center map *)

(** The key lists a record can have while the file is read. *)
Definition parsed_record (r : C15Center) : Prop :=
  dict_keys r = ["center"]%string \/ dict_keys r = ["type"]%string \/
  dict_keys r = ["center"; "type"]%string \/
  dict_keys r = ["type"; "center"]%string.

(** The test of [check_out_parser] on the list of keys of a record. *)
Definition complete (r : C15Center) : Prop :=
  dict_keys r = ["type"; "center"]%string \/
  dict_keys r = ["center"; "type"]%string.

(** The record lacks its ['type'] or its ['center'] entry. *)
Definition lacks_entry (r : C15Center) : Prop :=
  dict_get String.eqb "type"%string r = None \/
  dict_get String.eqb "center"%string r = None.

Lemma complete_test (r : C15Center) :
  existsb (keys_eqb (dict_keys r))
          [["type"; "center"]; ["center"; "type"]]%string = true
  <-> complete r.
Proof.
  unfold complete, keys_eqb. simpl.
  destruct (list_eq_dec string_dec (dict_keys r) ["type"; "center"]%string);
    destruct (list_eq_dec string_dec (dict_keys r) ["center"; "type"]%string);
    simpl; intuition congruence.
Qed.

Lemma complete_has_both (r : C15Center) : complete r -> ~ lacks_entry r.
Proof.
  intros [H|H] [L|L];
    destruct r as [|[k1 v1] [|[k2 v2] [|? ?]]]; try discriminate;
    simpl in H; injection H as -> ->; simpl in L; discriminate.
Qed.

Lemma incomplete_lacks (r : C15Center) :
  parsed_record r -> ~ complete r -> lacks_entry r.
Proof.
  unfold complete. intros [H|[H|[H|H]]] Hn; try tauto.
  - left. destruct r as [|[k1 v1] [|? ?]]; try discriminate.
    simpl in H. injection H as ->. reflexivity.
  - right. destruct r as [|[k1 v1] [|? ?]]; try discriminate.
    simpl in H. injection H as ->. reflexivity.
Qed.

Lemma set_key_parsed (key : string) (v : value) (r : C15Center) :
  key = "center"%string \/ key = "type"%string ->
  r = [] \/ parsed_record r ->
  parsed_record (dict_set String.eqb key v r).
Proof.
  unfold parsed_record.
  intros Hkey [->|[H|[H|[H|H]]]];
    [|destruct r as [|[k1 v1] [|? ?]]; try discriminate;
      simpl in H; injection H as ->
     |destruct r as [|[k1 v1] [|? ?]]; try discriminate;
      simpl in H; injection H as ->
     |destruct r as [|[k1 v1] [|[k2 v2] [|? ?]]]; try discriminate;
      simpl in H; injection H as -> ->
     |destruct r as [|[k1 v1] [|[k2 v2] [|? ?]]]; try discriminate;
      simpl in H; injection H as -> ->];
    destruct Hkey as [->| ->]; simpl; tauto.
Qed.

(** Every record of the map is one that the parser can have built. *)
Definition parsed_map (d : dict nat C15Center) : Prop :=
  forall key r, dict_get Nat.eqb key d = Some r -> parsed_record r.

Lemma set_entry_parsed (id : nat) (key : string) (v : value)
      (d : dict nat C15Center) :
  key = "center"%string \/ key = "type"%string ->
  parsed_map d -> parsed_map (set_entry id key v d).
Proof.
  intros Hkey Hd key' r. unfold set_entry.
  rewrite (dict_get_set _ nat_eqb_spec).
  destruct (Nat.eqb key' id) eqn:E.
  - intros H. injection H as <-. apply set_key_parsed; [exact Hkey|].
    destruct (dict_get Nat.eqb id d) as [r0|] eqn:E0; [|now left].
    right. eapply Hd; eauto.
  - apply Hd.
Qed.

Lemma parse_param_parsed (p : xml_param) (d : dict nat C15Center) :
  parsed_map d -> parsed_map (parse_param d p).
Proof.
  destruct p as [children|children|]; simpl; [| |auto].
  - generalize (enumerate children). intros l. revert d.
    induction l as [|[i c] l IH]; intros d Hd; simpl; [exact Hd|].
    apply IH. apply set_entry_parsed; [now left|exact Hd].
  - generalize (enumerate children). intros l. revert d.
    induction l as [|[i c] l IH]; intros d Hd; simpl; [exact Hd|].
    apply IH. apply set_entry_parsed; [now right|exact Hd].
Qed.

Lemma parse_loop_parsed (root : list xml_param) (d : dict nat C15Center) :
  parsed_map d -> parsed_map (parse_loop root d).
Proof.
  unfold parse_loop. revert d.
  induction root as [|p root IH]; intros d Hd; simpl; [exact Hd|].
  apply IH, parse_param_parsed, Hd.
Qed.

(** *** [check_out_parser] *)

(** The message of the error raised for the record of key [key]. *)
Definition missing_message (key : nat) : string :=
  ("Missing type or center for " ++ str key)%string.

Lemma check_loop_cons (d : dict nat C15Center) (key : nat) (rest : list nat) :
  check_loop (key :: rest) d
  = (record <- lookup Nat.eqb key d ;;
     if existsb (keys_eqb (dict_keys record))
                [["type"; "center"]; ["center"; "type"]]%string
     then check_loop rest d
     else Raise (TimeoutError (missing_message key))).
Proof. reflexivity. Qed.

Lemma check_loop_cases (d : dict nat C15Center) (keys : list nat) :
  (forall key, In key keys -> In key (dict_keys d)) ->
  (check_loop keys d = Ok tt /\
   forall key, In key keys ->
               exists r, dict_get Nat.eqb key d = Some r /\ complete r) \/
  (exists key r, In key keys /\ dict_get Nat.eqb key d = Some r /\
                 ~ complete r /\
                 check_loop keys d = Raise (TimeoutError (missing_message key))).
Proof.
  induction keys as [|key keys IH]; intros Hkeys.
  - left. split; [reflexivity|]. intros key [].
  - destruct (dict_get_In Nat.eqb nat_eqb_spec key d) as [r Hr];
      [apply Hkeys; now left|].
    rewrite check_loop_cons. unfold lookup. rewrite Hr. cbn [bind].
    destruct (existsb (keys_eqb (dict_keys r))
                      [["type"; "center"]; ["center"; "type"]]%string)
      eqn:Htest.
    + apply complete_test in Htest.
      destruct IH as [[Hok Hall]|[key' [r' [Hin [Hr' [Hn Hraise]]]]]].
      * intros k Hk. apply Hkeys. now right.
      * left. split; [exact Hok|].
        intros k [<-|Hk]; [eauto|apply Hall, Hk].
      * right. exists key', r'. split; [now right|]. auto.
    + right. exists key, r. split; [now left|]. split; [exact Hr|].
      split; [|reflexivity].
      intros Hc. apply complete_test in Hc. congruence.
Qed.

(** C8.  On a center map parsed from the input file, [check_out_parser]
    returns normally, leaving the builder as it is, when no record lacks
    its ['type'] or its ['center'] entry; when some record lacks one, it
    raises the error whose message ends with the key of such a record and
    leaves the builder as it is; and it raises nothing else. *)
Theorem check_out_parser_complete :
  forall (root : list xml_param) (self : C15Builder),
    centerC15 self = parse_loop root [] ->
    let missing := fun key =>
      exists r, dict_get Nat.eqb key (centerC15 self) = Some r /\
                lacks_entry r in
    ((forall key, ~ missing key) -> check_out_parser self = (Ok tt, self)) /\
    ((exists key, missing key) ->
     exists key, missing key /\
       check_out_parser self
       = (Raise (TimeoutError (missing_message key)), self)) /\
    (forall e self', check_out_parser self = (Raise e, self') ->
       self' = self /\
       exists key, missing key /\ e = TimeoutError (missing_message key)).
Proof.
  intros root self Hparsed missing.
  assert (Hmap : parsed_map (centerC15 self)).
  { rewrite Hparsed. apply parse_loop_parsed. intros key r H. discriminate. }
  unfold check_out_parser.
  destruct (@check_loop_cases (centerC15 self) (dict_keys (centerC15 self)))
    as [[Hok Hall]|[key [r [Hin [Hr [Hn Hraise]]]]]]; [auto| |].
  - (* every record is complete *)
    split; [intros _; rewrite Hok; reflexivity|]. split.
    + intros [key [r [Hr Hl]]]. exfalso.
      destruct (Hall key) as [r' [Hr' Hc]].
      { eapply dict_get_keys; [apply nat_eqb_spec|exact Hr]. }
      assert (r' = r) by congruence. subst r'.
      exact (complete_has_both Hc Hl).
    + intros e self' H. rewrite Hok in H. discriminate.
  - (* the record of [key] is not complete *)
    assert (Hm : missing key).
    { exists r. split; [exact Hr|]. apply incomplete_lacks; [|exact Hn].
      eapply Hmap; eauto. }
    split; [|split].
    + intros Hnone. exfalso. exact (Hnone key Hm).
    + intros _. exists key. split; [exact Hm|]. rewrite Hraise. reflexivity.
    + intros e self' H. rewrite Hraise in H. injection H as <- <-.
      split; [reflexivity|]. exists key. auto.
Qed.

(** A file with two centers and one type: the record of key 1 has no type. *)
Definition two_centers_one_type : list xml_param :=
  [XCenters [[1; 2; 3]; [4; 5; 6]]%Z; XType ["type1"%string]].

(** The parser theorem on that file: the error names the record of key 1. *)
Lemma check_out_parser_witness :
  let self := set_centerC15 (new_builder (mkInputs 1 "Fe" 2))
                            (parse_loop two_centers_one_type []) in
  check_out_parser self
  = (Raise (TimeoutError "Missing type or center for 1"), self).
Proof.
  intros self.
  destruct (@check_out_parser_complete two_centers_one_type self eq_refl)
    as [_ [_ Hraise]].
  destruct (check_out_parser self) as [[[]|e] self'] eqn:E.
  - vm_compute in E. discriminate.
  - destruct (Hraise e self' eq_refl) as [-> _].
    vm_compute in E. injection E as <-. reflexivity.
Defined.

(** *** [AgnosticPerfectC15Cluster] *)

Lemma Qlt_b_iff (x y : Q) : Qlt_b x y = true <-> x < y.
Proof.
  unfold Qlt_b. rewrite negb_true_iff. split.
  - intros H. apply Qnot_le_lt. intros Hle.
    apply Qle_bool_iff in Hle. congruence.
  - intros H. destruct (Qle_bool y x) eqn:E; [|reflexivity].
    apply Qle_bool_iff in E. apply Qlt_not_le in H. contradiction.
Qed.

Lemma Qlt_b_false (x y : Q) : y <= x -> Qlt_b x y = false.
Proof.
  intros H. destruct (Qlt_b x y) eqn:E; [|reflexivity].
  apply Qlt_b_iff in E. apply Qlt_not_le in E. contradiction.
Qed.

Lemma divide_defined (x y : Q) : ~ y == 0 -> divide x y = Ok (x / y).
Proof.
  intros H. unfold divide. destruct (Qeq_bool y 0) eqn:E; [|reflexivity].
  apply Qeq_bool_iff in E. contradiction.
Qed.

Lemma py_int_ceil (x : Q) : py_int (np_ceil x) = Qceiling x.
Proof. apply py_int_inject_Z. Qed.

(** The side of the draft supercell for a cluster of size [size]:
    [int(np.ceil(size*scale_factor/a0))]. *)
Definition draft_size (p : InputsCompactPhases) (size : Q) : Z :=
  Qceiling (size * scale_factor p / a0 p).

(** The coordinate of the centroid of a supercell of side [sz]:
    [int(np.ceil(0.5*sz))]. *)
Definition half_up (sz : Z) : Q := inject_Z (Qceiling ((1 # 2) * inject_Z sz)).

Lemma centroid_half_up (sz : Z) :
  centroid sz = [half_up sz; half_up sz; half_up sz].
Proof.
  unfold centroid, half_up. rewrite py_int_ceil. reflexivity.
Qed.

Section Agnostic.
Variable typeOcta : dict string Octa.
Variable SolidAse_BCC : list Z -> string -> Atoms.

Lemma build_draft (self : C15Builder) (size : Q) :
  ~ a0 (dict_param self) == 0 ->
  build_cubic_supercell SolidAse_BCC self true size
  = Ok (SolidAse_BCC (repeat (draft_size (dict_param self) size) 3)
                     (element (dict_param self)),
        draft_size (dict_param self) size).
Proof.
  intros Ha. unfold build_cubic_supercell, compute_cell_size_draft.
  rewrite divide_defined by exact Ha. cbn [bind].
  rewrite py_int_ceil. reflexivity.
Qed.


End Agnostic.


(** *** The multi-cluster branch *)

Lemma ceiling_ge_1 (q : Q) : 1 <= q -> (1 <= Qceiling q)%Z.
Proof.
  intros H. pose proof (Qle_ceiling q) as Hc.
  assert (H1 : inject_Z 1 <= inject_Z (Qceiling q)).
  { change (inject_Z 1) with 1. lra. }
  rewrite <- Zle_Qle in H1. exact H1.
Qed.

Lemma number_perfect_C15 (minimal_size size : Q) :
  0 < minimal_size -> minimal_size <= size ->
  exists Nb_C15, compute_number_perfect_C15 minimal_size size = Ok Nb_C15 /\
                 (4 <= Nb_C15)%Z.
Proof.
  intros Hpos Hle. unfold compute_number_perfect_C15.
  rewrite divide_defined by lra. cbn [bind].
  eexists. split; [reflexivity|].
  assert (Hq : 1 <= size / minimal_size).
  { apply Qle_shift_div_l; [exact Hpos|]. lra. }
  apply ceiling_ge_1 in Hq.
  set (z := Qceiling (size / minimal_size)) in *.
  unfold np_ceil. fold z.
  replace (py_int ((inject_Z z + 1) ^ 2)) with ((z + 1) * (z + 1))%Z; [nia|].
  unfold py_int. cbn. rewrite Z.quot_1_r. ring.
Qed.

Section MultiCluster.
Variable typeOcta : dict string Octa.
Variable SolidAse_BCC : list Z -> string -> Atoms.

(** The first turn of the loop stops on [len(self.explorated_dict['link'])],
    the link list being [None]. *)
Lemma agnostic_step_raises (center_coordinates : list Q) (idx_C15 : nat)
      (self : C15Builder) (ex : Explorated) :
  explorated_dict self = Some ex -> ex_link ex = None ->
  agnostic_step typeOcta center_coordinates idx_C15 self
  = (Raise TypeError, self).
Proof.
  intros He Hl. unfold agnostic_step, bindM, get_explorated.
  rewrite He. unfold lift. rewrite Hl. reflexivity.
Qed.

(** In the branch [cluster_size >= minimal_cluster_size] the method stops
    with [TypeError] in the first turn of the loop: only the center of key
    0 has been written. *)
Lemma multi_cluster_raises (self : C15Builder) (cluster_size : Q)
      (octa : Octa) :
  0 < a0 (dict_param self) ->
  np_sqrt3 * a0 (dict_param self) <= cluster_size ->
  dict_get String.eqb "type1"%string typeOcta = Some octa ->
  let c := half_up (draft_size (dict_param self) cluster_size) in
  exists self',
    AgnosticPerfectC15Cluster typeOcta SolidAse_BCC cluster_size self
    = (Raise TypeError, self') /\
    centerC15 self'
    = dict_set Nat.eqb 0%nat (new_center [c; c; c] "type1") (centerC15 self) /\
    explorated_dict self' = Some (mkExplorated [c; c; c] "type2" None).
Proof.
  intros Ha Hge Hocta c.
  assert (Hmin : 0 < np_sqrt3 * a0 (dict_param self)).
  { apply Qmult_lt_0_compat; [reflexivity|exact Ha]. }
  unfold AgnosticPerfectC15Cluster, bindM, get.
  rewrite Qlt_b_false by exact Hge.
  unfold lift. rewrite build_draft by lra.
  cbn [fst snd]. unfold put.
  destruct (number_perfect_C15 Hmin Hge) as [Nb [-> HNb]].
  unfold lookup. rewrite Hocta. rewrite centroid_half_up. fold c.
  destruct (Z.to_nat Nb - 1)%nat as [|n] eqn:En; [lia|].
  change (seq 1 (S n)) with (1%nat :: seq 2 n).
  unfold forM; fold forM. unfold bindM.
  erewrite agnostic_step_raises; [|reflexivity|reflexivity].
  eexists. split; [reflexivity|]. cbn. auto.
Qed.

End MultiCluster.

(** A table of templates with the two types, each with one link. *)
Definition one_link : Octa := mkOcta [] [] [] [(1, 1, 0)].

Definition two_types : dict string Octa :=
  [("type1"%string, one_link); ("type2"%string, one_link)].

(** C4, on the code.  For [a0 = 1], a scale factor 2 and a cluster of size
    2, above the minimal size, [AgnosticPerfectC15Cluster] raises
    [TypeError] in the first turn of its loop: the center map holds the
    seed center of key 0 alone, and the link list of the anchor is [None],
    the value of [random.shuffle]; no center of index [i >= 1] is
    generated. *)
Theorem multi_cluster_stops_at_first_center :
  exists self',
    AgnosticPerfectC15Cluster two_types (fun _ _ => []) 2
                              (new_builder (mkInputs 1 "Fe" 2))
    = (Raise TypeError, self') /\
    centerC15 self'
    = [(0%nat, [("center"%string, VArr [2; 2; 2]);
                ("type"%string, VStr "type1")])] /\
    explorated_dict self' = Some (mkExplorated [2; 2; 2] "type2" None).
Proof.
  destruct (@multi_cluster_raises two_types (fun _ _ => [])
              (new_builder (mkInputs 1 "Fe" 2)) 2 one_link)
    as [self' [Hrun [Hc He]]]; try reflexivity.
  - unfold Qle; simpl. lia.
  - exists self'. split; [exact Hrun|]. rewrite Hc, He. split; reflexivity.
Qed.

(** *** [build_C15_system] *)

(** [q] lies within the tolerance of [p]: [|q - p| < tolerance]. *)
Definition within (tolerance : Q) (q p : vec3) : bool :=
  norm_lt (sqnorm (vsub q p)) tolerance.

(** A site is accepted when no accepted position lies within the tolerance
    of it; otherwise it is discarded. *)
Definition accept (tolerance : Q) (accepted : list vec3) (p : vec3)
  : list vec3 :=
  if existsb (fun q => within tolerance q p) accepted then accepted
  else accepted ++ [p].

(** The accepted positions of a sequence of sites. *)
Definition dedup (tolerance : Q) (sites : list vec3) : list vec3 :=
  fold_left (accept tolerance) sites [].

Lemma norm_lt_mono (m x tolerance : Q) :
  m <= x -> norm_lt x tolerance = true -> norm_lt m tolerance = true.
Proof.
  unfold norm_lt. rewrite !andb_true_iff, !Qlt_b_iff.
  intros Hle [Ht Hx]. split; [exact Ht|lra].
Qed.

Lemma amin_norm_lt (l : list Q) (m tolerance : Q) :
  amin l = Ok m ->
  norm_lt m tolerance = existsb (fun x => norm_lt x tolerance) l.
Proof.
  intros H. destruct (amin_spec _ H) as [Hin Hle].
  destruct (existsb (fun x => norm_lt x tolerance) l) eqn:E.
  - apply existsb_exists in E. destruct E as [x [Hx Hlt]].
    apply (@norm_lt_mono m x tolerance (Hle x Hx) Hlt).
  - destruct (norm_lt m tolerance) eqn:Em; [|reflexivity].
    rewrite <- E. symmetry. apply existsb_exists. eauto.
Qed.

Lemma existsb_map_compose {A B : Type} (f : A -> B) (P : B -> bool)
      (l : list A) :
  existsb P (map f l) = existsb (fun a => P (f a)) l.
Proof.
  induction l as [|a l IH]; simpl; [reflexivity|]. rewrite IH. reflexivity.
Qed.

(** The body of the innermost loop does what [accept] says. *)
Lemma site_step_accept (element : string) (tolerance : Q)
      (accepted : list vec3) (p : vec3) :
  site_step element tolerance (accepted, map (mkAtom element) accepted) p
  = Ok (accept tolerance accepted p,
        map (mkAtom element) (accept tolerance accepted p)).
Proof.
  unfold site_step, accept.
  destruct accepted as [|q0 rest] eqn:Eacc.
  - reflexivity.
  - rewrite <- Eacc.
    replace (0 <? length accepted)%nat with true
      by (rewrite Eacc; reflexivity).
    destruct (@amin_defined (map (fun q => sqnorm (vsub q p)) accepted))
      as [m Hm]; [rewrite Eacc; discriminate|].
    rewrite Hm. cbn [bind].
    rewrite (@amin_norm_lt _ m tolerance Hm), existsb_map_compose.
    fold (within tolerance).
    change (fun q => norm_lt (sqnorm (vsub q p)) tolerance)
      with (fun q => within tolerance q p).
    destruct (existsb (fun q => within tolerance q p) accepted);
      [reflexivity|].
    rewrite map_app. reflexivity.
Qed.

(** The position of a site: [center_coordinate + tetra + 0.5*gaos_tetra]. *)
Definition site_position (center tetra gaos_tetra : vec3) : vec3 :=
  vadd (vadd center tetra) (vscale (1 # 2) gaos_tetra).

(** The center of a record as three coordinates. *)
Definition center_vec (center_coordinate : list Q) : vec3 :=
  match as_vec3 center_coordinate with
  | Ok c => c
  | Raise _ => (0, 0, 0)
  end.

(** The sites of one tetrahedron, in the order of the loop. *)
Definition tetra_sites (center : vec3) (octa : Octa) (it : nat * vec3)
  : list vec3 :=
  map (site_position center (snd it)) (nth (fst it) (gaos octa) []).

(** The sites of one center: over the tetrahedra of its template, then
    over the gaos sites of each tetrahedron. *)
Definition octa_sites (center : vec3) (octa : Octa) : list vec3 :=
  flat_map (tetra_sites center octa) (enumerate (atom octa)).

Definition center_sites (typeOcta : dict string Octa) (item : nat * C15Center)
  : list vec3 :=
  match get_center (snd item), get_type (snd item) with
  | Ok center_coordinate, Ok type =>
      match dict_get String.eqb type typeOcta with
      | Some octa => octa_sites (center_vec center_coordinate) octa
      | None => []
      end
  | _, _ => []
  end.

(** All the sites that [build_C15_system] enumerates, in order. *)
Definition site_positions (typeOcta : dict string Octa) (self : C15Builder)
  : list vec3 :=
  flat_map (center_sites typeOcta) (centerC15 self).

Section Refinement.
Variables (element : string) (tolerance : Q).

(** The state of the loops when [accepted] is the list of positions. *)
Definition state_of (accepted : list vec3) : list vec3 * Atoms :=
  (accepted, map (mkAtom element) accepted).

(** The state after the sites [sites] have gone through [accept]. *)
Definition after (sites accepted : list vec3) : list vec3 * Atoms :=
  state_of (fold_left (accept tolerance) sites accepted).

Definition refines {A : Type}
           (body : list vec3 * Atoms -> A -> result (list vec3 * Atoms))
           (f : A -> list vec3) (a : A) : Prop :=
  forall accepted st, body (state_of accepted) a = Ok st ->
                      st = after (f a) accepted.

Definition computes {A : Type}
           (body : list vec3 * Atoms -> A -> result (list vec3 * Atoms))
           (f : A -> list vec3) (a : A) : Prop :=
  forall accepted, body (state_of accepted) a = Ok (after (f a) accepted).

Lemma after_app (l1 l2 accepted : list vec3) :
  after (l1 ++ l2) accepted
  = after l2 (fold_left (accept tolerance) l1 accepted).
Proof.
  unfold after. rewrite fold_left_app. reflexivity.
Qed.

Lemma foldM_refines {A : Type} body (f : A -> list vec3) (l : list A) :
  (forall a, In a l -> refines body f a) ->
  forall accepted st, foldM body l (state_of accepted) = Ok st ->
                      st = after (flat_map f l) accepted.
Proof.
  induction l as [|a l IH]; intros Hbody accepted st H.
  - injection H as <-. reflexivity.
  - simpl in H.
    destruct (body (state_of accepted) a) as [st1|] eqn:E; [|discriminate].
    cbn [bind] in H. apply Hbody in E; [|now left]. subst st1.
    simpl. rewrite after_app. apply IH; [|exact H].
    intros a' Ha'. apply Hbody. now right.
Qed.

Lemma foldM_computes {A : Type} body (f : A -> list vec3) (l : list A) :
  (forall a, In a l -> computes body f a) ->
  forall accepted,
    foldM body l (state_of accepted) = Ok (after (flat_map f l) accepted).
Proof.
  induction l as [|a l IH]; intros Hbody accepted.
  - reflexivity.
  - simpl. rewrite (Hbody a (or_introl eq_refl)). cbn [bind].
    rewrite after_app. apply IH. intros a' Ha'. apply Hbody. now right.
Qed.

Lemma flat_map_single {A B : Type} (f : A -> B) (l : list A) :
  flat_map (fun a => [f a]) l = map f l.
Proof.
  induction l as [|a l IH]; simpl; [reflexivity|]. rewrite IH. reflexivity.
Qed.

Lemma site_step_after (accepted : list vec3) (p : vec3) :
  site_step element tolerance (state_of accepted) p = Ok (after [p] accepted).
Proof. apply site_step_accept. Qed.

Lemma gaos_loop_refines (center_coordinate : list Q) (tetra : vec3)
      (sites : list vec3) (accepted : list vec3) st :
  gaos_loop element tolerance center_coordinate tetra sites
            (state_of accepted) = Ok st ->
  st = after (map (site_position (center_vec center_coordinate) tetra) sites)
             accepted.
Proof.
  unfold gaos_loop. intros H. rewrite <- flat_map_single.
  eapply foldM_refines; [|exact H].
  intros g _ acc st' Hg. unfold center_vec.
  destruct (as_vec3 center_coordinate) as [c|]; [|discriminate].
  cbn [bind] in Hg. unfold site_position.
  rewrite site_step_after in Hg. congruence.
Qed.

Lemma gaos_loop_computes (center_coordinate : list Q) (c tetra : vec3)
      (sites : list vec3) (accepted : list vec3) :
  as_vec3 center_coordinate = Ok c ->
  gaos_loop element tolerance center_coordinate tetra sites
            (state_of accepted)
  = Ok (after (map (site_position c tetra) sites) accepted).
Proof.
  unfold gaos_loop. intros Hc. rewrite <- flat_map_single.
  apply foldM_computes. intros g _ acc. rewrite Hc. cbn [bind].
  apply site_step_after.
Qed.

Lemma tetra_loop_refines (center_coordinate : list Q) (octa : Octa)
      (accepted : list vec3) st :
  tetra_loop element tolerance center_coordinate octa (state_of accepted)
  = Ok st ->
  st = after (octa_sites (center_vec center_coordinate) octa) accepted.
Proof.
  unfold tetra_loop, octa_sites. intros H.
  eapply foldM_refines; [|exact H].
  intros [id_tetra tetra] _ acc st' Hit. unfold tetra_sites. cbn [fst snd].
  destruct (nth_error (gaos octa) id_tetra) as [sites|] eqn:E;
    [|discriminate].
  rewrite (nth_error_nth _ _ _ E). apply gaos_loop_refines. exact Hit.
Qed.

Lemma tetra_loop_computes (center_coordinate : list Q) (c : vec3)
      (octa : Octa) (accepted : list vec3) :
  as_vec3 center_coordinate = Ok c ->
  (length (atom octa) <= length (gaos octa))%nat ->
  tetra_loop element tolerance center_coordinate octa (state_of accepted)
  = Ok (after (octa_sites c octa) accepted).
Proof.
  unfold tetra_loop, octa_sites. intros Hc Hlen.
  apply foldM_computes. intros [id_tetra tetra] Hin acc.
  unfold tetra_sites. cbn [fst snd].
  assert (Hid : (id_tetra < length (gaos octa))%nat).
  { unfold enumerate in Hin. apply in_combine_l in Hin.
    apply in_seq in Hin. lia. }
  destruct (nth_error (gaos octa) id_tetra) as [sites|] eqn:E.
  - rewrite (nth_error_nth _ _ _ E). apply gaos_loop_computes. exact Hc.
  - apply nth_error_None in E. lia.
Qed.

End Refinement.

(** A center whose record, template and coordinates let the loops run. *)
Definition well_formed_item (typeOcta : dict string Octa)
           (item : nat * C15Center) : Prop :=
  exists center_coordinate c type octa,
    get_center (snd item) = Ok center_coordinate /\
    as_vec3 center_coordinate = Ok c /\
    get_type (snd item) = Ok type /\
    dict_get String.eqb type typeOcta = Some octa /\
    (length (atom octa) <= length (gaos octa))%nat.

Section Build.
Variable typeOcta : dict string Octa.
Variables (element : string) (tolerance : Q).

Lemma center_step_refines (item : nat * C15Center) :
  refines element tolerance (center_step typeOcta element tolerance)
          (center_sites typeOcta) item.
Proof.
  intros accepted st H. unfold center_step, center_sites in *.
  destruct (get_center (snd item)) as [cc|]; [|discriminate].
  destruct (get_type (snd item)) as [ty|]; [|discriminate].
  cbn [bind] in H. unfold lookup in H.
  destruct (dict_get String.eqb ty typeOcta) as [octa|]; [|discriminate].
  cbn [bind] in H. apply tetra_loop_refines. exact H.
Qed.

Lemma center_step_computes (item : nat * C15Center) :
  well_formed_item typeOcta item ->
  computes element tolerance (center_step typeOcta element tolerance)
           (center_sites typeOcta) item.
Proof.
  intros [cc [c [ty [octa [Hcc [Hc [Hty [Ho Hlen]]]]]]]] accepted.
  unfold center_step, center_sites, lookup.
  rewrite Hcc, Hty. cbn [bind]. rewrite Ho. cbn [bind].
  unfold center_vec. rewrite Hc.
  apply tetra_loop_computes; assumption.
Qed.

End Build.

Lemma build_refines typeOcta (self : C15Builder) (tolerance : Q) atoms :
  build_C15_system typeOcta self tolerance = Ok atoms ->
  atoms = map (mkAtom (element (dict_param self)))
              (dedup tolerance (site_positions typeOcta self)).
Proof.
  unfold build_C15_system. intros H.
  change (@nil vec3, @nil Atom)
    with (state_of (element (dict_param self)) []) in H.
  destruct (foldM (center_step typeOcta (element (dict_param self)) tolerance)
                  (centerC15 self) (state_of (element (dict_param self)) []))
    as [st|] eqn:E; [|discriminate].
  cbn [bind] in H. injection H as <-.
  apply (foldM_refines (tolerance := tolerance)
                       (f := center_sites typeOcta)) in E.
  - rewrite E. reflexivity.
  - intros item _. apply center_step_refines.
Qed.

Lemma build_computes typeOcta (self : C15Builder) (tolerance : Q) :
  (forall item, In item (centerC15 self) -> well_formed_item typeOcta item) ->
  build_C15_system typeOcta self tolerance
  = Ok (map (mkAtom (element (dict_param self)))
            (dedup tolerance (site_positions typeOcta self))).
Proof.
  intros Hwf. unfold build_C15_system.
  change (@nil vec3, @nil Atom)
    with (state_of (element (dict_param self)) []).
  rewrite (foldM_computes (tolerance := tolerance)
                          (f := center_sites typeOcta)).
  - reflexivity.
  - intros item Hin. apply center_step_computes. apply Hwf. exact Hin.
Qed.

(** *** Accepted positions *)

Lemma within_false_iff (tolerance : Q) (q p : vec3) :
  within tolerance q p = false <->
  ~ (0 < tolerance /\ sqnorm (vsub q p) < tolerance * tolerance).
Proof.
  unfold within, norm_lt. rewrite andb_false_iff.
  split.
  - intros [H|H] [H1 H2].
    + apply Qlt_b_iff in H1. congruence.
    + apply Qlt_b_iff in H2. congruence.
  - intros H. destruct (Qlt_b 0 tolerance) eqn:E1; [|now left].
    destruct (Qlt_b (sqnorm (vsub q p)) (tolerance * tolerance)) eqn:E2;
      [|now right].
    exfalso. apply H. split; apply Qlt_b_iff; assumption.
Qed.

Lemma accept_far (tolerance : Q) (accepted : list vec3) (p : vec3) :
  (forall q, In q accepted -> within tolerance q p = false) ->
  accept tolerance accepted p = accepted ++ [p].
Proof.
  intros H. unfold accept.
  destruct (existsb (fun q => within tolerance q p) accepted) eqn:E;
    [|reflexivity].
  apply existsb_exists in E. destruct E as [q [Hq Hw]].
  rewrite (H q Hq) in Hw. discriminate.
Qed.

Lemma accept_near (tolerance : Q) (accepted : list vec3) (p : vec3) :
  (exists q, In q accepted /\ within tolerance q p = true) ->
  accept tolerance accepted p = accepted.
Proof.
  intros H. unfold accept.
  replace (existsb (fun q => within tolerance q p) accepted) with true;
    [reflexivity|].
  symmetry. apply existsb_exists. exact H.
Qed.

Lemma dedup_snoc (tolerance : Q) (sites : list vec3) (p : vec3) :
  dedup tolerance (sites ++ [p]) = accept tolerance (dedup tolerance sites) p.
Proof.
  unfold dedup. rewrite fold_left_app. reflexivity.
Qed.

Lemma firstn_succ {A : Type} (l : list A) (n : nat) (a : A) :
  nth_error l n = Some a -> firstn (S n) l = firstn n l ++ [a].
Proof.
  revert n. induction l as [|x l IH]; intros [|n] H; try discriminate.
  - injection H as ->. reflexivity.
  - simpl in H. simpl. f_equal. apply IH. exact H.
Qed.

(** The accepted positions are pairwise out of tolerance. *)
Definition separated (tolerance : Q) (accepted : list vec3) : Prop :=
  ForallOrdPairs (fun q1 q2 => within tolerance q1 q2 = false) accepted.

Lemma separated_snoc (tolerance : Q) (accepted : list vec3) (p : vec3) :
  separated tolerance accepted ->
  (forall q, In q accepted -> within tolerance q p = false) ->
  separated tolerance (accepted ++ [p]).
Proof.
  unfold separated. intros Hs Hp.
  induction Hs as [|q l Hq Hl IH]; simpl.
  - constructor; constructor.
  - constructor.
    + apply Forall_app. split; [exact Hq|].
      constructor; [|constructor]. apply Hp. now left.
    + apply IH. intros q' Hq'. apply Hp. now right.
Qed.

Lemma accept_separated (tolerance : Q) (accepted : list vec3) (p : vec3) :
  separated tolerance accepted ->
  separated tolerance (accept tolerance accepted p).
Proof.
  intros Hs. unfold accept.
  destruct (existsb (fun q => within tolerance q p) accepted) eqn:E;
    [exact Hs|].
  apply separated_snoc; [exact Hs|].
  intros q Hq. destruct (within tolerance q p) eqn:Ew; [|reflexivity].
  rewrite <- E. symmetry. apply existsb_exists. eauto.
Qed.

Lemma fold_accept_separated (tolerance : Q) (sites accepted : list vec3) :
  separated tolerance accepted ->
  separated tolerance (fold_left (accept tolerance) sites accepted).
Proof.
  revert accepted. induction sites as [|p sites IH]; intros accepted Hs;
    [exact Hs|].
  simpl. apply IH, accept_separated, Hs.
Qed.

(** C5.  [build_C15_system] returns one atom per accepted position, and
    the accepted positions are those of the sites enumerated over the
    centers, the tetrahedra and the gaos sites, taken in order: a site is
    appended to the accepted list if and only if every position accepted
    before it is out of tolerance of it (its distance to each is at least
    the tolerance), and it is discarded otherwise.  The accepted positions
    are pairwise out of tolerance, and of two sites that coincide within
    the tolerance exactly one is accepted.  The method returns on every
    center set whose records, templates and coordinates are well formed. *)
Theorem build_C15_system_dedup :
  forall (typeOcta : dict string Octa) (self : C15Builder) (tolerance : Q),
    let sites := site_positions typeOcta self in
    (forall atoms,
       build_C15_system typeOcta self tolerance = Ok atoms ->
       atoms = map (mkAtom (element (dict_param self)))
                   (dedup tolerance sites)) /\
    ((forall item, In item (centerC15 self) ->
                   well_formed_item typeOcta item) ->
     exists atoms, build_C15_system typeOcta self tolerance = Ok atoms) /\
    (forall n p, nth_error sites n = Some p ->
       let before := dedup tolerance (firstn n sites) in
       ((forall q, In q before ->
                   ~ (0 < tolerance /\
                      sqnorm (vsub q p) < tolerance * tolerance)) ->
        dedup tolerance (firstn (S n) sites) = before ++ [p]) /\
       ((exists q, In q before /\ 0 < tolerance /\
                   sqnorm (vsub q p) < tolerance * tolerance) ->
        dedup tolerance (firstn (S n) sites) = before)) /\
    separated tolerance (dedup tolerance sites) /\
    (forall p q, sites = [p; q] ->
                 0 < tolerance ->
                 sqnorm (vsub p q) < tolerance * tolerance ->
                 dedup tolerance sites = [p]).
Proof.
  intros typeOcta self tolerance sites.
  split; [intros atoms; apply build_refines|].
  split; [intros Hwf; eexists; apply build_computes, Hwf|].
  split; [|split].
  - intros n p Hn before. rewrite (firstn_succ _ _ Hn), dedup_snoc.
    fold before. split.
    + intros Hfar. apply accept_far. intros q Hq.
      apply within_false_iff. apply Hfar, Hq.
    + intros [q [Hq [Ht Hd]]]. apply accept_near. exists q.
      split; [exact Hq|].
      destruct (within tolerance q p) eqn:E; [reflexivity|].
      apply within_false_iff in E. tauto.
  - apply fold_accept_separated. constructor.
  - intros p q -> Ht Hd. unfold dedup. simpl.
    change (accept tolerance [] p) with [p].
    apply accept_near. exists p. split; [now left|].
    destruct (within tolerance p q) eqn:E; [reflexivity|].
    apply within_false_iff in E. tauto.
Qed.

(** Two templates with one site each, at (1,0,0) and at (0,0,0) from the
    center, and two centers whose sites coincide at (1,0,0): one position
    is accepted, not two. *)
Definition site_ahead : Octa := mkOcta [(0, 0, 0)] [[(2, 0, 0)]] [] [].
Definition site_on_center : Octa := mkOcta [(0, 0, 0)] [[(0, 0, 0)]] [] [].

Definition coinciding_centers : C15Builder :=
  set_centerC15 (new_builder (mkInputs 1 "Fe" 2))
                [(0%nat, new_center [0; 0; 0] "type1");
                 (1%nat, new_center [1; 0; 0] "type2")].

Example coinciding_sites_accepted_once :
  exists x y z,
    build_C15_system [("type1"%string, site_ahead);
                      ("type2"%string, site_on_center)]
                     coinciding_centers default_tolerance
    = Ok [mkAtom "Fe" (x, y, z)] /\
    x == 1 /\ y == 0 /\ z == 0.
Proof.
  eexists. eexists. eexists. split; [vm_compute; reflexivity|].
  repeat split; reflexivity.
Qed.

(** *** [remove_atoms_in_system] *)

(** The removal coordinates of the center map: for each center, its
    position plus each removal offset of the template of its type. *)
Definition removal_coordinates (typeOcta : dict string Octa)
           (self : C15Builder) : list vec3 :=
  flat_map (fun item => match removal_block typeOcta (snd item) with
                        | Ok block => block
                        | Raise _ => []
                        end)
           (centerC15 self).

(** The atom lies within the tolerance of one of the coordinates. *)
Definition near_one_of (tolerance : Q) (coords : list vec3) (a : Atom)
  : bool :=
  existsb (fun c => within tolerance c (position a)) coords.

(** What the method does with the array it has built: the atoms within
    tolerance of a row of [ToRemoveCoordinate] are deleted, the others are
    kept in their order. *)
Section Removal.
Variables (coords : list vec3) (tolerance : Q).
Hypothesis coords_nonempty : coords <> [].

Lemma removal_test (a : Atom) :
  exists m, amin (map (fun c => sqnorm (vsub c (position a))) coords) = Ok m /\
            norm_lt m tolerance = near_one_of tolerance coords a.
Proof.
  destruct (@amin_defined (map (fun c => sqnorm (vsub c (position a))) coords))
    as [m Hm].
  { destruct coords; [congruence|discriminate]. }
  exists m. split; [exact Hm|].
  rewrite (@amin_norm_lt _ m tolerance Hm), existsb_map_compose.
  reflexivity.
Qed.

(** The indices of the atoms of [system] that are near a coordinate, the
    first atom having index [idx]. *)
Definition near_indices (idx : nat) (system : Atoms) : list nat :=
  map fst (filter (fun p => near_one_of tolerance coords (snd p))
                  (combine (seq idx (length system)) system)).

Lemma removal_loop_indices (system : Atoms) :
  forall idx acc,
    removal_loop coords tolerance idx system acc
    = Ok (acc ++ near_indices idx system).
Proof.
  induction system as [|a rest IH]; intros idx acc.
  - unfold near_indices. simpl. rewrite app_nil_r. reflexivity.
  - simpl. destruct (removal_test a) as [m [-> Hm]]. cbn [bind].
    rewrite IH, Hm. unfold near_indices. simpl.
    destruct (near_one_of tolerance coords a); simpl;
      [rewrite <- app_assoc|]; reflexivity.
Qed.

Lemma near_indices_ge (system : Atoms) (idx i : nat) :
  In i (near_indices idx system) -> (idx <= i)%nat.
Proof.
  unfold near_indices. intros H. apply in_map_iff in H.
  destruct H as [[j a] [<- H]]. apply filter_In in H. destruct H as [H _].
  apply in_combine_l in H. apply in_seq in H. simpl. lia.
Qed.

Lemma near_indices_test (system : Atoms) :
  forall idx i a,
    In (i, a) (combine (seq idx (length system)) system) ->
    existsb (Nat.eqb i) (near_indices idx system)
    = near_one_of tolerance coords a.
Proof.
  induction system as [|a0 rest IH]; intros idx i a Hin; [destruct Hin|].
  simpl in Hin. unfold near_indices. simpl.
  fold (near_indices (S idx) rest).
  assert (Hfresh : existsb (Nat.eqb idx) (near_indices (S idx) rest) = false).
  { destruct (existsb (Nat.eqb idx) (near_indices (S idx) rest)) eqn:E;
      [|reflexivity].
    apply existsb_exists in E. destruct E as [j [Hj Ej]].
    apply Nat.eqb_eq in Ej. subst j. apply near_indices_ge in Hj. lia. }
  destruct Hin as [Heq|Hin].
  - injection Heq as <- <-.
    destruct (near_one_of tolerance coords a0); simpl.
    + rewrite Nat.eqb_refl. reflexivity.
    + exact Hfresh.
  - assert (Hi : (S idx <= i)%nat).
    { apply in_combine_l in Hin. apply in_seq in Hin. lia. }
    destruct (near_one_of tolerance coords a0); simpl.
    + replace (i =? idx)%nat with false
        by (symmetry; apply Nat.eqb_neq; lia).
      simpl. apply IH. exact Hin.
    + apply IH. exact Hin.
Qed.

Lemma filter_combine_snd {A B : Type} (P : B -> bool) (l1 : list A)
      (l2 : list B) :
  length l1 = length l2 ->
  map snd (filter (fun p => P (snd p)) (combine l1 l2)) = filter P l2.
Proof.
  revert l2. induction l1 as [|x l1 IH]; intros [|y l2] H;
    try discriminate; [reflexivity|].
  simpl. injection H as H. destruct (P y); simpl; rewrite IH; auto.
Qed.

Lemma delete_near_indices (system : Atoms) :
  delete_indices system (near_indices 0 system)
  = filter (fun a => negb (near_one_of tolerance coords a)) system.
Proof.
  unfold delete_indices, enumerate.
  rewrite (filter_ext_in _
             (fun p => negb (near_one_of tolerance coords (snd p)))).
  - apply (filter_combine_snd
             (fun a => negb (near_one_of tolerance coords a))).
    apply length_seq.
  - intros [i a] Hin. simpl. f_equal. apply near_indices_test. exact Hin.
Qed.

End Removal.

Lemma remove_atoms_filter typeOcta (self : C15Builder) (system : Atoms)
      (tolerance : Q) (coords : list vec3) :
  ToRemoveCoordinate typeOcta self = Ok coords -> coords <> [] ->
  remove_atoms_in_system typeOcta self system tolerance
  = Ok (filter (fun a => negb (near_one_of tolerance coords a)) system).
Proof.
  intros Hc Hne. unfold remove_atoms_in_system. rewrite Hc. cbn [bind].
  rewrite (removal_loop_indices tolerance Hne). cbn [bind app].
  rewrite delete_near_indices. reflexivity.
Qed.

(** A template whose six removal offsets are the vertices of an
    octahedron. *)
Definition octahedron : Octa :=
  mkOcta [] []
         [(1, 0, 0); (-1 # 1, 0, 0); (0, 1, 0);
          (0, -1 # 1, 0); (0, 0, 1); (0, 0, -1 # 1)]
         [].

Definition octahedron_table : dict string Octa :=
  [("type1"%string, octahedron)].

(** Two centers of that type, at (0,0,0) and (10,10,10). *)
Definition two_centers : C15Builder :=
  set_centerC15 (new_builder (mkInputs 1 "Fe" 2))
                [(0%nat, new_center [0; 0; 0] "type1");
                 (1%nat, new_center [10; 10; 10] "type1")].

(** An atom on a removal coordinate of the first center, and an atom far
    from every removal coordinate. *)
Definition on_removal_site : Atom := mkAtom "Fe" (1, 0, 0).
Definition off_removal_sites : Atom := mkAtom "Fe" (1, 0, 10).

(** C7, on the code.  With the octahedron template and the two centers,
    the array built by [reshape((3, 12)).T] mixes the coordinates of the
    removal sites: (1,0,10) is one of its rows, (1,0,0) is not.  The atom
    at (1,0,0), which lies on a removal coordinate, is kept, and the atom
    at (1,0,10), which lies within tolerance of no removal coordinate, is
    removed. *)
Theorem remove_atoms_mixes_coordinates :
  In (1, 0, 0) (removal_coordinates octahedron_table two_centers) /\
  near_one_of default_tolerance
              (removal_coordinates octahedron_table two_centers)
              off_removal_sites = false /\
  ToRemoveCoordinate octahedron_table two_centers
  = Ok [(1, 0, 10); (0, 0, 11); (0, 1, 10); (-1 # 1, 0, 10);
        (0, 0, 9); (0, -1 # 1, 10); (0, 11, 10); (1, 10, 10);
        (0, 10, 11); (0, 9, 10); (-1 # 1, 10, 10); (0, 10, 9)] /\
  remove_atoms_in_system octahedron_table two_centers
                         [on_removal_site; off_removal_sites]
                         default_tolerance
  = Ok [on_removal_site].
Proof.
  split; [now left|].
  split; [vm_compute; reflexivity|].
  split; vm_compute; reflexivity.
Qed.

(** The same two atoms when the removal coordinates are the ones of the
    centers: the first is within tolerance, the second is not. *)
Lemma removal_sites_expected :
  map (near_one_of default_tolerance
                   (removal_coordinates octahedron_table two_centers))
      [on_removal_site; off_removal_sites]
  = [true; false].
Proof. vm_compute. reflexivity. Qed.

End C15Facts.

(** ** The rescaling factor *)

Module RescaleFacts.
Import Reals Lra Rescale.
Local Open Scope R_scope.

Lemma exponent_not_third : exponent <> 1 / 3.
Proof. unfold exponent. lra. Qed.

Lemma ln_nonzero (r : R) : 0 < r -> r <> 1 -> ln r <> 0.
Proof.
  intros Hpos Hne H. apply Hne. apply ln_inv; [exact Hpos|lra|].
  rewrite ln_1. exact H.
Qed.

Lemma Rpower_exponent_inj (r a b : R) :
  0 < r -> r <> 1 -> Rpower r a = Rpower r b -> a = b.
Proof.
  intros Hpos Hne H. unfold Rpower in H. apply exp_inv in H.
  pose proof (ln_nonzero Hpos Hne) as Hln.
  apply Rmult_eq_reg_r with (ln r); assumption.
Qed.

Lemma cube_root_cubed (r : R) : 0 < r -> Rpower r (1 / 3) ^ 3 = r.
Proof.
  intros Hpos. rewrite <- Rpower_pow by apply exp_pos.
  rewrite Rpower_mult. replace (1 / 3 * INR 3) with 1 by (simpl; lra).
  apply Rpower_1. exact Hpos.
Qed.

Lemma ratio_pos (n_system n_bulk : nat) :
  (0 < n_system)%nat -> (0 < n_bulk)%nat -> 0 < INR n_system / INR n_bulk.
Proof.
  intros Hs Hb. apply Rdiv_lt_0_compat; apply lt_0_INR; assumption.
Qed.

Lemma ratio_not_1 (n_system n_bulk : nat) :
  (0 < n_bulk)%nat -> n_system <> n_bulk -> INR n_system / INR n_bulk <> 1.
Proof.
  intros Hb Hne H. apply Hne. apply INR_eq.
  apply lt_0_INR in Hb.
  apply Rmult_eq_reg_r with (/ INR n_bulk).
  - rewrite Rinv_r by lra. exact H.
  - apply Rinv_neq_0_compat. lra.
Qed.

(** Whenever the merged system and the bulk differ in their number of
    atoms, the factor of the source is not the cube root of their ratio. *)
Lemma lenght_scale_differs (n_system n_bulk : nat) :
  (0 < n_system)%nat -> (0 < n_bulk)%nat -> n_system <> n_bulk ->
  lenght_scale n_system n_bulk <> cube_root_scale n_system n_bulk /\
  lenght_scale n_system n_bulk ^ 3 <> INR n_system / INR n_bulk.
Proof.
  intros Hs Hb Hne.
  pose proof (ratio_pos Hs Hb) as Hpos.
  pose proof (ratio_not_1 Hb Hne) as Hn1.
  assert (Hd : lenght_scale n_system n_bulk
               <> cube_root_scale n_system n_bulk).
  { unfold lenght_scale, cube_root_scale. intros H.
    apply (Rpower_exponent_inj _ _ Hpos Hn1) in H.
    exact (exponent_not_third H). }
  split; [exact Hd|].
  intros H. apply Hd. unfold lenght_scale, cube_root_scale in *.
  rewrite <- Rpower_pow in H by apply exp_pos.
  rewrite Rpower_mult in H.
  rewrite <- (Rpower_1 (INR n_system / INR n_bulk) Hpos) in H at 2.
  apply (Rpower_exponent_inj _ _ Hpos Hn1) in H.
  exfalso. unfold exponent in H. simpl in H. lra.
Qed.

(** C9, on the code.  For a bulk of 128 atoms and a merged system of 130
    atoms, the factor [np.power(130/128, 0.3333)] of the source is not the
    cube root of the ratio: its cube differs from 130/128, whereas the
    factor taken with the exponent 1/3 has cube 130/128.  The exponent of
    the source is not 1/3. *)
Theorem lenght_scale_is_not_the_cube_root :
  exponent <> 1 / 3 /\
  lenght_scale 130 128 <> cube_root_scale 130 128 /\
  lenght_scale 130 128 ^ 3 <> INR 130 / INR 128 /\
  cube_root_scale 130 128 ^ 3 = INR 130 / INR 128.
Proof.
  split; [exact exponent_not_third|].
  destruct (@lenght_scale_differs 130 128) as [H1 H2]; try lia.
  split; [exact H1|]. split; [exact H2|].
  apply cube_root_cubed. apply ratio_pos; lia.
Qed.

End RescaleFacts.

(** * Further properties *)

(** ** The histogram: defaults, degenerate inputs and repeated sampling *)

Module HistogramMore.
Import Num NumFacts Histogram HistogramFacts.
Local Open Scope Q_scope.








(** *** What sampling changes *)

(** [b'] is [b] after some ids were popped from the end of its
    [list_id]; nothing else differs. *)
Definition shrinks (b b' : Bin) : Prop :=
  min b' = min b /\ max b' = max b /\ list_norm b' = list_norm b /\
  density b' = density b /\ exists popped, list_id b = list_id b' ++ popped.

Lemma shrinks_refl (b : Bin) : shrinks b b.
Proof.
  unfold shrinks. repeat split. exists []. rewrite app_nil_r. reflexivity.
Qed.

Lemma shrinks_trans (b1 b2 b3 : Bin) :
  shrinks b1 b2 -> shrinks b2 b3 -> shrinks b1 b3.
Proof.
  intros [H1 [H2 [H3 [H4 [p Hp]]]]] [K1 [K2 [K3 [K4 [q Hq]]]]].
  unfold shrinks. repeat split; try congruence.
  exists (q ++ p). rewrite Hp, Hq, app_assoc. reflexivity.
Qed.

Lemma Forall2_shrinks_refl (l : list Bin) : Forall2 shrinks l l.
Proof.
  induction l; constructor; auto using shrinks_refl.
Qed.

Lemma Forall2_shrinks_trans (l1 l2 l3 : list Bin) :
  Forall2 shrinks l1 l2 -> Forall2 shrinks l2 l3 -> Forall2 shrinks l1 l3.
Proof.
  intros H. revert l3. induction H as [|b1 b2 l1 l2 Hb Hl IH]; intros l3 H3.
  - inversion H3. constructor.
  - inversion H3 as [|? b3 ? l3' Hb' Hl']; subst.
    constructor; [eapply shrinks_trans; eauto|apply IH; exact Hl'].
Qed.

Lemma selection_loop_shrinks (sel : list nat) :
  forall bins acc bins' ids,
    selection_loop bins sel acc = Ok (bins', ids) ->
    Forall2 shrinks bins bins'.
Proof.
  induction sel as [|s rest IH]; intros bins acc bins' ids H.
  - simpl in H. injection H as <- _. apply Forall2_shrinks_refl.
  - simpl in H. destruct (nth_error bins s) as [b|] eqn:Hb; [|discriminate].
    destruct (0 <? length (list_id b))%nat eqn:Hlen; [|eapply IH; eauto].
    apply IH in H.
    set (b' := mkBin (min b) (max b) (list_norm b)
                     (removelast (list_id b)) (density b)) in *.
    destruct (@set_nth_split _ bins s b b' Hb) as [l1 [l2 [E [_ E']]]].
    rewrite E' in H. apply Forall2_shrinks_trans with (2 := H).
    rewrite E. apply Forall2_app; [apply Forall2_shrinks_refl|].
    constructor; [|apply Forall2_shrinks_refl].
    unfold shrinks, b'. cbn. repeat split.
    exists [last (list_id b) 0%nat]. apply app_removelast_last.
    apply Nat.ltb_lt in Hlen. destruct (list_id b); [simpl in Hlen; lia|].
    discriminate.
Qed.

Lemma histogram_sample_fields h k sel h' rows :
  histogram_sample h k sel = Ok (h', rows) ->
  descriptors h' = descriptors h /\ nb_bin h' = nb_bin h /\
  id_list h' = id_list h /\ array_norm_square h' = array_norm_square h /\
  min_dis h' = min_dis h /\ max_dis h' = max_dis h.
Proof.
  unfold histogram_sample. intros H.
  destruct (histogram_select h sel) as [r|]; [|discriminate].
  cbn [bind] in H.
  destruct (take_rows (descriptors h) (snd r)); [|discriminate].
  injection H as <- _. cbn. auto 10.
Qed.

(** X2.  A call of [histogram_sample] that returns changes nothing but the
    [list_id] of the bins: each bin keeps its bounds, its [list_norm] and
    its density and loses ids from the end of its [list_id]; the ids
    selected, together with the ids left in the bins, are the ids that were
    in the bins before the call, so that the bins lose exactly as many ids
    as rows are returned. *)
Theorem histogram_sample_moves_ids :
  forall (h : NormDescriptorHistogram) (k : nat) (sel : list nat)
         (h' : NormDescriptorHistogram) (rows : list (list Q)),
    histogram_sample h k sel = Ok (h', rows) ->
    exists ids,
      histogram_select h sel = Ok (bin h', ids) /\
      Permutation (ids ++ all_ids (bin h')) (all_ids (bin h)) /\
      (length (all_ids (bin h')) + length rows
       = length (all_ids (bin h)))%nat /\
      Forall2 shrinks (bin h) (bin h') /\
      descriptors h' = descriptors h /\ nb_bin h' = nb_bin h /\
      id_list h' = id_list h /\ array_norm_square h' = array_norm_square h /\
      min_dis h' = min_dis h /\ max_dis h' = max_dis h.
Proof.
  intros h k sel h' rows H.
  pose proof (histogram_sample_fields _ _ _ H) as Hf.
  apply histogram_sample_Ok in H.
  destruct H as [ids [Hselect [Hloop [Hrows _]]]].
  exists ids. split; [exact Hselect|].
  pose proof (selection_loop_spec _ _ _ Hloop) as [Hp _]. simpl in Hp.
  split; [exact Hp|]. split.
  - destruct (take_rows_length _ _ Hrows) as [Hl _]. rewrite Hl.
    apply Permutation_length in Hp. rewrite length_app in Hp. lia.
  - split; [eapply selection_loop_shrinks; eauto|exact Hf].
Qed.

(** The theorem on [sparse_hist], drawing the bins of keys 0 and 3. *)
Lemma histogram_sample_moves_ids_witness :
  exists h' rows ids,
    histogram_sample sparse_hist 2 [0; 3]%nat = Ok (h', rows) /\
    Permutation (ids ++ all_ids (bin h')) (all_ids (bin sparse_hist)).
Proof.
  destruct (histogram_sample sparse_hist 2 [0; 3]%nat) as [[h' rows]|]
    eqn:E; [|vm_compute in E; discriminate].
  destruct (histogram_sample_moves_ids _ _ _ E) as [ids [_ [Hp _]]].
  exists h', rows, ids. split; [reflexivity|exact Hp].
Defined.

Lemma NoDup_app_apart {A : Type} (l1 l2 : list A) (x : A) :
  NoDup (l1 ++ l2) -> In x l1 -> In x l2 -> False.
Proof.
  induction l1 as [|a l1 IH]; intros Hnd H1 H2; [destruct H1|].
  simpl in Hnd. apply NoDup_cons_iff in Hnd. destruct Hnd as [Ha Hnd].
  destruct H1 as [->|H1]; [|exact (IH Hnd H1 H2)].
  apply Ha. apply in_or_app. now right.
Qed.

(** X3.  Sampling is without replacement across calls: on a histogram
    built by [__init__] and sampled any number of times, no id selected by
    a call of [histogram_sample] is selected again by the next call. *)
Theorem successive_samples_are_disjoint :
  forall (shuffle : nat -> list nat -> list nat)
         (h h1 h2 : NormDescriptorHistogram) (k1 k2 : nat)
         (sel1 sel2 : list nat) (rows1 rows2 : list (list Q))
         (bins1 bins2 : list Bin) (ids1 ids2 : list nat),
    (forall k l, Permutation l (shuffle k l)) ->
    reachable shuffle h ->
    histogram_sample h k1 sel1 = Ok (h1, rows1) ->
    histogram_select h sel1 = Ok (bins1, ids1) ->
    histogram_sample h1 k2 sel2 = Ok (h2, rows2) ->
    histogram_select h1 sel2 = Ok (bins2, ids2) ->
    NoDup (ids1 ++ ids2) /\ forall i, In i ids1 -> ~ In i ids2.
Proof.
  intros shuffle h h1 h2 k1 k2 sel1 sel2 rows1 rows2 bins1 bins2 ids1 ids2
         Hperm Hr H1 S1 H2 S2.
  pose proof (reachable_sound Hperm Hr) as Hs.
  apply histogram_sample_Ok in H1. destruct H1 as [i1 [S1' [L1 _]]].
  apply histogram_sample_Ok in H2. destruct H2 as [i2 [S2' [L2 _]]].
  rewrite S1 in S1'. injection S1' as -> <-.
  rewrite S2 in S2'. injection S2' as -> <-.
  apply selection_loop_spec in L1, L2.
  destruct L1 as [P1 _]. destruct L2 as [P2 _]. simpl in P1, P2.
  assert (Hnd : NoDup (ids1 ++ ids2 ++ all_ids (bin h2))).
  { apply (Permutation_NoDup (l := all_ids (bin h))); [|apply (s_nodup Hs)].
    symmetry. etransitivity; [|exact P1].
    apply Permutation_app_head. exact P2. }
  rewrite app_assoc in Hnd. apply NoDup_app_remove_r in Hnd.
  split; [exact Hnd|].
  intros i Hi1 Hi2. exact (NoDup_app_apart _ _ i Hnd Hi1 Hi2).
Qed.

(** The theorem on [sparse_hist]: two calls drawing the bin of key 0. *)
Lemma successive_samples_witness :
  exists h1 rows1 bins1 ids1 h2 rows2 bins2 ids2,
    histogram_sample sparse_hist 1 [0%nat] = Ok (h1, rows1) /\
    histogram_select sparse_hist [0%nat] = Ok (bins1, ids1) /\
    histogram_sample h1 1 [0%nat] = Ok (h2, rows2) /\
    histogram_select h1 [0%nat] = Ok (bins2, ids2) /\
    NoDup (ids1 ++ ids2).
Proof.
  do 8 eexists.
  split; [vm_compute; reflexivity|]. split; [vm_compute; reflexivity|].
  split; [vm_compute; reflexivity|]. split; [vm_compute; reflexivity|].
  refine (proj1 (@successive_samples_are_disjoint (fun _ l => l)
                   sparse_hist _ _ 1%nat 1%nat [0%nat] [0%nat] _ _ _ _ _ _
                   (fun _ l => Permutation_refl l) _ _ _ _ _)).
  - apply reach_init with (list_atoms := sparse_pool) (nb := Some 4%Z).
    vm_compute. reflexivity.
  - vm_compute. reflexivity.
  - vm_compute. reflexivity.
  - vm_compute. reflexivity.
  - vm_compute. reflexivity.
Defined.

(** *** The atom of minimal norm *)

Lemma lower_ge_min (mn inc : Q) (k : nat) : 0 <= inc -> mn <= lower mn inc k.
Proof.
  intros Hinc. pose proof (@lower_mono mn inc 0 k Hinc (Nat.le_0_l k)) as H.
  unfold lower at 1 in H. change (of_nat 0) with 0 in H. lra.
Qed.

(** The binned ids are fewer than the pool: no bin selects an entry that
    holds the minimum. *)
Lemma selected_count (norms : list Q) (mn inc : Q) (m : nat) :
  amin norms = Ok mn -> 0 <= inc ->
  (length (concat (map (selected norms mn inc) (seq 0 m))) + 1
   <= length norms)%nat.
Proof.
  intros Hmin Hinc. destruct (amin_spec _ Hmin) as [Hin _].
  apply In_nth_error in Hin. destruct Hin as [i0 Hi0].
  assert (Hi0lt : (i0 < length norms)%nat)
    by (apply nth_error_Some; congruence).
  rewrite Nat.add_1_r.
  change (S (length (concat (map (selected norms mn inc) (seq 0 m)))))
    with (length (i0 :: concat (map (selected norms mn inc) (seq 0 m)))).
  rewrite <- (length_seq (length norms) 0).
  apply NoDup_incl_length.
  - constructor; [|apply selected_NoDup; exact Hinc].
    intros H. apply in_concat in H. destruct H as [ids [Hids Hi]].
    apply in_map_iff in Hids. destruct Hids as [k [<- _]].
    apply In_select_seq in Hi. destruct Hi as [_ [v [Hv Hm]]].
    rewrite Nat.sub_0_r in Hv. assert (v = mn) by congruence. subst v.
    apply mask_bin_iff in Hm. cbn in Hm.
    pose proof (@lower_ge_min mn inc k Hinc). lra.
  - intros x [<-|Hx]; apply in_seq; [lia|].
    apply selected_lt in Hx. lia.
Qed.

(** What holds of a histogram besides [sound]: the ids in the bins are
    those of entries above the global minimum, which some entry holds and
    no entry exceeds the global maximum; every probability given to
    [np.random.choice] is at least [1/(N nb_bin)]. *)
Record above_min (h : NormDescriptorHistogram) : Prop := mkAbove {
  am_len : length (array_norm_square h) = length (descriptors h);
  am_in : forall i, In i (all_ids (bin h)) ->
            exists v, nth_error (array_norm_square h) i = Some v /\
                      min_dis h < v;
  am_min : exists i0, nth_error (array_norm_square h) i0 = Some (min_dis h);
  am_max : forall v, In v (array_norm_square h) -> v <= max_dis h;
  am_dens : (1 <= nb_bin h)%Z ->
            forall p, densities (bin h) = Ok p ->
              Forall (fun d => 1 / (of_nat (length (descriptors h))
                                    * inject_Z (nb_bin h)) <= d) p
}.

Section AboveMin.
Variable shuffle : nat -> list nat -> list nat.
Hypothesis shuffle_perm : forall k l, Permutation l (shuffle k l).

Lemma all_ids_member (h : NormDescriptorHistogram) (i : nat) :
  In i (all_ids (bin h)) -> exists k, member h i k.
Proof.
  intros H. apply in_concat in H. destruct H as [ids [Hids Hi]].
  apply in_map_iff in Hids. destruct Hids as [b [<- Hb]].
  apply In_nth_error in Hb. destruct Hb as [k Hk].
  exists k, b. auto.
Qed.

Lemma built_above_min list_atoms nb h :
  built shuffle list_atoms nb h -> above_min h.
Proof.
  intros Hb. destruct (b_nb Hb) as [Enb Hnz].
  pose proof (norms_length Hb) as Hlen.
  assert (Hpos : (0 < length (descriptors h))%nat).
  { pose proof (b_nonempty Hb). destruct (descriptors h);
      [congruence|simpl; lia]. }
  constructor.
  - exact Hlen.
  - intros i Hi. apply all_ids_member in Hi. destruct Hi as [k Hm].
    apply (member_iff shuffle_perm Hb) in Hm.
    destruct Hm as [Hk [v [Hv [L _]]]]. exists v. split; [exact Hv|].
    assert (Hnb : (1 <= nb)%Z) by lia.
    pose proof (@lower_ge_min (min_dis h)
                  ((max_dis h - min_dis h) / inject_Z nb) k
                  (inc_nonneg Hb Hnb)).
    lra.
  - destruct (amin_spec _ (b_min Hb)) as [Hin _].
    apply In_nth_error in Hin. exact Hin.
  - destruct (amax_spec _ (b_max Hb)) as [_ Hle]. exact Hle.
  - rewrite Enb. intros Hnb p Hp. rewrite (b_bins Hb) in Hp. cbv zeta in Hp.
    rewrite densities_closed in Hp. injection Hp as <-.
    apply Forall_forall. intros d Hd. apply in_map_iff in Hd.
    destruct Hd as [k [<- _]].
    set (n := length (descriptors h)) in *.
    set (inc := (max_dis h - min_dis h) / inject_Z nb).
    pose proof (raw_density_nonneg (array_norm_square h) (min_dis h) inc n k)
      as Hraw.
    pose proof (@raw_density_sum (array_norm_square h) (min_dis h) inc n
                  (range nb) Hpos) as Hsum.
    pose proof (@selected_count (array_norm_square h) (min_dis h) inc
                  (Z.to_nat nb) (b_min Hb) (inc_nonneg Hb Hnb)) as Hcount.
    rewrite Hlen in Hcount. fold n in Hcount.
    apply of_nat_le in Hcount. rewrite of_nat_add in Hcount.
    change (of_nat 1) with 1 in Hcount.
    unfold qsum in Hsum. unfold range in *.
    set (total := of_nat (length (concat (map (selected (array_norm_square h)
                     (min_dis h) inc) (seq 0 (Z.to_nat nb)))))) in *.
    rewrite Hsum.
    assert (HN : 0 < of_nat n) by (apply of_nat_pos; exact Hpos).
    assert (HB : 0 < inject_Z nb) by (unfold Qlt; simpl; lia).
    assert (Hmiss : 1 / (of_nat n * inject_Z nb)
                    <= (1 - total / of_nat n) / inject_Z nb).
    { apply Qle_shift_div_l; [exact HB|].
      setoid_replace (1 / (of_nat n * inject_Z nb) * inject_Z nb)
        with (1 / of_nat n) by (field; split; lra).
      apply Qle_shift_div_r; [exact HN|].
      setoid_replace ((1 - total / of_nat n) * of_nat n)
        with (of_nat n - total) by (field; lra).
      lra. }
    lra.
Qed.

Lemma reachable_above_min h : reachable shuffle h -> above_min h.
Proof.
  intros Hr. induction Hr as [la nb h Hinit|h k sel h' rows Hr IH Hk Hs].
  - eapply built_above_min. apply init_built. exact Hinit.
  - pose proof (histogram_sample_fields _ _ _ Hs)
      as [Ed [En [Ei [Ea [Emin Emax]]]]].
    apply histogram_sample_Ok in Hs.
    destruct Hs as [ids [_ [Hloop _]]].
    apply selection_loop_spec in Hloop. destruct Hloop as [Hp [Hdens _]].
    simpl in Hp.
    constructor; rewrite ?Ea, ?Ed, ?Emin, ?Emax, ?En.
    + apply (am_len IH).
    + intros i Hi. apply (am_in IH). apply (Permutation_in _ Hp).
      apply in_or_app. now right.
    + apply (am_min IH).
    + apply (am_max IH).
    + intros Hnb p Hpd. apply (am_dens IH Hnb).
      rewrite <- Hpd. symmetry. apply densities_ext. exact Hdens.
Qed.

(** The ids selected by a call: above the minimum, distinct, in the pool,
    and with them not the id of an entry that holds the minimum. *)
Lemma selected_ids_above_min h sel bins' ids :
  reachable shuffle h ->
  selection_loop (bin h) sel [] = Ok (bins', ids) ->
  (forall i, In i ids ->
     exists v, nth_error (array_norm_square h) i = Some v /\
               min_dis h < v /\ v <= max_dis h) /\
  (length ids < length (descriptors h))%nat.
Proof.
  intros Hr Hloop.
  pose proof (reachable_sound shuffle_perm Hr) as Hs.
  pose proof (reachable_above_min Hr) as Ha.
  apply selection_loop_spec in Hloop. destruct Hloop as [Hp _]. simpl in Hp.
  assert (Habove : forall i, In i ids ->
            exists v, nth_error (array_norm_square h) i = Some v /\
                      min_dis h < v /\ v <= max_dis h).
  { intros i Hi. destruct (am_in Ha i) as [v [Hv Hlt]].
    - apply (Permutation_in _ Hp). apply in_or_app. now left.
    - exists v. split; [exact Hv|]. split; [exact Hlt|].
      apply (am_max Ha). eapply nth_error_In; eauto. }
  split; [exact Habove|].
  destruct (am_min Ha) as [i0 Hi0].
  assert (Hi0lt : (i0 < length (descriptors h))%nat).
  { rewrite <- (am_len Ha). apply nth_error_Some. congruence. }
  assert (Hnd : NoDup ids).
  { apply NoDup_app_remove_r with (all_ids bins').
    apply (Permutation_NoDup (Permutation_sym Hp)), (s_nodup Hs). }
  assert (H : (length (i0 :: ids)
               <= length (seq 0 (length (descriptors h))))%nat).
  { apply NoDup_incl_length.
    - constructor; [|exact Hnd]. intros Hin.
      destruct (Habove i0 Hin) as [v [Hv [Hlt _]]].
      assert (v = min_dis h) by congruence. subst v. lra.
    - intros x [<-|Hx]; [apply in_seq; lia|].
      rewrite <- (s_ids Hs). apply (s_incl Hs).
      apply (Permutation_in _ Hp). apply in_or_app. now left. }
  rewrite length_seq in H. simpl in H. lia.
Qed.

End AboveMin.

Lemma reachable_norms shuffle h :
  reachable shuffle h ->
  array_norm_square h = map norm_square (descriptors h) /\
  amin (array_norm_square h) = Ok (min_dis h).
Proof.
  intros Hr. induction Hr as [la nb h Hinit|h k sel h' rows Hr IH Hk Hs].
  - apply init_built in Hinit. split; [apply (b_norms Hinit)|].
    apply (b_min Hinit).
  - destruct (histogram_sample_fields _ _ _ Hs)
      as [Ed [_ [_ [Ea [Emin _]]]]].
    rewrite Ea, Ed, Emin. exact IH.
Qed.

(** X4.  The atom of minimal squared norm is never sampled: on a histogram
    built by [__init__] and sampled any number of times, every descriptor
    returned by [histogram_sample] has a squared norm strictly above the
    minimum over the pool, and the sample is smaller than the pool
    whatever the number of draws. *)
Theorem histogram_sample_skips_minimum :
  forall (shuffle : nat -> list nat -> list nat)
         (h : NormDescriptorHistogram) (k : nat) (sel : list nat)
         (h' : NormDescriptorHistogram) (rows : list (list Q)),
    (forall k l, Permutation l (shuffle k l)) ->
    reachable shuffle h ->
    histogram_sample h k sel = Ok (h', rows) ->
    amin (map norm_square (descriptors h)) = Ok (min_dis h) /\
    Forall (fun row => In row (descriptors h) /\
                       min_dis h < norm_square row) rows /\
    (length rows < length (descriptors h))%nat.
Proof.
  intros shuffle h k sel h' rows Hperm Hr Hs.
  destruct (reachable_norms Hr) as [Enorms Hmin].
  split; [rewrite <- Enorms; exact Hmin|].
  apply histogram_sample_Ok in Hs.
  destruct Hs as [ids [_ [Hloop [Hrows _]]]].
  destruct (selected_ids_above_min Hperm sel Hr Hloop) as [Habove Hlt].
  destruct (take_rows_length _ _ Hrows) as [Hl Hm].
  split; [|rewrite Hl; exact Hlt].
  rewrite Hm. apply Forall_forall. intros row Hrow.
  apply in_map_iff in Hrow. destruct Hrow as [i [<- Hi]].
  destruct (Habove i Hi) as [v [Hv [Hgt _]]].
  rewrite Enorms, nth_error_map in Hv.
  destruct (nth_error (descriptors h) i) as [row|] eqn:Ei; [|discriminate].
  simpl in Hv. injection Hv as <-.
  rewrite (nth_error_nth _ _ _ Ei).
  split; [eapply nth_error_In; eauto|exact Hgt].
Qed.

(** The theorem on [sparse_hist]: three draws on the bin of key 0, which
    holds one id, return one row although the pool has three atoms. *)
Lemma histogram_sample_skips_minimum_witness :
  exists h' rows,
    histogram_sample sparse_hist 3 [0; 0; 0]%nat = Ok (h', rows) /\
    Forall (fun row => In row (descriptors sparse_hist) /\
                       min_dis sparse_hist < norm_square row) rows.
Proof.
  destruct (histogram_sample sparse_hist 3 [0; 0; 0]%nat) as [[h' rows]|]
    eqn:E; [|vm_compute in E; discriminate].
  exists h', rows. split; [reflexivity|].
  refine (proj1 (proj2 (@histogram_sample_skips_minimum (fun _ l => l)
                          sparse_hist 3%nat [0; 0; 0]%nat h' rows
                          (fun _ l => Permutation_refl l) _ E))).
  apply reach_init with (list_atoms := sparse_pool) (nb := Some 4%Z).
  vm_compute. reflexivity.
Defined.

(** X5.  A pool with a single distinct squared norm (the global maximum
    equals the global minimum) gives a histogram whose bins are all empty:
    every call of [histogram_sample] that returns, returns no row. *)
Theorem constant_pool_samples_nothing :
  forall (shuffle : nat -> list nat -> list nat)
         (h : NormDescriptorHistogram) (k : nat) (sel : list nat)
         (h' : NormDescriptorHistogram) (rows : list (list Q)),
    (forall k l, Permutation l (shuffle k l)) ->
    reachable shuffle h ->
    max_dis h == min_dis h ->
    all_ids (bin h) = [] /\
    (histogram_sample h k sel = Ok (h', rows) -> rows = []).
Proof.
  intros shuffle h k sel h' rows Hperm Hr Heq.
  pose proof (reachable_above_min Hperm Hr) as Ha.
  assert (Hnone : all_ids (bin h) = []).
  { destruct (all_ids (bin h)) as [|i l] eqn:E; [reflexivity|].
    destruct (am_in Ha i) as [v [Hv Hgt]]; [rewrite E; now left|].
    pose proof (am_max Ha v (nth_error_In _ _ Hv)). lra. }
  split; [exact Hnone|]. intros Hs.
  apply histogram_sample_Ok in Hs.
  destruct Hs as [ids [_ [Hloop [Hrows _]]]].
  apply selection_loop_spec in Hloop. destruct Hloop as [Hp _].
  simpl in Hp. rewrite Hnone in Hp.
  apply Permutation_sym, Permutation_nil in Hp.
  apply app_eq_nil in Hp. destruct Hp as [-> _].
  injection Hrows as <-. reflexivity.
Qed.

(** A pool of three atoms with the same squared norm, in two bins. *)
Definition constant_pool : list Atoms := [[[1]; [1]; [-1 # 1]]].

Definition constant_hist : NormDescriptorHistogram :=
  Eval vm_compute in
    match init (fun _ l => l) constant_pool (Some 2%Z) with
    | Ok h => h
    | Raise _ => mkHist [] 0 [] [] [] 0 0
    end.

(** The theorem on [constant_hist]: two draws, no row. *)
Lemma constant_pool_witness :
  init (fun _ l => l) constant_pool (Some 2%Z) = Ok constant_hist /\
  exists h', histogram_sample constant_hist 2 [0; 1]%nat = Ok (h', []).
Proof.
  split; [vm_compute; reflexivity|].
  destruct (histogram_sample constant_hist 2 [0; 1]%nat) as [[h' rows]|]
    eqn:E; [|vm_compute in E; discriminate].
  exists h'. f_equal. f_equal.
  refine (proj2 (@constant_pool_samples_nothing (fun _ l => l)
                   constant_hist 2%nat [0; 1]%nat h' rows
                   (fun _ l => Permutation_refl l) _ _) E).
  - apply reach_init with (list_atoms := constant_pool) (nb := Some 2%Z).
    vm_compute. reflexivity.
  - reflexivity.
Defined.



End HistogramMore.

(** ** The C15 builder: the parser, the supercell and the coordinates *)

Module C15More.
Import Num NumFacts C15 C15Facts.
Local Open Scope Q_scope.

(** *** Centers and types are paired by position *)

Lemma dict_get_fresh {V : Type} (s : nat) (P : dict nat V) :
  (forall k, In k (dict_keys P) -> (k < s)%nat) ->
  dict_get Nat.eqb s P = None.
Proof.
  induction P as [|[k v] P IH]; intros H; [reflexivity|].
  simpl. destruct (Nat.eqb_spec s k) as [->|_].
  - specialize (H k (or_introl eq_refl)). lia.
  - apply IH. intros k' Hk'. apply H. now right.
Qed.

Lemma dict_set_fresh {V : Type} (s : nat) (v : V) (P : dict nat V) :
  (forall k, In k (dict_keys P) -> (k < s)%nat) ->
  dict_set Nat.eqb s v P = P ++ [(s, v)].
Proof.
  induction P as [|[k w] P IH]; intros H; [reflexivity|].
  simpl. destruct (Nat.eqb_spec s k) as [->|_].
  - specialize (H k (or_introl eq_refl)). lia.
  - rewrite IH; [reflexivity|]. intros k' Hk'. apply H. now right.
Qed.

Lemma dict_get_middle {V : Type} (s : nat) (v : V) (P R : dict nat V) :
  (forall k, In k (dict_keys P) -> (k < s)%nat) ->
  dict_get Nat.eqb s (P ++ (s, v) :: R) = Some v.
Proof.
  induction P as [|[k w] P IH]; intros H; simpl.
  - rewrite Nat.eqb_refl. reflexivity.
  - destruct (Nat.eqb_spec s k) as [->|_].
    + specialize (H k (or_introl eq_refl)). lia.
    + apply IH. intros k' Hk'. apply H. now right.
Qed.

Lemma dict_set_middle {V : Type} (s : nat) (v w : V) (P R : dict nat V) :
  (forall k, In k (dict_keys P) -> (k < s)%nat) ->
  dict_set Nat.eqb s w (P ++ (s, v) :: R) = P ++ (s, w) :: R.
Proof.
  induction P as [|[k u] P IH]; intros H; simpl.
  - rewrite Nat.eqb_refl. reflexivity.
  - destruct (Nat.eqb_spec s k) as [->|_].
    + specialize (H k (or_introl eq_refl)). lia.
    + rewrite IH; [reflexivity|]. intros k' Hk'. apply H. now right.
Qed.

Lemma keys_snoc_lt {V : Type} (s : nat) (v : V) (P : dict nat V) :
  (forall k, In k (dict_keys P) -> (k < s)%nat) ->
  forall k, In k (dict_keys (P ++ [(s, v)])) -> (k < S s)%nat.
Proof.
  intros H k Hk. unfold dict_keys in Hk. rewrite map_app in Hk.
  apply in_app_or in Hk. destruct Hk as [Hk|[<-|[]]]; [|simpl; lia].
  specialize (H k Hk). lia.
Qed.

Lemma set_entry_fresh (s : nat) (key : string) (v : value)
      (P : dict nat C15Center) :
  (forall k, In k (dict_keys P) -> (k < s)%nat) ->
  set_entry s key v P = P ++ [(s, [(key, v)])].
Proof.
  intros HP. unfold set_entry.
  rewrite (@dict_get_fresh _ s P HP), (@dict_set_fresh _ s _ P HP).
  reflexivity.
Qed.

Lemma set_entry_middle (s : nat) (key : string) (v : value) (r : C15Center)
      (P R : dict nat C15Center) :
  (forall k, In k (dict_keys P) -> (k < s)%nat) ->
  set_entry s key v (P ++ (s, r) :: R)
  = P ++ (s, dict_set String.eqb key v r) :: R.
Proof.
  intros HP. unfold set_entry.
  rewrite (@dict_get_middle _ s r P R HP), (@dict_set_middle _ s r _ P R HP).
  reflexivity.
Qed.

Section Pairing.
Context {A B : Type}.
Variables (key1 key2 : string) (v1 : A -> value) (v2 : B -> value).
Hypothesis keys_differ : String.eqb key2 key1 = false.

(** The map after a group of [key1] entries [xs] and then a group of
    [key2] entries [ys], the first record having key [s]. *)
Fixpoint unpaired2 (s : nat) (ys : list B) : dict nat C15Center :=
  match ys with
  | [] => []
  | y :: ys' => (s, [(key2, v2 y)]) :: unpaired2 (S s) ys'
  end.

Fixpoint zipped (s : nat) (xs : list A) (ys : list B) : dict nat C15Center :=
  match xs with
  | [] => unpaired2 s ys
  | x :: xs' =>
      match ys with
      | y :: ys' => (s, [(key1, v1 x); (key2, v2 y)]) :: zipped (S s) xs' ys'
      | [] => (s, [(key1, v1 x)]) :: zipped (S s) xs' []
      end
  end.

Definition pass1 (d : dict nat C15Center) (l : list (nat * A))
  : dict nat C15Center :=
  fold_left (fun d '(i, x) => set_entry i key1 (v1 x) d) l d.

Definition pass2 (d : dict nat C15Center) (l : list (nat * B))
  : dict nat C15Center :=
  fold_left (fun d '(i, y) => set_entry i key2 (v2 y) d) l d.

Lemma pass1_zipped (xs : list A) :
  forall s P,
    (forall k, In k (dict_keys P) -> (k < s)%nat) ->
    pass1 P (combine (seq s (length xs)) xs) = P ++ zipped s xs [].
Proof.
  induction xs as [|x xs IH]; intros s P HP.
  - simpl. rewrite app_nil_r. reflexivity.
  - cbn [length seq combine pass1 fold_left zipped].
    rewrite (@set_entry_fresh s key1 (v1 x) P HP).
    fold (pass1 (P ++ [(s, [(key1, v1 x)])])
                (combine (seq (S s) (length xs)) xs)).
    rewrite IH by (apply (@keys_snoc_lt _ s _ P HP)).
    rewrite <- app_assoc. reflexivity.
Qed.

Lemma pass2_zipped (ys : list B) :
  forall s P xs,
    (forall k, In k (dict_keys P) -> (k < s)%nat) ->
    pass2 (P ++ zipped s xs []) (combine (seq s (length ys)) ys)
    = P ++ zipped s xs ys.
Proof.
  induction ys as [|y ys IH]; intros s P xs HP.
  - destruct xs; reflexivity.
  - destruct xs as [|x xs].
    + cbn [length seq combine pass2 fold_left zipped unpaired2].
      rewrite app_nil_r, (@set_entry_fresh s key2 (v2 y) P HP).
      fold (pass2 (P ++ [(s, [(key2, v2 y)])])
                  (combine (seq (S s) (length ys)) ys)).
      specialize (IH (S s) (P ++ [(s, [(key2, v2 y)])]) []
                     (@keys_snoc_lt _ s _ P HP)).
      cbn [zipped unpaired2] in IH. rewrite app_nil_r in IH. rewrite IH.
      rewrite <- app_assoc. reflexivity.
    + cbn [length seq combine pass2 fold_left zipped].
      rewrite (@set_entry_middle s key2 (v2 y) _ P _ HP).
      cbn [dict_set]. rewrite keys_differ. cbn [dict_set].
      fold (pass2 (P ++ (s, [(key1, v1 x); (key2, v2 y)])
                     :: zipped (S s) xs [])
                  (combine (seq (S s) (length ys)) ys)).
      specialize (IH (S s) (P ++ [(s, [(key1, v1 x); (key2, v2 y)])])
                     xs (@keys_snoc_lt _ s _ P HP)).
      rewrite <- app_assoc in IH. cbn [app] in IH.
      etransitivity; [exact IH|].
      rewrite <- app_assoc. reflexivity.
Qed.

Lemma zipped_keys (xs : list A) :
  forall s ys,
    dict_keys (zipped s xs ys) = seq s (Nat.max (length xs) (length ys)).
Proof.
  induction xs as [|x xs IH]; intros s ys.
  - simpl. revert s. induction ys as [|y ys IHy]; intros s; simpl;
      [reflexivity|]. f_equal. apply IHy.
  - destruct ys as [|y ys]; simpl; f_equal.
    + rewrite IH. simpl. rewrite Nat.max_0_r. reflexivity.
    + apply IH.
Qed.

Lemma zipped_paired (xs : list A) :
  forall s ys, length xs = length ys ->
    zipped s xs ys
    = map (fun '(i, (x, y)) => (i, [(key1, v1 x); (key2, v2 y)]))
          (combine (seq s (length xs)) (combine xs ys)).
Proof.
  induction xs as [|x xs IH]; intros s [|y ys] H; try discriminate;
    [reflexivity|].
  simpl. f_equal. apply IH. simpl in H. lia.
Qed.

(** The first record without a partner: its key is the smaller length. *)
Lemma zipped_unpaired (xs : list A) :
  forall s ys, length xs <> length ys ->
    exists r rest,
      zipped s xs ys
      = zipped s (firstn (Nat.min (length xs) (length ys)) xs)
                 (firstn (Nat.min (length xs) (length ys)) ys)
        ++ (s + Nat.min (length xs) (length ys), r)%nat :: rest /\
      (dict_keys r = [key1] \/ dict_keys r = [key2]).
Proof.
  induction xs as [|x xs IH]; intros s ys H.
  - destruct ys as [|y ys]; [simpl in H; congruence|].
    simpl. rewrite Nat.add_0_r. eexists. eexists. split; [reflexivity|].
    now right.
  - destruct ys as [|y ys].
    + simpl. rewrite Nat.add_0_r. eexists. eexists. split; [reflexivity|].
      now left.
    + simpl in H. destruct (IH (S s) ys) as [r [rest [E Hr]]]; [lia|].
      exists r, rest. split; [|exact Hr]. simpl. rewrite E.
      replace (S s + Nat.min (length xs) (length ys))%nat
        with (s + S (Nat.min (length xs) (length ys)))%nat by lia.
      reflexivity.
Qed.

End Pairing.

Lemma dict_get_NoDup {V : Type} (k : nat) (v : V) (d : dict nat V) :
  NoDup (dict_keys d) -> In (k, v) d -> dict_get Nat.eqb k d = Some v.
Proof.
  induction d as [|[k0 v0] d IH]; intros Hnd Hin; [destruct Hin|].
  simpl in Hnd. apply NoDup_cons_iff in Hnd. destruct Hnd as [Hk0 Hnd].
  simpl. destruct Hin as [E|Hin].
  - injection E as -> ->. rewrite Nat.eqb_refl. reflexivity.
  - destruct (Nat.eqb_spec k k0) as [->|_]; [|apply IH; assumption].
    exfalso. apply Hk0. apply in_map_iff. exists (k0, v). auto.
Qed.

Lemma dict_get_Some_In {V : Type} (k : nat) (v : V) (d : dict nat V) :
  dict_get Nat.eqb k d = Some v -> In (k, v) d.
Proof.
  induction d as [|[k0 v0] d IH]; simpl; [discriminate|].
  destruct (Nat.eqb_spec k k0) as [->|_].
  - intros H. injection H as ->. now left.
  - intros H. right. apply IH, H.
Qed.

(** [check_out_parser] stops at the first key whose record is not
    complete. *)
Lemma check_loop_stops (d : dict nat C15Center) (l1 l2 : list nat) (k : nat)
      (r : C15Center) :
  (forall k', In k' l1 ->
     exists r', dict_get Nat.eqb k' d = Some r' /\ complete r') ->
  dict_get Nat.eqb k d = Some r -> ~ complete r ->
  check_loop (l1 ++ k :: l2) d = Raise (TimeoutError (missing_message k)).
Proof.
  intros Hl1 Hk Hr. induction l1 as [|k1 l1 IH].
  - simpl app. rewrite check_loop_cons. unfold lookup. rewrite Hk.
    cbn [bind].
    destruct (existsb (keys_eqb (dict_keys r))
                      [["type"; "center"]; ["center"; "type"]]%string) eqn:E;
      [|reflexivity].
    apply complete_test in E. contradiction.
  - simpl app. rewrite check_loop_cons. unfold lookup.
    destruct (Hl1 k1 (or_introl eq_refl)) as [r1 [Hr1 Hc1]].
    rewrite Hr1. cbn [bind]. apply complete_test in Hc1. rewrite Hc1.
    apply IH. intros k' Hk'. apply Hl1. now right.
Qed.

Definition center_value (c : list Z) : value := VArr (map inject_Z c).

Lemma parse_centers_types (cs : list (list Z)) (ts : list string) :
  parse_loop [XCenters cs; XType ts] []
  = zipped "center" "type" center_value VStr 0 cs ts.
Proof.
  unfold parse_loop. cbn [fold_left parse_param]. unfold enumerate.
  change (fold_left (fun d '(id_cent, cent) =>
                       set_entry id_cent "center"
                                 (VArr (map inject_Z cent)) d)
                    (combine (seq 0 (length cs)) cs) [])
    with (pass1 "center" center_value []
                (combine (seq 0 (length cs)) cs)).
  rewrite (@pass1_zipped _ string "center" "type" center_value VStr cs 0 [])
    by (intros k []).
  change (fold_left (fun d '(id_type, type) =>
                       set_entry id_type "type" (VStr type) d)
                    (combine (seq 0 (length ts)) ts)
                    ([] ++ zipped "center" "type" center_value VStr 0 cs []))
    with (pass2 "type" VStr
                ([] ++ zipped "center" "type" center_value VStr 0 cs [])
                (combine (seq 0 (length ts)) ts)).
  rewrite pass2_zipped; [reflexivity|reflexivity|intros k []].
Qed.

Lemma parse_types_centers (cs : list (list Z)) (ts : list string) :
  parse_loop [XType ts; XCenters cs] []
  = zipped "type" "center" VStr center_value 0 ts cs.
Proof.
  unfold parse_loop. cbn [fold_left parse_param]. unfold enumerate.
  change (fold_left (fun d '(id_type, type) =>
                       set_entry id_type "type" (VStr type) d)
                    (combine (seq 0 (length ts)) ts) [])
    with (pass1 "type" VStr [] (combine (seq 0 (length ts)) ts)).
  rewrite (@pass1_zipped _ (list Z) "type" "center" VStr center_value ts 0 [])
    by (intros k []).
  change (fold_left (fun d '(id_cent, cent) =>
                       set_entry id_cent "center"
                                 (VArr (map inject_Z cent)) d)
                    (combine (seq 0 (length cs)) cs)
                    ([] ++ zipped "type" "center" VStr center_value 0 ts []))
    with (pass2 "center" center_value
                ([] ++ zipped "type" "center" VStr center_value 0 ts [])
                (combine (seq 0 (length cs)) cs)).
  rewrite pass2_zipped; [reflexivity|reflexivity|intros k []].
Qed.

(** The verdict of [check_out_parser] on a map of the shape [zipped]. *)
Section Verdict.
Context {A B : Type}.
Variables (key1 key2 : string) (v1 : A -> value) (v2 : B -> value).
Hypothesis both_keys :
  [key1; key2] = ["center"; "type"]%string \/
  [key1; key2] = ["type"; "center"]%string.

Lemma paired_complete (x : A) (y : B) :
  complete [(key1, v1 x); (key2, v2 y)].
Proof.
  unfold complete. cbn. destruct both_keys as [E|E]; rewrite E; auto.
Qed.

Lemma single_incomplete (r : C15Center) :
  dict_keys r = [key1] \/ dict_keys r = [key2] -> ~ complete r.
Proof.
  unfold complete. intros [E|E] [H|H]; rewrite E in H; discriminate.
Qed.

Lemma zipped_check_paired (xs : list A) (ys : list B) :
  length xs = length ys ->
  let d := zipped key1 key2 v1 v2 0 xs ys in
  check_loop (dict_keys d) d = Ok tt.
Proof.
  intros Hlen d.
  destruct (@check_loop_cases d (dict_keys d)) as [[Hok _]|Hbad];
    [auto|exact Hok|].
  exfalso. destruct Hbad as [k [r [_ [Hr [Hn _]]]]].
  apply Hn. apply dict_get_Some_In in Hr. unfold d in Hr.
  rewrite zipped_paired in Hr by exact Hlen.
  apply in_map_iff in Hr. destruct Hr as [[i [x y]] [E _]].
  injection E as _ <-. apply paired_complete.
Qed.

Lemma zipped_check_unpaired (xs : list A) (ys : list B) :
  length xs <> length ys ->
  let d := zipped key1 key2 v1 v2 0 xs ys in
  check_loop (dict_keys d) d
  = Raise (TimeoutError
             (missing_message (Nat.min (length xs) (length ys)))).
Proof.
  intros Hlen d.
  destruct (@zipped_unpaired _ _ key1 key2 v1 v2 xs 0 ys Hlen)
    as [r [rest [E Hr]]].
  fold d in E. simpl in E.
  set (m := Nat.min (length xs) (length ys)) in *.
  set (front := zipped key1 key2 v1 v2 0 (firstn m xs) (firstn m ys)) in *.
  assert (Hnd : NoDup (dict_keys d)).
  { unfold d. rewrite zipped_keys. apply seq_NoDup. }
  assert (Hfront : length (firstn m xs) = length (firstn m ys)).
  { rewrite !length_firstn. unfold m. lia. }
  replace (dict_keys d) with (dict_keys front ++ m :: dict_keys rest)
    by (rewrite E; unfold dict_keys; rewrite map_app; reflexivity).
  apply check_loop_stops with (r := r).
  - intros k Hk. unfold dict_keys in Hk. apply in_map_iff in Hk.
    destruct Hk as [[k' r'] [Ek Hin]]. simpl in Ek. subst k'.
    exists r'. split.
    + apply dict_get_NoDup; [exact Hnd|]. rewrite E.
      apply in_or_app. now left.
    + unfold front in Hin. rewrite zipped_paired in Hin by exact Hfront.
      apply in_map_iff in Hin. destruct Hin as [[i [x y]] [Ei _]].
      injection Ei as _ <-. apply paired_complete.
  - apply dict_get_NoDup; [exact Hnd|]. rewrite E.
    apply in_or_app. right. now left.
  - apply single_incomplete. exact Hr.
Qed.

End Verdict.

Lemma InputsParser_new (p : InputsCompactPhases) (root : list xml_param) :
  InputsParser root (new_builder p)
  = (check_loop (dict_keys (parse_loop root [])) (parse_loop root []),
     set_centerC15 (new_builder p) (parse_loop root [])).
Proof. reflexivity. Qed.

(** X8.  The input file pairs centers and types by position.  With as
    many types as centers, in a [Centers] group followed by a [Type] group
    or the other way round, the parsed map has the keys [0 .. n-1] in
    order, the record of key [i] holds the [i]-th center and the [i]-th
    type (in the order of the groups), and [InputsParser] returns
    normally with that map. *)
Theorem input_file_pairs_by_position :
  forall (p : InputsCompactPhases) (cs : list (list Z)) (ts : list string),
    length cs = length ts ->
    parse_loop [XCenters cs; XType ts] []
    = map (fun '(i, (c, t)) => (i, new_center (map inject_Z c) t))
          (enumerate (combine cs ts)) /\
    parse_loop [XType ts; XCenters cs] []
    = map (fun '(i, (t, c)) =>
             (i, [("type"%string, VStr t);
                  ("center"%string, VArr (map inject_Z c))]))
          (enumerate (combine ts cs)) /\
    forall root,
      root = [XCenters cs; XType ts] \/ root = [XType ts; XCenters cs] ->
      InputsParser root (new_builder p)
      = (Ok tt, set_centerC15 (new_builder p) (parse_loop root [])).
Proof.
  intros p cs ts Hlen. split; [|split].
  - rewrite parse_centers_types, zipped_paired by exact Hlen.
    unfold enumerate. rewrite length_combine, <- Hlen, Nat.min_id.
    reflexivity.
  - rewrite parse_types_centers, zipped_paired by (symmetry; exact Hlen).
    unfold enumerate. rewrite length_combine, Hlen, Nat.min_id.
    reflexivity.
  - intros root [-> | ->]; rewrite InputsParser_new; f_equal.
    + rewrite parse_centers_types.
      apply zipped_check_paired; [now left|exact Hlen].
    + rewrite parse_types_centers.
      apply zipped_check_paired; [now right|symmetry; exact Hlen].
Qed.

(** The pairing theorem on a file of two centers and two types. *)
Lemma input_file_pairs_witness :
  InputsParser [XCenters [[1; 2; 3]; [4; 5; 6]]%Z; XType ["type1"; "type2"]%string]
               (new_builder (mkInputs 1 "Fe" 2))
  = (Ok tt,
     set_centerC15 (new_builder (mkInputs 1 "Fe" 2))
       [(0%nat, new_center [1; 2; 3] "type1");
        (1%nat, new_center [4; 5; 6] "type2")]).
Proof.
  destruct (@input_file_pairs_by_position (mkInputs 1 "Fe" 2)
              [[1; 2; 3]; [4; 5; 6]]%Z ["type1"; "type2"]%string eq_refl)
    as [_ [_ H]].
  rewrite (H _ (or_introl eq_refl)). reflexivity.
Defined.

(** X9.  With a number of types different from the number of centers, in
    either order of the two groups, [InputsParser] raises the error that
    names the first position without a partner, which is the smaller of
    the two numbers; the map parsed so far stays in the builder. *)
Theorem input_file_count_mismatch :
  forall (p : InputsCompactPhases) (cs : list (list Z)) (ts : list string)
         (root : list xml_param),
    length cs <> length ts ->
    root = [XCenters cs; XType ts] \/ root = [XType ts; XCenters cs] ->
    InputsParser root (new_builder p)
    = (Raise (TimeoutError
                (missing_message (Nat.min (length cs) (length ts)))),
       set_centerC15 (new_builder p) (parse_loop root [])).
Proof.
  intros p cs ts root Hlen [-> | ->]; rewrite InputsParser_new; f_equal.
  - rewrite parse_centers_types.
    apply zipped_check_unpaired; [now left|exact Hlen].
  - rewrite parse_types_centers, Nat.min_comm.
    apply zipped_check_unpaired; [now right|].
    intros E. apply Hlen. symmetry. exact E.
Qed.

(** The mismatch theorem on three centers and one type: the error names
    the record of key 1. *)
Lemma input_file_count_mismatch_witness :
  fst (InputsParser [XCenters [[1; 2; 3]; [4; 5; 6]; [7; 8; 9]]%Z;
                     XType ["type1"%string]]
                    (new_builder (mkInputs 1 "Fe" 2)))
  = Raise (TimeoutError "Missing type or center for 1").
Proof.
  rewrite (@input_file_count_mismatch (mkInputs 1 "Fe" 2)
             [[1; 2; 3]; [4; 5; 6]; [7; 8; 9]]%Z ["type1"%string] _
             ltac:(discriminate) (or_introl eq_refl)).
  reflexivity.
Defined.

(** *** [AgnosticPerfectC15Cluster]: when it returns *)

Section AgnosticMore.
Variable typeOcta : dict string Octa.
Variable SolidAse_BCC : list Z -> string -> Atoms.



(** X11.  With a lattice parameter equal to zero the size of the supercell
    cannot be computed: [AgnosticPerfectC15Cluster] raises for every
    [cluster_size] and leaves the builder as it was, without any center
    written. *)
Theorem agnostic_zero_lattice_parameter :
  forall (self : C15Builder) (cluster_size : Q),
    a0 (dict_param self) == 0 ->
    exists e,
      AgnosticPerfectC15Cluster typeOcta SolidAse_BCC cluster_size self
      = (Raise e, self).
Proof.
  intros self cluster_size Ha.
  assert (Hdiv : forall x, divide x (a0 (dict_param self))
                           = Raise ZeroDivisionError).
  { intros x. unfold divide. apply Qeq_bool_iff in Ha. rewrite Ha.
    reflexivity. }
  unfold AgnosticPerfectC15Cluster, bindM, get.
  destruct (Qlt_b cluster_size (np_sqrt3 * a0 (dict_param self)));
    unfold lift, build_cubic_supercell, compute_cell_size_draft;
    rewrite Hdiv; cbn [bind]; eauto.
Qed.


End AgnosticMore.


Lemma agnostic_zero_witness :
  exists e,
    AgnosticPerfectC15Cluster two_types (fun _ _ => []) 1
                              (new_builder (mkInputs 0 "Fe" 2))
    = (Raise e, new_builder (mkInputs 0 "Fe" 2)).
Proof.
  apply (@agnostic_zero_lattice_parameter two_types (fun _ _ => [])
           (new_builder (mkInputs 0 "Fe" 2)) 1).
  reflexivity.
Defined.


(** *** Sizes *)









(** *** What [build_C15_system] keeps *)

Section Coverage.
Variable tolerance : Q.

Lemma accept_extends (accepted : list vec3) (p : vec3) :
  exists more, accept tolerance accepted p = accepted ++ more /\
               incl more [p] /\ (length more <= 1)%nat.
Proof.
  unfold accept.
  destruct (existsb (fun q => within tolerance q p) accepted).
  - exists []. rewrite app_nil_r. split; [reflexivity|].
    split; [intros x []|simpl; lia].
  - exists [p]. split; [reflexivity|]. split; [apply incl_refl|simpl; lia].
Qed.

Lemma fold_accept_extends (sites : list vec3) :
  forall accepted,
    exists more,
      fold_left (accept tolerance) sites accepted = accepted ++ more /\
      incl more sites /\ (length more <= length sites)%nat.
Proof.
  induction sites as [|p sites IH]; intros accepted.
  - exists []. rewrite app_nil_r. split; [reflexivity|].
    split; [apply incl_refl|simpl; lia].
  - simpl. destruct (accept_extends accepted p) as [m1 [E1 [I1 L1]]].
    destruct (IH (accept tolerance accepted p)) as [m2 [E2 [I2 L2]]].
    exists (m1 ++ m2). rewrite E2, E1, app_assoc.
    split; [reflexivity|]. split.
    + intros x Hx. apply in_app_or in Hx. destruct Hx as [Hx|Hx].
      * apply I1 in Hx. destruct Hx as [<-|[]]. now left.
      * right. apply I2, Hx.
    + rewrite length_app. simpl. lia.
Qed.

Lemma accept_covers (accepted : list vec3) (p : vec3) :
  exists q, In q (accept tolerance accepted p) /\
            (q = p \/ within tolerance q p = true).
Proof.
  unfold accept.
  destruct (existsb (fun q => within tolerance q p) accepted) eqn:E.
  - apply existsb_exists in E. destruct E as [q [Hq Hw]]. eauto.
  - exists p. split; [apply in_or_app; right; now left|now left].
Qed.

Lemma fold_accept_covers (sites : list vec3) :
  forall accepted p, In p sites ->
    exists q, In q (fold_left (accept tolerance) sites accepted) /\
              (q = p \/ within tolerance q p = true).
Proof.
  induction sites as [|p0 sites IH]; intros accepted p Hin; [destruct Hin|].
  simpl. destruct Hin as [->|Hin]; [|apply IH, Hin].
  destruct (accept_covers accepted p) as [q [Hq Hc]].
  exists q. split; [|exact Hc].
  destruct (fold_accept_extends sites (accept tolerance accepted p))
    as [more [E _]].
  rewrite E. apply in_or_app. now left.
Qed.

Lemma fold_accept_keeps_all (sites : list vec3) :
  tolerance <= 0 ->
  forall accepted,
    fold_left (accept tolerance) sites accepted = accepted ++ sites.
Proof.
  intros Htol. induction sites as [|p sites IH]; intros accepted.
  - rewrite app_nil_r. reflexivity.
  - simpl. rewrite accept_far.
    + rewrite IH, <- app_assoc. reflexivity.
    + intros q _. apply within_false_iff. intros [H _]. lra.
Qed.

End Coverage.

(** X15.  The atoms returned by [build_C15_system] carry the element of
    the builder and sit on enumerated sites; there are at most as many
    atoms as sites; no site is lost: every enumerated site is the position
    of a returned atom or lies within the tolerance of one. *)
Theorem build_C15_system_covers_the_sites :
  forall (typeOcta : dict string Octa) (self : C15Builder) (tolerance : Q)
         (atoms : Atoms),
    build_C15_system typeOcta self tolerance = Ok atoms ->
    let sites := site_positions typeOcta self in
    Forall (fun a => symbol a = element (dict_param self) /\
                     In (position a) sites) atoms /\
    (length atoms <= length sites)%nat /\
    forall p, In p sites ->
      exists a, In a atoms /\
                (position a = p \/ within tolerance (position a) p = true).
Proof.
  intros typeOcta self tolerance atoms H sites.
  apply build_refines in H. fold sites in H.
  destruct (fold_accept_extends tolerance sites []) as [more [E [I L]]].
  simpl in E. fold (dedup tolerance sites) in E.
  split; [|split].
  - rewrite H. apply Forall_forall. intros a Ha.
    apply in_map_iff in Ha. destruct Ha as [q [<- Hq]]. cbn.
    split; [reflexivity|]. apply I. rewrite <- E. exact Hq.
  - rewrite H, length_map, E. exact L.
  - intros p Hp.
    destruct (fold_accept_covers tolerance sites [] p Hp) as [q [Hq Hc]].
    exists (mkAtom (element (dict_param self)) q). split; [|exact Hc].
    rewrite H. apply in_map. exact Hq.
Qed.

(** The theorem on the two centers whose sites coincide. *)
Lemma build_covers_witness :
  exists atoms,
    build_C15_system [("type1"%string, site_ahead);
                      ("type2"%string, site_on_center)]
                     coinciding_centers default_tolerance = Ok atoms /\
    (length atoms <= 2)%nat.
Proof.
  destruct (build_C15_system [("type1"%string, site_ahead);
                              ("type2"%string, site_on_center)]
                             coinciding_centers default_tolerance)
    as [atoms|] eqn:E; [|vm_compute in E; discriminate].
  exists atoms. split; [reflexivity|].
  exact (proj1 (proj2 (build_C15_system_covers_the_sites _ _ _ E))).
Defined.

(** *** Centers without a template *)

Section UnknownType.
Variable typeOcta : dict string Octa.



Hypothesis table_shape :
  forall type octa, dict_get String.eqb type typeOcta = Some octa ->
                    (length (atom octa) <= length (gaos octa))%nat.



End UnknownType.




(** *** What [remove_atoms_in_system] keeps *)

Lemma mapM_length {A B : Type} (f : A -> result B) (l : list A) :
  forall ys, mapM f l = Ok ys -> length ys = length l.
Proof.
  induction l as [|x l IH]; intros ys H.
  - injection H as <-. reflexivity.
  - simpl in H. destruct (f x) as [y|]; [|discriminate]. cbn [bind] in H.
    destruct (mapM f l) as [ys'|]; [|discriminate]. cbn [bind] in H.
    injection H as <-. simpl. rewrite (IH ys' eq_refl). reflexivity.
Qed.

Lemma reshape_T_length (blocks : list (list vec3)) (coords : list vec3) :
  reshape_T blocks = Ok coords ->
  length coords = (length blocks * 6)%nat /\
  Forall (fun b => length b = 6%nat) blocks.
Proof.
  unfold reshape_T.
  destruct (forallb (fun b => (length b =? 6)%nat) blocks) eqn:E;
    [|discriminate].
  intros H. injection H as <-. rewrite length_map, length_seq.
  split; [reflexivity|].
  apply Forall_forall. intros b Hb.
  rewrite forallb_forall in E. apply Nat.eqb_eq, E, Hb.
Qed.

Lemma filter_all {A : Type} (P : A -> bool) (l : list A) :
  (forall a, In a l -> P a = true) -> filter P l = l.
Proof.
  induction l as [|a l IH]; intros H; [reflexivity|].
  simpl. rewrite (H a (or_introl eq_refl)), IH; [reflexivity|].
  intros b Hb. apply H. now right.
Qed.

Lemma near_one_of_nonpositive (tolerance : Q) (coords : list vec3)
      (a : Atom) :
  tolerance <= 0 -> near_one_of tolerance coords a = false.
Proof.
  intros Htol. unfold near_one_of.
  destruct (existsb (fun c => within tolerance c (position a)) coords) eqn:E;
    [|reflexivity].
  apply existsb_exists in E. destruct E as [c [_ Hc]].
  assert (Hf : within tolerance c (position a) = false).
  { apply within_false_iff. intros [H _]. lra. }
  congruence.
Qed.

(** X17.  When [remove_atoms_in_system] returns on a system that is not
    empty, the center map is not empty, the array of removal coordinates
    has six rows for each center, and the result is the system without the
    atoms that lie within the tolerance of one of these rows, the others
    in their order; with a tolerance that is not positive nothing is
    removed. *)
Theorem remove_atoms_keeps_the_far_atoms :
  forall (typeOcta : dict string Octa) (self : C15Builder) (system : Atoms)
         (tolerance : Q) (out : Atoms),
    remove_atoms_in_system typeOcta self system tolerance = Ok out ->
    system <> [] ->
    exists coords,
      ToRemoveCoordinate typeOcta self = Ok coords /\
      centerC15 self <> [] /\
      length coords = (length (centerC15 self) * 6)%nat /\
      out = filter (fun a => negb (near_one_of tolerance coords a)) system /\
      (length out <= length system)%nat /\
      (tolerance <= 0 -> out = system).
Proof.
  intros typeOcta self system tolerance out H Hsys.
  pose proof H as H0. unfold remove_atoms_in_system in H0.
  destruct (ToRemoveCoordinate typeOcta self) as [coords|] eqn:Ec;
    [|discriminate].
  cbn [bind] in H0.
  assert (Hne : coords <> []).
  { intros ->. destruct system as [|a rest]; [congruence|]. discriminate. }
  clear H0.
  rewrite (@remove_atoms_filter typeOcta self system tolerance coords Ec Hne)
    in H.
  injection H as <-.
  assert (Hlen : length coords = (length (centerC15 self) * 6)%nat).
  { unfold ToRemoveCoordinate in Ec.
    destruct (mapM (fun kv => removal_block typeOcta (snd kv))
                   (centerC15 self)) as [blocks|] eqn:Eb; [|discriminate].
    cbn [bind] in Ec. apply reshape_T_length in Ec. destruct Ec as [-> _].
    rewrite (@mapM_length _ _ _ _ blocks Eb). reflexivity. }
  exists coords. split; [reflexivity|]. split.
  { intros Hc. rewrite Hc in Hlen. destruct coords; [congruence|].
    discriminate. }
  split; [exact Hlen|]. split; [reflexivity|]. split.
  - apply filter_length_le.
  - intros Htol. apply filter_all. intros a _.
    rewrite (@near_one_of_nonpositive tolerance coords a Htol). reflexivity.
Qed.

(** The theorem on the two centers of the octahedron type and two atoms:
    twelve rows, one atom left. *)
Lemma remove_atoms_keeps_witness :
  exists coords,
    ToRemoveCoordinate octahedron_table two_centers = Ok coords /\
    length coords = 12%nat /\
    filter (fun a => negb (near_one_of default_tolerance coords a))
           [on_removal_site; off_removal_sites]
    = [on_removal_site].
Proof.
  destruct (@remove_atoms_keeps_the_far_atoms
              octahedron_table two_centers
              [on_removal_site; off_removal_sites] default_tolerance
              [on_removal_site])
    as [coords [Hc [_ [Hl [Hf _]]]]].
  - vm_compute. reflexivity.
  - discriminate.
  - exists coords. split; [exact Hc|]. split; [exact Hl|].
    symmetry. exact Hf.
Defined.

(** *** The merged system of [BuildC15Cluster] *)

Lemma remove_atoms_sub (typeOcta : dict string Octa) (self : C15Builder)
      (system : Atoms) (tolerance : Q) (out : Atoms) :
  remove_atoms_in_system typeOcta self system tolerance = Ok out ->
  (length out <= length system)%nat /\ incl out system.
Proof.
  intros H. pose proof H as H0. unfold remove_atoms_in_system in H0.
  destruct (ToRemoveCoordinate typeOcta self) as [coords|] eqn:Ec;
    [|discriminate].
  cbn [bind] in H0. destruct system as [|a rest].
  - injection H0 as <-. split; [apply Nat.le_refl|apply incl_refl].
  - assert (Hne : coords <> []) by (intros ->; discriminate).
    pose proof (@remove_atoms_filter typeOcta self (a :: rest) tolerance
                  coords Ec Hne) as Hf.
    assert (Hout : out = filter (fun b => negb (near_one_of tolerance coords b))
                                (a :: rest)) by congruence.
    rewrite Hout. split; [apply filter_length_le|].
    intros x Hx. apply filter_In in Hx. apply Hx.
Qed.

(** X18.  When the part of [BuildC15Cluster] before the rescaling returns,
    the supercell has been built, [Natoms_bulk] is its number of atoms
    before the removal, every atom of the merged system is an atom of the
    supercell or an atom of the element of the builder on an enumerated
    site, and the merged system has at most [Natoms_bulk] atoms more than
    there are sites.  Without a supercell the method raises. *)
Theorem merged_system_atoms :
  forall (typeOcta : dict string Octa) (self : C15Builder),
    (cubic_supercell_unit self = None ->
     is_ok (merged_system typeOcta self) = false) /\
    forall (atoms : Atoms) (Natoms_bulk : nat),
      merged_system typeOcta self = Ok (atoms, Natoms_bulk) ->
      exists bulk,
        cubic_supercell_unit self = Some bulk /\
        Natoms_bulk = length bulk /\
        (length atoms
         <= Natoms_bulk + length (site_positions typeOcta self))%nat /\
        forall a, In a atoms ->
          In a bulk \/
          (symbol a = element (dict_param self) /\
           In (position a) (site_positions typeOcta self)).
Proof.
  intros typeOcta self. split.
  - intros Hnone. unfold merged_system.
    destruct (build_C15_system typeOcta self default_tolerance);
      [|reflexivity].
    cbn [bind].
    destruct (remove_atoms_in_system typeOcta self a default_tolerance);
      [|reflexivity].
    cbn [bind]. rewrite Hnone. reflexivity.
  - intros atoms n H. unfold merged_system in H.
    destruct (build_C15_system typeOcta self default_tolerance)
      as [C15_atoms|] eqn:Eb; [|discriminate].
    cbn [bind] in H.
    destruct (remove_atoms_in_system typeOcta self C15_atoms
                                     default_tolerance)
      as [extra_atom|] eqn:Ee; [|discriminate].
    cbn [bind] in H.
    destruct (cubic_supercell_unit self) as [bulk|]; [|discriminate].
    destruct (remove_atoms_in_system typeOcta self bulk default_tolerance)
      as [bulk'|] eqn:Er; [|discriminate].
    cbn [bind] in H. injection H as <- <-.
    apply remove_atoms_sub in Ee. destruct Ee as [Le Ie].
    apply remove_atoms_sub in Er. destruct Er as [Lr Ir].
    apply build_refines in Eb.
    destruct (fold_accept_extends default_tolerance
                (site_positions typeOcta self) []) as [more [E [I L]]].
    simpl in E. fold (dedup default_tolerance (site_positions typeOcta self))
      in E.
    exists bulk. split; [reflexivity|]. split; [reflexivity|]. split.
    + rewrite length_app.
      assert (length C15_atoms
              <= length (site_positions typeOcta self))%nat
        by (rewrite Eb, length_map, E; exact L).
      lia.
    + intros a Ha. apply in_app_or in Ha. destruct Ha as [Ha|Ha].
      * left. apply Ir, Ha.
      * right. apply Ie in Ha. rewrite Eb in Ha.
        apply in_map_iff in Ha. destruct Ha as [q [<- Hq]]. cbn.
        split; [reflexivity|]. apply I. rewrite <- E. exact Hq.
Qed.

(** The two centers of the octahedron type with a supercell of two
    atoms. *)
Definition two_centers_in_bulk : C15Builder :=
  set_supercell two_centers [on_removal_site; off_removal_sites] 20.

Lemma merged_system_witness :
  exists bulk,
    merged_system octahedron_table two_centers_in_bulk
    = Ok ([on_removal_site], 2%nat) /\
    cubic_supercell_unit two_centers_in_bulk = Some bulk /\
    2%nat = length bulk.
Proof.
  assert (E : merged_system octahedron_table two_centers_in_bulk
              = Ok ([on_removal_site], 2%nat)) by reflexivity.
  destruct (proj2 (merged_system_atoms octahedron_table two_centers_in_bulk)
                  _ _ E) as [bulk [Hb [Hn _]]].
  exists bulk. split; [exact E|]. split; [exact Hb|exact Hn].
Defined.

End C15More.

(** ** The constructors *)

Module ConstructionFacts.
Import Num NumFacts C15 C15Facts C15More Construction.








(** A lattice for the examples: one atom of the element at the origin,
    whatever the replication. *)
Definition one_atom (size_list : list Z) (element : string) : Atoms :=
  [mkAtom element (0, 0, 0)].


(** X20.  The constructor raises when the input file cannot give a
    supercell: with different numbers of centers and types it raises the
    error of [check_out_parser] for the first position without a partner,
    and with a file that holds no center and no type it raises
    [ValueError], the maximum of an empty array; without an input file it
    returns the empty builder. *)
Theorem C15Builder_init_rejects :
  forall (SolidAse_BCC : list Z -> string -> Atoms)
         (p : InputsCompactPhases),
    C15Builder_init SolidAse_BCC p None = Ok (new_builder p) /\
    (forall root, parse_loop root [] = [] ->
       C15Builder_init SolidAse_BCC p (Some root) = Raise ValueError) /\
    (forall cs ts root,
       length cs <> length ts ->
       root = [XCenters cs; XType ts] \/ root = [XType ts; XCenters cs] ->
       C15Builder_init SolidAse_BCC p (Some root)
       = Raise (TimeoutError
                  (missing_message (Nat.min (length cs) (length ts))))).
Proof.
  intros SolidAse_BCC p. split; [reflexivity|]. split.
  - intros root E. unfold C15Builder_init. rewrite InputsParser_new, E.
    reflexivity.
  - intros cs ts root Hlen Hroot. unfold C15Builder_init.
    rewrite InputsParser_new. destruct Hroot as [-> | ->].
    + rewrite parse_centers_types.
      rewrite (@zipped_check_unpaired _ _ "center" "type" center_value VStr
                 (or_introl eq_refl) cs ts Hlen).
      reflexivity.
    + rewrite parse_types_centers.
      assert (Hlen' : length ts <> length cs)
        by (intros E; apply Hlen; symmetry; exact E).
      rewrite (@zipped_check_unpaired _ _ "type" "center" VStr center_value
                 (or_intror eq_refl) ts cs Hlen').
      rewrite Nat.min_comm. reflexivity.
Qed.

Lemma C15Builder_init_rejects_witness :
  C15Builder_init one_atom (mkInputs 1 "Fe" 2) (Some [XOther; XCenters []])
  = Raise ValueError /\
  C15Builder_init one_atom (mkInputs 1 "Fe" 2)
    (Some [XCenters [[1; 2; 3]; [4; 5; 6]]%Z; XType ["type1"%string]])
  = Raise (TimeoutError "Missing type or center for 1").
Proof.
  destruct (C15Builder_init_rejects one_atom (mkInputs 1 "Fe" 2))
    as [_ [H1 H2]].
  split.
  - apply H1. reflexivity.
  - rewrite (H2 [[1; 2; 3]; [4; 5; 6]]%Z ["type1"%string] _
                ltac:(discriminate) (or_introl eq_refl)).
    reflexivity.
Defined.

(** X21.  [A15Builder] cannot be constructed from an existing input file:
    whatever the file holds, the constructor does not return.  On a file
    that pairs centers and types it ends in the [AttributeError] for
    [build_cubic_supercell], a method that [A15Builder] does not define;
    on the other files it ends in the error of [check_out_parser]. *)
Theorem A15Builder_init_never_returns :
  forall (p : InputsCompactPhases),
    (forall root self, A15Builder_init p (Some root) <> A15_Ok self) /\
    (forall cs ts root,
       root = [XCenters cs; XType ts] \/ root = [XType ts; XCenters cs] ->
       (length cs = length ts ->
        A15Builder_init p (Some root)
        = A15_AttributeError "build_cubic_supercell") /\
       (length cs <> length ts ->
        A15Builder_init p (Some root)
        = A15_Raise (TimeoutError
                       (missing_message
                          (Nat.min (length cs) (length ts)))))).
Proof.
  intros p. split.
  - intros root self. unfold A15Builder_init.
    destruct (InputsParser root (new_builder p)) as [[u|e] s]; discriminate.
  - intros cs ts root Hroot. unfold A15Builder_init.
    rewrite InputsParser_new. split; intros Hlen.
    + destruct Hroot as [-> | ->].
      * rewrite parse_centers_types.
        rewrite (@zipped_check_paired _ _ "center" "type" center_value VStr
                   (or_introl eq_refl) cs ts Hlen).
        reflexivity.
      * rewrite parse_types_centers.
        assert (Hlen' : length ts = length cs) by (symmetry; exact Hlen).
        rewrite (@zipped_check_paired _ _ "type" "center" VStr center_value
                   (or_intror eq_refl) ts cs Hlen').
        reflexivity.
    + destruct Hroot as [-> | ->].
      * rewrite parse_centers_types.
        rewrite (@zipped_check_unpaired _ _ "center" "type" center_value
                   VStr (or_introl eq_refl) cs ts Hlen).
        reflexivity.
      * rewrite parse_types_centers.
        assert (Hlen' : length ts <> length cs)
          by (intros E; apply Hlen; symmetry; exact E).
        rewrite (@zipped_check_unpaired _ _ "type" "center" VStr
                   center_value (or_intror eq_refl) ts cs Hlen').
        rewrite Nat.min_comm. reflexivity.
Qed.

Lemma A15Builder_init_witness :
  A15Builder_init (mkInputs 1 "Fe" 2)
    (Some [XCenters [[1; 2; 3]; [4; 5; 6]]%Z;
           XType ["type1"; "type2"]%string])
  = A15_AttributeError "build_cubic_supercell".
Proof.
  destruct (A15Builder_init_never_returns (mkInputs 1 "Fe" 2)) as [_ H].
  apply (proj1 (H [[1; 2; 3]; [4; 5; 6]]%Z ["type1"; "type2"]%string _
                  (or_introl eq_refl))).
  reflexivity.
Defined.

End ConstructionFacts.

(** ** The direction of the rescaling *)

Module RescaleMore.
Import Reals Lra Rescale RescaleFacts.
Local Open Scope R_scope.

Lemma Rpower_exponent_gt_1 (r : R) : 1 < r -> 1 < Rpower r exponent.
Proof.
  intros Hr. unfold Rpower. rewrite <- exp_0 at 1. apply exp_increasing.
  apply Rmult_lt_0_compat; [unfold exponent; lra|].
  rewrite <- ln_1. apply ln_increasing; lra.
Qed.

Lemma Rpower_exponent_lt_1 (r : R) : 0 < r -> r < 1 -> Rpower r exponent < 1.
Proof.
  intros Hpos Hr. unfold Rpower. rewrite <- exp_0. apply exp_increasing.
  assert (Hln : ln r < 0) by (rewrite <- ln_1; apply ln_increasing; lra).
  assert (He : 0 < exponent) by (unfold exponent; lra).
  nra.
Qed.

Lemma Rpower_exponent_1 : Rpower 1 exponent = 1.
Proof. unfold Rpower. rewrite ln_1, Rmult_0_r. apply exp_0. Qed.

Lemma ratio_cases (n_system n_bulk : nat) :
  (0 < n_system)%nat -> (0 < n_bulk)%nat ->
  (n_system = n_bulk /\ lenght_scale n_system n_bulk = 1) \/
  ((n_bulk < n_system)%nat /\ 1 < lenght_scale n_system n_bulk) \/
  ((n_system < n_bulk)%nat /\ lenght_scale n_system n_bulk < 1).
Proof.
  intros Hs Hb. unfold lenght_scale.
  pose proof (lt_0_INR _ Hs) as Hs'. pose proof (lt_0_INR _ Hb) as Hb'.
  destruct (Nat.lt_trichotomy n_system n_bulk) as [Hlt|[Heq|Hgt]].
  - right. right. split; [exact Hlt|].
    apply Rpower_exponent_lt_1.
    + apply Rdiv_lt_0_compat; assumption.
    + apply lt_INR in Hlt.
      apply Rmult_lt_reg_r with (INR n_bulk); [exact Hb'|].
      unfold Rdiv. rewrite Rmult_assoc, Rinv_l by lra. lra.
  - left. split; [exact Heq|]. subst n_system.
    unfold Rdiv. rewrite Rinv_r by lra. apply Rpower_exponent_1.
  - right. left. split; [exact Hgt|].
    apply Rpower_exponent_gt_1. apply lt_INR in Hgt.
    apply Rmult_lt_reg_r with (INR n_bulk); [exact Hb'|].
    unfold Rdiv. rewrite Rmult_assoc, Rinv_l by lra. lra.
Qed.

(** X22.  The factor [lenght_scale] follows the change of the number of
    atoms: it is 1 exactly when the merged system has as many atoms as the
    bulk had, above 1 exactly when it has more, and below 1 exactly when
    it has fewer. *)
Theorem lenght_scale_follows_the_atom_count :
  forall (n_system n_bulk : nat),
    (0 < n_system)%nat -> (0 < n_bulk)%nat ->
    (lenght_scale n_system n_bulk = 1 <-> n_system = n_bulk) /\
    (1 < lenght_scale n_system n_bulk <-> (n_bulk < n_system)%nat) /\
    (lenght_scale n_system n_bulk < 1 <-> (n_system < n_bulk)%nat).
Proof.
  intros n_system n_bulk Hs Hb.
  destruct (ratio_cases Hs Hb) as [[He H]|[[Hl H]|[Hl H]]];
    repeat split; intros; try assumption; try lia; try lra.
Qed.

(** The theorem for 130 atoms in the merged system and 128 in the bulk. *)
Lemma lenght_scale_witness : 1 < lenght_scale 130 128.
Proof.
  apply (@lenght_scale_follows_the_atom_count 130 128); lia.
Defined.

End RescaleMore.

(** ** The classes of the database *)

Module MCDFacts.
Import Num C15 MCD.

(** The atoms of [ats] that carry the symbol [sym]. *)
Definition select_symbol (sym : string) (ats : Atoms) : Atoms :=
  filter (fun a => String.eqb (fst a) sym) ats.

Lemma getitem_mask (sym : string) (ats : Atoms) :
  getitem ats (map (fun b => String.eqb b sym) (get_chemical_symbols ats))
  = select_symbol sym ats.
Proof.
  unfold getitem, get_chemical_symbols, select_symbol.
  induction ats as [|a ats IH]; [reflexivity|].
  simpl. destruct (String.eqb (fst a) sym); simpl; rewrite IH; reflexivity.
Qed.

Lemma fill_dictionnary_fast_map (ats : Atoms) (dic : dict string (list Atoms)) :
  fill_dictionnary_fast ats dic
  = map (fun kv => (fst kv, snd kv ++ [select_symbol (fst kv) ats])) dic.
Proof.
  unfold fill_dictionnary_fast. apply map_ext. intros [sym l].
  cbn [fst snd]. rewrite getitem_mask. reflexivity.
Qed.

(** The class of an entry and the classes of a database, in the order in
    which the loop meets them. *)
Definition class_of (entry : string * Atoms) : string := key_dic (fst entry).

Definition classes (db : dict string Atoms) : list string :=
  fold_left (fun acc e => if existsb (String.eqb (class_of e)) acc then acc
                          else acc ++ [class_of e])
            db [].

(** The structures of a class, in the order of the database. *)
Definition members (c : string) (db : dict string Atoms) : list Atoms :=
  map snd (filter (fun e => String.eqb (class_of e) c) db).

(** The species of a class: those of its first structure. *)
Definition class_species (c : string) (db : dict string Atoms) : list string :=
  match members c db with
  | [] => []
  | ats :: _ => species ats
  end.

Definition class_table (c : string) (db : dict string Atoms)
  : dict string (list Atoms) :=
  map (fun sp => (sp, map (select_symbol sp) (members c db)))
      (class_species c db).

Definition grouped (db : dict string Atoms)
  : dict string (dict string (list Atoms)) :=
  map (fun c => (c, class_table c db)) (classes db).

Lemma existsb_eqb_In (c : string) (l : list string) :
  existsb (String.eqb c) l = true <-> In c l.
Proof.
  rewrite existsb_exists. split.
  - intros [x [Hx E]]. apply String.eqb_eq in E. subst x. exact Hx.
  - intros H. exists c. split; [exact H|apply String.eqb_refl].
Qed.

Lemma existsb_eqb_not_In (c : string) (l : list string) :
  existsb (String.eqb c) l = false <-> ~ In c l.
Proof.
  rewrite <- existsb_eqb_In. destruct (existsb (String.eqb c) l);
    split; intros H; try reflexivity; try discriminate; try congruence.
Qed.

Lemma classes_snoc (db : dict string Atoms) (e : string * Atoms) :
  classes (db ++ [e])
  = if existsb (String.eqb (class_of e)) (classes db) then classes db
    else classes db ++ [class_of e].
Proof. unfold classes. rewrite fold_left_app. reflexivity. Qed.

Lemma members_snoc (c : string) (db : dict string Atoms)
      (e : string * Atoms) :
  members c (db ++ [e])
  = members c db ++ (if String.eqb (class_of e) c then [snd e] else []).
Proof.
  unfold members. rewrite filter_app, map_app. simpl.
  destruct (String.eqb (class_of e) c); reflexivity.
Qed.

Lemma classes_In (db : dict string Atoms) (c : string) :
  In c (classes db) <-> exists e, In e db /\ class_of e = c.
Proof.
  induction db as [|e db IH] using rev_ind.
  - simpl. split; [intros []|intros [e [[] _]]].
  - rewrite classes_snoc.
    destruct (existsb (String.eqb (class_of e)) (classes db)) eqn:E.
    + rewrite IH. split.
      * intros [e' [He' Hc]]. exists e'. split; [|exact Hc].
        apply in_or_app. now left.
      * intros [e' [He' Hc]]. apply in_app_or in He'.
        destruct He' as [He'|[<-|[]]]; [eauto|].
        apply IH. rewrite <- Hc. apply existsb_eqb_In. exact E.
    + rewrite in_app_iff, IH. split.
      * intros [[e' [He' Hc]]|[<-|[]]].
        -- exists e'. split; [apply in_or_app; now left|exact Hc].
        -- exists e. split; [apply in_or_app; right; now left|reflexivity].
      * intros [e' [He' Hc]]. apply in_app_or in He'.
        destruct He' as [He'|[<-|[]]]; [left; eauto|].
        right. left. exact Hc.
Qed.

Lemma classes_NoDup (db : dict string Atoms) : NoDup (classes db).
Proof.
  induction db as [|e db IH] using rev_ind; [constructor|].
  rewrite classes_snoc.
  destruct (existsb (String.eqb (class_of e)) (classes db)) eqn:E;
    [exact IH|].
  apply existsb_eqb_not_In in E.
  apply NoDup_app; [exact IH|constructor; [intros []|constructor]|].
  intros x Hx [<-|[]]. exact (E Hx).
Qed.

Lemma members_nil (c : string) (db : dict string Atoms) :
  ~ In c (classes db) -> members c db = [].
Proof.
  intros H. unfold members.
  destruct (filter (fun e => String.eqb (class_of e) c) db) as [|e l] eqn:E;
    [reflexivity|].
  exfalso. apply H. apply classes_In. exists e.
  assert (Hin : In e (filter (fun e => String.eqb (class_of e) c) db))
    by (rewrite E; now left).
  apply filter_In in Hin. destruct Hin as [Hin Hc].
  split; [exact Hin|]. apply String.eqb_eq. exact Hc.
Qed.

Lemma members_cons (c : string) (db : dict string Atoms) :
  In c (classes db) -> members c db <> [].
Proof.
  intros H. apply classes_In in H. destruct H as [e [He Hc]].
  unfold members. intros E. apply map_eq_nil in E.
  assert (Hin : In e (filter (fun e => String.eqb (class_of e) c) db)).
  { apply filter_In. split; [exact He|]. apply String.eqb_eq. exact Hc. }
  rewrite E in Hin. destruct Hin.
Qed.

(** *** Dictionaries given by a table *)

Section Tabulated.
Context {V : Type}.
Variable f : string -> V.

Lemma dict_get_tabulated (c : string) (l : list string) :
  dict_get String.eqb c (map (fun k => (k, f k)) l)
  = if existsb (String.eqb c) l then Some (f c) else None.
Proof.
  induction l as [|k l IH]; [reflexivity|].
  simpl. destruct (String.eqb c k) eqn:E.
  - apply String.eqb_eq in E. subst k. reflexivity.
  - exact IH.
Qed.

Lemma dict_set_tabulated_new (c : string) (v : V) (l : list string) :
  ~ In c l ->
  dict_set String.eqb c v (map (fun k => (k, f k)) l)
  = map (fun k => (k, f k)) l ++ [(c, v)].
Proof.
  induction l as [|k l IH]; intros H; [reflexivity|].
  simpl. destruct (String.eqb c k) eqn:E.
  - apply String.eqb_eq in E. subst k. exfalso. apply H. now left.
  - rewrite IH; [reflexivity|]. intros Hc. apply H. now right.
Qed.

Lemma dict_set_tabulated_old (c : string) (v : V) (l : list string) :
  NoDup l -> In c l ->
  dict_set String.eqb c v (map (fun k => (k, f k)) l)
  = map (fun k => (k, if String.eqb c k then v else f k)) l.
Proof.
  induction l as [|k l IH]; intros Hnd Hin; [destruct Hin|].
  inversion Hnd as [|? ? Hk Hnd']; subst. simpl.
  destruct (String.eqb c k) eqn:E.
  - apply String.eqb_eq in E. subst k. f_equal.
    apply map_ext_in. intros k' Hk'.
    destruct (String.eqb c k') eqn:E'; [|reflexivity].
    apply String.eqb_eq in E'. subst k'. contradiction.
  - f_equal. apply IH; [exact Hnd'|].
    destruct Hin as [->|Hin]; [|exact Hin].
    rewrite String.eqb_refl in E. discriminate.
Qed.

End Tabulated.

Lemma class_table_other (c : string) (db : dict string Atoms)
      (e : string * Atoms) :
  String.eqb (class_of e) c = false ->
  class_table c (db ++ [e]) = class_table c db.
Proof.
  intros E. unfold class_table, class_species.
  rewrite members_snoc, E, app_nil_r. reflexivity.
Qed.

Lemma class_table_old (db : dict string Atoms) (e : string * Atoms) :
  In (class_of e) (classes db) ->
  class_table (class_of e) (db ++ [e])
  = fill_dictionnary_fast (snd e) (class_table (class_of e) db).
Proof.
  intros Hin. apply members_cons in Hin.
  assert (Hsp : class_species (class_of e) (db ++ [e])
                = class_species (class_of e) db).
  { unfold class_species. rewrite members_snoc, String.eqb_refl.
    destruct (members (class_of e) db); [congruence|reflexivity]. }
  unfold class_table. rewrite Hsp, members_snoc, String.eqb_refl.
  rewrite fill_dictionnary_fast_map, map_map. cbn [fst snd].
  apply map_ext. intros sp. rewrite map_app. reflexivity.
Qed.

Lemma class_table_new (db : dict string Atoms) (e : string * Atoms) :
  ~ In (class_of e) (classes db) ->
  class_table (class_of e) (db ++ [e])
  = fill_dictionnary_fast (snd e) (map (fun sp => (sp, [])) (species (snd e))).
Proof.
  intros Hin. apply members_nil in Hin.
  unfold class_table, class_species.
  rewrite members_snoc, String.eqb_refl, Hin.
  rewrite fill_dictionnary_fast_map, map_map. reflexivity.
Qed.

Lemma init_snoc (db : dict string Atoms) (e : string * Atoms) :
  init (db ++ [e]) = init_step (init db) e.
Proof. unfold init. rewrite fold_left_app. reflexivity. Qed.

Lemma init_grouped (db : dict string Atoms) : init db = grouped db.
Proof.
  induction db as [|e db IH] using rev_ind; [reflexivity|].
  rewrite init_snoc, IH. unfold init_step. destruct e as [key atoms].
  change (key_dic key) with (class_of (key, atoms)).
  set (e := (key, atoms)). unfold grouped at 1.
  rewrite dict_get_tabulated. unfold grouped. rewrite classes_snoc.
  destruct (existsb (String.eqb (class_of e)) (classes db)) eqn:E.
  - apply existsb_eqb_In in E.
    rewrite dict_set_tabulated_old; [|apply classes_NoDup|exact E].
    apply map_ext_in. intros c Hc. f_equal.
    destruct (String.eqb (class_of e) c) eqn:Ec.
    + apply String.eqb_eq in Ec. subst c. symmetry.
      apply (class_table_old db e E).
    + symmetry. apply class_table_other. exact Ec.
  - apply existsb_eqb_not_In in E.
    rewrite dict_set_tabulated_new by exact E. rewrite map_app. cbn [map].
    rewrite (class_table_new db e E). f_equal.
    apply map_ext_in. intros c Hc. f_equal. symmetry.
    apply class_table_other. apply String.eqb_neq. intros Ec.
    apply E. rewrite Ec. exact Hc.
Qed.

(** *** Lookups in the table of a class *)

Lemma species_In (sp : string) (ats : Atoms) :
  In sp (species ats) <-> In sp (get_chemical_symbols ats).
Proof. unfold species. apply nodup_In. Qed.

Lemma class_table_get (c sp : string) (db : dict string Atoms) :
  dict_get String.eqb sp (class_table c db)
  = if existsb (String.eqb sp) (class_species c db)
    then Some (map (select_symbol sp) (members c db)) else None.
Proof.
  unfold class_table.
  apply (@dict_get_tabulated _ (fun s => map (select_symbol s) (members c db))).
Qed.

Lemma init_get (c : string) (db : dict string Atoms) :
  In c (classes db) ->
  dict_get String.eqb c (init db) = Some (class_table c db).
Proof.
  intros H. rewrite init_grouped. unfold grouped.
  rewrite (@dict_get_tabulated _ (fun k => class_table k db)).
  apply existsb_eqb_In in H. rewrite H. reflexivity.
Qed.

Lemma members_In (c : string) (db : dict string Atoms) (ats : Atoms) :
  In ats (members c db) <->
  exists key, In (key, ats) db /\ key_dic key = c.
Proof.
  unfold members. rewrite in_map_iff. split.
  - intros [[key a] [E H]]. simpl in E. subst a.
    apply filter_In in H. destruct H as [H Hc].
    exists key. split; [exact H|]. apply String.eqb_eq in Hc. exact Hc.
  - intros [key [H Hc]]. exists (key, ats). split; [reflexivity|].
    apply filter_In. split; [exact H|]. apply String.eqb_eq. exact Hc.
Qed.

(** X23.  What [__init__] stores.  The structures are grouped by the first
    six characters of their key.  The species of a class are the symbols
    of its first structure: for such a symbol the class holds one [Atoms]
    for each structure of the class, in the order of the database, made of
    the atoms of the structure that carry the symbol; a symbol that the
    first structure does not carry is not a key of the class, whatever the
    later structures of the class hold. *)
Theorem dic_class_follows_the_first_structure :
  forall (db : dict string Atoms) (key : string) (ats : Atoms),
    In (key, ats) db ->
    exists first rest dic,
      members (key_dic key) db = first :: rest /\
      In ats (first :: rest) /\
      dict_get String.eqb (key_dic key) (init db) = Some dic /\
      forall sp,
        (In sp (get_chemical_symbols first) ->
         dict_get String.eqb sp dic
         = Some (map (select_symbol sp) (first :: rest))) /\
        (~ In sp (get_chemical_symbols first) ->
         dict_get String.eqb sp dic = None).
Proof.
  intros db key ats Hin.
  assert (Hc : In (key_dic key) (classes db)).
  { apply classes_In. exists (key, ats). split; [exact Hin|reflexivity]. }
  assert (Hm : In ats (members (key_dic key) db)).
  { apply members_In. exists key. split; [exact Hin|reflexivity]. }
  destruct (members (key_dic key) db) as [|first rest] eqn:E;
    [destruct Hm|].
  exists first, rest, (class_table (key_dic key) db).
  split; [reflexivity|]. split; [exact Hm|].
  split; [apply init_get; exact Hc|].
  intros sp. rewrite class_table_get. unfold class_species. rewrite E.
  split; intros H.
  - apply species_In, existsb_eqb_In in H. rewrite H. reflexivity.
  - destruct (existsb (String.eqb sp) (species first)) eqn:Ex;
      [|reflexivity].
    exfalso. apply H, species_In, existsb_eqb_In. exact Ex.
Qed.

(** A database of three structures in two classes; the second structure
    of the first class holds a chromium atom, the first does not. *)
Definition three_structures : dict string Atoms :=
  [("bulk_0001"%string, [("Fe"%string, [1; 0]); ("Fe"%string, [2; 1])]);
   ("bulk_0002"%string, [("Fe"%string, [3; 0]); ("Cr"%string, [0; 1])]);
   ("dislo_01"%string, [("Fe"%string, [2; 2]); ("Cr"%string, [5; 5])])].

Lemma dic_class_witness :
  exists dic,
    dict_get String.eqb "bulk_0"%string (init three_structures) = Some dic /\
    dict_get String.eqb "Cr"%string dic = None.
Proof.
  destruct (@dic_class_follows_the_first_structure three_structures
              "bulk_0002"%string
              [("Fe"%string, [3; 0]); ("Cr"%string, [0; 1])])
    as [first [rest [dic [Hm [_ [Hd H]]]]]].
  - right. now left.
  - exists dic. split; [exact Hd|]. apply H.
    injection Hm as <- _. simpl. intros [E|[E|[]]]; discriminate.
Defined.

(** *** [_get_all_atoms_species] *)

Lemma get_all_tabulated (sp : string) (db : dict string Atoms)
      (cs : list string) :
  forall acc,
    foldM (fun list_atoms_species sub_class =>
             l <- lookup String.eqb sp (snd sub_class) ;;
             Ok (list_atoms_species ++ l))
          (map (fun c => (c, class_table c db)) cs) acc
    = if forallb (fun c => existsb (String.eqb sp) (class_species c db)) cs
      then Ok (acc ++ concat (map (fun c => map (select_symbol sp)
                                                (members c db)) cs))
      else Raise KeyError.
Proof.
  induction cs as [|c cs IH]; intros acc.
  - simpl. rewrite app_nil_r. reflexivity.
  - simpl. unfold lookup at 1. cbn [snd]. rewrite class_table_get.
    destruct (existsb (String.eqb sp) (class_species c db));
      [|reflexivity].
    cbn [bind andb]. rewrite IH.
    destruct (forallb _ cs); [|reflexivity].
    rewrite app_assoc. reflexivity.
Qed.

Lemma get_all_closed (sp : string) (db : dict string Atoms) :
  _get_all_atoms_species (init db) sp
  = if forallb (fun c => existsb (String.eqb sp) (class_species c db))
               (classes db)
    then Ok (map (select_symbol sp)
                 (concat (map (fun c => members c db) (classes db))))
    else Raise KeyError.
Proof.
  unfold _get_all_atoms_species. rewrite init_grouped. unfold grouped.
  rewrite get_all_tabulated. cbn [app].
  destruct (forallb _ (classes db)); [|reflexivity].
  rewrite concat_map, map_map. reflexivity.
Qed.

Lemma members_cons_entry (c : string) (e : string * Atoms)
      (db : dict string Atoms) :
  members c (e :: db)
  = if String.eqb (class_of e) c then snd e :: members c db
    else members c db.
Proof.
  unfold members. simpl. destruct (String.eqb (class_of e) c); reflexivity.
Qed.

Lemma concat_members_nil (cs : list string) :
  concat (map (fun c => members c []) cs) = [].
Proof. induction cs as [|c cs IH]; [reflexivity|exact IH]. Qed.

Lemma members_elsewhere (e : string * Atoms) (db : dict string Atoms)
      (l : list string) :
  ~ In (class_of e) l ->
  map (fun c => members c (e :: db)) l = map (fun c => members c db) l.
Proof.
  intros H. apply map_ext_in. intros c Hc. rewrite members_cons_entry.
  destruct (String.eqb (class_of e) c) eqn:E; [|reflexivity].
  apply String.eqb_eq in E. subst c. contradiction.
Qed.

(** Grouping by class only changes the order of the structures. *)
Lemma members_perm (cs : list string) (db : dict string Atoms) :
  NoDup cs ->
  (forall e, In e db -> In (class_of e) cs) ->
  Permutation (concat (map (fun c => members c db) cs)) (map snd db).
Proof.
  intros Hnd. induction db as [|e db IH]; intros Hin.
  - rewrite concat_members_nil. constructor.
  - destruct (in_split _ _ (Hin e (or_introl eq_refl))) as [l1 [l2 E]].
    assert (Hk : ~ In (class_of e) (l1 ++ l2)).
    { apply NoDup_remove_2. rewrite <- E. exact Hnd. }
    assert (IH' : Permutation (concat (map (fun c => members c db) cs))
                              (map snd db))
      by (apply IH; intros e' He'; apply Hin; now right).
    rewrite E in IH' |- *. rewrite !map_app, !concat_app in *.
    cbn [map concat] in *.
    rewrite (@members_elsewhere e db l1)
      by (intros H; apply Hk, in_or_app; now left).
    rewrite (@members_elsewhere e db l2)
      by (intros H; apply Hk, in_or_app; now right).
    rewrite members_cons_entry, String.eqb_refl.
    cbn [map app]. symmetry. apply Permutation_cons_app. symmetry.
    exact IH'.
Qed.

Lemma grouped_perm (db : dict string Atoms) :
  Permutation (concat (map (fun c => members c db) (classes db)))
              (map snd db).
Proof.
  apply members_perm; [apply classes_NoDup|].
  intros e He. apply classes_In. exists e. split; [exact He|reflexivity].
Qed.

Lemma get_all_perm (sp : string) (db : dict string Atoms)
      (l : list Atoms) :
  _get_all_atoms_species (init db) sp = Ok l ->
  Permutation l (map (select_symbol sp) (map snd db)).
Proof.
  rewrite get_all_closed. destruct (forallb _ (classes db)); [|discriminate].
  intros H. injection H as <-. apply Permutation_map, grouped_perm.
Qed.

Lemma members_app (c : string) (d1 d2 : dict string Atoms) :
  members c (d1 ++ d2) = members c d1 ++ members c d2.
Proof. unfold members. rewrite filter_app, map_app. reflexivity. Qed.

Lemma members_none (c : string) (db : dict string Atoms) :
  (forall e, In e db -> key_dic (fst e) <> c) -> members c db = [].
Proof.
  induction db as [|e db IH]; intros H; [reflexivity|].
  rewrite members_cons_entry.
  destruct (String.eqb (class_of e) c) eqn:E.
  - apply String.eqb_eq in E. exfalso. exact (H e (or_introl eq_refl) E).
  - apply IH. intros e' He'. apply H. now right.
Qed.

(** X24.  [_get_all_atoms_species] on the classes built by [__init__].
    When it returns, it returns one [Atoms] for each structure of the
    database, each made of the atoms of that structure that carry the
    species, the structures being taken class after class.  It raises
    [KeyError] as soon as the first structure of one class carries no atom
    of the species, whatever the other structures hold; it returns when
    every structure carries the species. *)
Theorem get_all_atoms_species_of_the_database :
  forall (db : dict string Atoms) (sp : string),
    (forall l, _get_all_atoms_species (init db) sp = Ok l ->
       Permutation l (map (select_symbol sp) (map snd db)) /\
       length l = length db) /\
    (forall before key ats after,
       db = before ++ (key, ats) :: after ->
       (forall e, In e before -> key_dic (fst e) <> key_dic key) ->
       ~ In sp (get_chemical_symbols ats) ->
       _get_all_atoms_species (init db) sp = Raise KeyError) /\
    ((forall key ats, In (key, ats) db ->
        In sp (get_chemical_symbols ats)) ->
     is_ok (_get_all_atoms_species (init db) sp) = true).
Proof.
  intros db sp. split; [|split].
  - intros l H. apply get_all_perm in H. split; [exact H|].
    rewrite (Permutation_length H), !length_map. reflexivity.
  - intros before key ats after E Hfirst Hsp.
    rewrite get_all_closed.
    destruct (forallb (fun c => existsb (String.eqb sp) (class_species c db))
                      (classes db)) eqn:Ef; [|reflexivity].
    exfalso. rewrite forallb_forall in Ef.
    assert (Hc : In (key_dic key) (classes db)).
    { apply classes_In. exists (key, ats). split; [|reflexivity].
      rewrite E. apply in_or_app. right. now left. }
    specialize (Ef _ Hc). apply existsb_eqb_In in Ef.
    unfold class_species in Ef. rewrite E, members_app in Ef.
    rewrite (members_none _ Hfirst), members_cons_entry in Ef.
    unfold class_of in Ef. cbn [fst snd app] in Ef.
    rewrite String.eqb_refl in Ef. apply species_In in Ef. exact (Hsp Ef).
  - intros Hall. rewrite get_all_closed.
    replace (forallb (fun c => existsb (String.eqb sp) (class_species c db))
                     (classes db)) with true; [reflexivity|].
    symmetry. apply forallb_forall. intros c Hc.
    apply existsb_eqb_In. unfold class_species.
    pose proof (@members_cons c db Hc) as Hne.
    destruct (members c db) as [|first rest] eqn:Em; [congruence|].
    apply species_In.
    assert (Hf : In first (members c db)) by (rewrite Em; now left).
    apply members_In in Hf. destruct Hf as [key [Hk _]].
    exact (Hall _ _ Hk).
Qed.

(** The theorem on the three structures: chromium cannot be collected,
    iron can. *)
Lemma get_all_atoms_species_witness :
  _get_all_atoms_species (init three_structures) "Cr"%string
  = Raise KeyError /\
  is_ok (_get_all_atoms_species (init three_structures) "Fe"%string) = true.
Proof.
  destruct (get_all_atoms_species_of_the_database three_structures
              "Cr"%string) as [_ [Hcr _]].
  destruct (get_all_atoms_species_of_the_database three_structures
              "Fe"%string) as [_ [_ Hfe]].
  split.
  - apply (Hcr [] "bulk_0001"%string
               [("Fe"%string, [1; 0]); ("Fe"%string, [2; 1])]
               (skipn 1 three_structures)).
    + reflexivity.
    + intros e [].
    + simpl. intros [E|[E|[]]]; discriminate.
  - apply Hfe. intros key ats [E|[E|[E|[]]]]; injection E as <- <-;
      simpl; tauto.
Defined.

(** *** The descriptors handed to the fits *)

Lemma take_rows_incl (d : list (list Q)) (ids : list nat) :
  forall rows, Histogram.take_rows d ids = Ok rows -> incl rows d.
Proof.
  induction ids as [|i ids IH]; intros rows H.
  - injection H as <-. intros x [].
  - simpl in H. destruct (nth_error d i) as [row|] eqn:Hi; [|discriminate].
    destruct (Histogram.take_rows d ids) as [rows'|]; [|discriminate].
    injection H as <-. intros x [<-|Hx].
    + eapply nth_error_In. exact Hi.
    + apply (IH rows' eq_refl). exact Hx.
Qed.

(** X25.  The descriptors that [fit_mcd_envelop] and [fit_gmm_envelop]
    hand to the fit: at most [nb_selected] rows, each of them the
    descriptor of an atom of the species in a structure of the
    database. *)
Theorem array_desc_selected_comes_from_the_species :
  forall (shuffle : nat -> list nat -> list nat) (db : dict string Atoms)
         (sp : string) (nb_bin : Z) (nb_selected : nat)
         (selection_bin : list nat) (rows : list (list Q)),
    length selection_bin = nb_selected ->
    array_desc_selected shuffle (init db) sp nb_bin nb_selected selection_bin
    = Ok rows ->
    (length rows <= nb_selected)%nat /\
    forall row, In row rows ->
      exists key ats, In (key, ats) db /\ In (sp, row) ats.
Proof.
  intros shuffle db sp nb_bin nb_selected selection_bin rows Hlen H.
  unfold array_desc_selected in H.
  destruct (_get_all_atoms_species (init db) sp) as [l|] eqn:El;
    [|discriminate].
  cbn [bind] in H.
  destruct (Histogram.init shuffle (map get_array l) (Some nb_bin))
    as [h|] eqn:Eh; [|discriminate].
  cbn [bind] in H.
  destruct (Histogram.histogram_sample h nb_selected selection_bin)
    as [[h' rows']|] eqn:Es; [|discriminate].
  cbn [bind snd] in H. injection H as <-.
  apply HistogramFacts.histogram_sample_Ok in Es.
  destruct Es as [ids [_ [Hloop [Hrows _]]]].
  apply HistogramFacts.selection_loop_spec in Hloop.
  destruct Hloop as [_ [_ Hle]].
  pose proof (HistogramFacts.take_rows_length _ _ Hrows) as [Hl _].
  split; [simpl in Hle; lia|].
  intros row Hrow. apply (take_rows_incl _ _ Hrows) in Hrow.
  apply HistogramFacts.init_built in Eh.
  destruct (HistogramFacts.b_descr Eh) as [_ Ed]. rewrite Ed in Hrow.
  apply in_concat in Hrow. destruct Hrow as [arr [Harr Hrow]].
  apply in_map_iff in Harr. destruct Harr as [sub [<- Hsub]].
  apply get_all_perm in El.
  apply (Permutation_in _ El) in Hsub.
  apply in_map_iff in Hsub. destruct Hsub as [ats [<- Hats]].
  apply in_map_iff in Hats. destruct Hats as [[key ats'] [E Hdb]].
  simpl in E. subst ats'.
  unfold get_array in Hrow. apply in_map_iff in Hrow.
  destruct Hrow as [[s r] [E Ha]]. simpl in E. subst r.
  apply filter_In in Ha. destruct Ha as [Ha Hs].
  apply String.eqb_eq in Hs. simpl in Hs. subst s.
  exists key, ats. split; assumption.
Qed.

(** The theorem on the iron atoms of the three structures, two bins and
    two draws. *)
Lemma array_desc_selected_witness :
  exists rows,
    array_desc_selected (fun _ l => l) (init three_structures) "Fe"%string
                        2 2 [1; 0]%nat
    = Ok rows /\
    (length rows <= 2)%nat.
Proof.
  destruct (array_desc_selected (fun _ l => l) (init three_structures)
                                "Fe"%string 2 2 [1; 0]%nat)
    as [rows|] eqn:E; [|vm_compute in E; discriminate].
  exists rows. split; [reflexivity|].
  apply (@array_desc_selected_comes_from_the_species
           (fun _ l => l) three_structures "Fe"%string 2%Z 2%nat
           [1; 0]%nat rows eq_refl E).
Defined.

End MCDFacts.
